(** * TerminalManager: a shallow embedding of the sandboxed terminal service

    Source: [src/backend/src/utils/TerminalManager.js].

    The JavaScript class keeps a registry of session objects keyed by the
    socket id of a client.  Session objects are shared: the closures handed
    to [fs.access], to the pty [onData]/[onExit] hooks and to the port-scan
    timer keep a reference to the session they were created for, also after
    [kill] has removed it from the registry.  The embedding therefore keeps
    the session objects in a store ([heap]) and lets the registry and the
    closures hold addresses into it.

    Strings are sequences of code units; the code units 0..255 are carried
    by [ascii].  Everything the host gives the program ([path], [os],
    [JSON], the file system, [node-pty], [child_process.exec]) is either a
    field of the [Host] record (pure library functions and process-wide
    constants) or of the [Oracle] a step is run against (what the file
    system and the process spawner answer at that moment).

    [execute] and [handleInput] call [socket.emit] without a test, so their
    socket argument is a socket; [createSession] and [scanPorts] test it, so
    theirs may be missing. Socket ids are the transport's connection ids, not
    names of members of [Object.prototype]. Calls on a pty handle are
    recorded; what [pty.write] throws is swallowed by the program.

    Behind the terminal service come the pure parts of what surrounds it:
    the tree of the workspace index and the paths of the file watcher
    ([src/backend/src/services/StorageService.js]), the line the terminal
    pane shows ([src/unnamed/part_001]) and the module paths of the preview
    bundler. *)

From Stdlib Require Import Ascii String NArith Bool Lia.
From stdpp Require Import base option list gmap strings.

Local Open Scope string_scope.
#[local] Set Warnings "-clear-no-such-hyp".

(** ** JavaScript strings *)

Module Js.

Definition ESC : ascii := "027"%char.
Definition BEL : ascii := "007"%char.
Definition CR : ascii := "013"%char.
Definition LF : ascii := "010"%char.
Definition DQUOTE : ascii := "034"%char.
Definition SPACE : ascii := " "%char.

(** [\s], and what [String.prototype.trim] removes: WhiteSpace and
    LineTerminator, here the ones below U+0100. *)
Definition is_space (c : ascii) : bool :=
  let n := N_of_ascii c in
  ((9 <=? n) && (n <=? 13) || (n =? 32) || (n =? 160))%N.

Definition is_digit (c : ascii) : bool :=
  let n := N_of_ascii c in ((48 <=? n) && (n <=? 57))%N.

Definition is_upper (c : ascii) : bool :=
  let n := N_of_ascii c in ((65 <=? n) && (n <=? 90))%N.

(** [.] in a regular expression without the [s] flag. *)
Definition is_line_terminator (c : ascii) : bool :=
  Ascii.eqb c LF || Ascii.eqb c CR.

Fixpoint trimStart (s : string) : string :=
  match s with
  | String c s' => if is_space c then trimStart s' else s
  | EmptyString => EmptyString
  end.

Fixpoint trimEnd (s : string) : string :=
  match s with
  | String c s' =>
      match trimEnd s' with
      | EmptyString => if is_space c then EmptyString else String c EmptyString
      | r => String c r
      end
  | EmptyString => EmptyString
  end.

Definition trim (s : string) : string := trimEnd (trimStart s).

(** [s.split(sep)] for a one-character separator: never the empty list. *)
Fixpoint split (sep : ascii) (s : string) : list string :=
  match s with
  | EmptyString => [EmptyString]
  | String c s' =>
      if Ascii.eqb c sep then EmptyString :: split sep s'
      else match split sep s' with
           | w :: ws => String c w :: ws
           | [] => [String c EmptyString]
           end
  end.

(** [parts.join(sep)] *)
Fixpoint join (sep : string) (l : list string) : string :=
  match l with
  | [] => EmptyString
  | [w] => w
  | w :: ws => w +:+ sep +:+ join sep ws
  end.

Definition startsWith (s p : string) : bool := String.prefix p s.

Fixpoint rev (s : string) : string :=
  match s with
  | EmptyString => EmptyString
  | String c s' => rev s' +:+ String c EmptyString
  end.

Definition endsWith (s p : string) : bool := String.prefix (rev p) (rev s).

(** [s.slice(1, -1)] *)
Definition slice_1_m1 (s : string) : string :=
  String.substring 1 (String.length s - 2) s.

(** A JavaScript condition on a string: the empty string is falsy. *)
Definition truthy (s : string) : bool := negb (String.eqb s EmptyString).

(** *** Regular expressions

    A pattern is given by its anchored matcher: [m s = Some n] when the
    pattern matches the first [n] code units of [s] (the match the
    backtracking engine finds at that position) and [None] when it does
    not match there. *)
Definition matcher : Type := string -> option nat.

(** [s.replace(/re/g, '')]: scan from the left; at a match drop it and go
    on behind it, else keep one code unit and go on. [skip] counts the
    code units of the current match that are still to be dropped. *)
Fixpoint replace_from (m : matcher) (skip : nat) (s : string) : string :=
  match s with
  | EmptyString => EmptyString
  | String c s' =>
      match skip with
      | S k => replace_from m k s'
      | O =>
          match m s with
          | Some (S k) => replace_from m k s'
          | _ => String c (replace_from m 0 s')
          end
      end
  end.

Definition replace_all (m : matcher) (s : string) : string :=
  replace_from m 0 s.

(** The rest of [s] behind the literal [p], if [s] starts with it. *)
Fixpoint lit (p s : string) : option string :=
  match p, s with
  | EmptyString, _ => Some s
  | String a p', String b s' => if Ascii.eqb a b then lit p' s' else None
  | String _ _, EmptyString => None
  end.

(** Index of the first occurrence of [c]. *)
Fixpoint index_of (c : ascii) (s : string) : option nat :=
  match s with
  | EmptyString => None
  | String d s' => if Ascii.eqb d c then Some 0 else S <$> index_of c s'
  end.

(** [s.includes(c)] for a one-character [c]. *)
Definition includes (c : ascii) (s : string) : bool :=
  bool_decide (is_Some (index_of c s)).

(** [s.replace(/c/g, d)] for code units [c] and [d]. *)
Fixpoint replace_char (c d : ascii) (s : string) : string :=
  match s with
  | EmptyString => EmptyString
  | String e s' => String (if Ascii.eqb e c then d else e) (replace_char c d s')
  end.

(** [p [^c]* c] when [least = 0], [p [^c]+ c] when [least = 1]: the class
    cannot run over a [c], so the only candidate is the first [c]. *)
Definition delimited (p : string) (c : ascii) (least : nat) : matcher :=
  fun s =>
    match lit p s with
    | Some r =>
        match index_of c r with
        | Some j => if (least <=? j)%nat then Some (String.length p + j + 1)%nat else None
        | None => None
        end
    | None => None
    end.

End Js.

(** ** The output filter *)

(** [/\x1b\]0;[^\x07]*\x07/] *)
Definition title_intro : string :=
  String Js.ESC "]0;".

Definition title_re : Js.matcher := Js.delimited title_intro Js.BEL 0.

(** [/Microsoft Windows \[Version [^\]]+\]/] *)
Definition banner_re : Js.matcher :=
  Js.delimited "Microsoft Windows [Version " "]"%char 1.

(** [/\(c\) Microsoft Corporation\. All rights reserved\./] *)
Definition copyright_text : string :=
  "(c) Microsoft Corporation. All rights reserved.".

Definition copyright_re : Js.matcher :=
  fun s => match Js.lit copyright_text s with
           | Some _ => Some (String.length copyright_text)
           | None => None
           end.

(** [/[A-Z]:\\[^>]+>/] *)
Definition prompt_re : Js.matcher :=
  fun s =>
    match s with
    | String c r =>
        if Js.is_upper c
        then match Js.delimited ":\" ">"%char 1 r with
             | Some n => Some (S n)
             | None => None
             end
        else None
    | EmptyString => None
    end.

(** The step of [filterOutput] that runs on every chunk (lines 34-35). *)
Definition strip_title (data : string) : string :=
  Js.replace_all title_re data.

(** [filterOutput(data, session)]: the cleaned chunk and the new value of
    [session.initialOutputReceived]. *)
Definition filterOutput (data : string) (initialOutputReceived : bool)
  : string * bool :=
  let cleanedData := data in
  let cleanedData :=
    if initialOutputReceived then cleanedData
    else
      let d := Js.replace_all banner_re cleanedData in
      let d := Js.replace_all copyright_re d in
      let d := Js.replace_all title_re d in
      let d := Js.replace_all prompt_re d in
      Js.trimStart d in
  (strip_title cleanedData, true).

(** ** What the host provides *)

(** A value returned by [JSON.parse]. The program only tests numbers for
    truthiness, so a number carries whether it is non-zero. Object members
    are in source order; of two members with one key the later one counts. *)
#[warnings="-register-all"]
Inductive Json : Type :=
| JNull
| JBool (b : bool)
| JNumber (nonzero : bool)
| JString (s : string)
| JArray (items : list Json)
| JObject (members : list (string * Json)).

(** The functions of [path], [os] and [JSON] and the platform constant. *)
Record Host : Type := {
  win32 : bool;                              (* process.platform === 'win32' *)
  tmpdir : string;                           (* os.tmpdir() *)
  homedir : string;                          (* os.homedir() *)
  path_join : list string -> string;         (* path.join(...) *)
  path_resolve : string -> string -> string; (* path.resolve(from, to) *)
  path_relative : string -> string -> string;(* path.relative(from, to) *)
  JSON_parse : string -> option Json         (* None: throws SyntaxError *)
}.

Inductive SpawnResult : Type :=
| Spawned
| SpawnThrows (message : string).

(** What the file system and [node-pty] answer while one handler runs. *)
Record Oracle : Type := {
  existsSync : string -> bool;               (* fs.existsSync(p) *)
  mkdirSync : string -> bool;                (* fs.mkdirSync(p, ...): false when it throws *)
  readFileSync : string -> option string;    (* fs.readFileSync(p, 'utf8'): None when it throws *)
  pty_spawn : string -> list string -> string -> SpawnResult
                                             (* pty.spawn(shell, args, { cwd, ... }) *)
}.

(** ** Data model *)

(** Socket ids are opaque identifiers handed out by the transport; so are
    the socket objects events are emitted on. *)
Abbreviation SocketId := positive (only parsing).
Abbreviation Socket := positive (only parsing).
Abbreviation PtyId := nat (only parsing).
Abbreviation Addr := nat (only parsing).

Record Session : Type := {
  cwd : string;
  projectRoot : string;
  pty : option PtyId;
  initialOutputReceived : bool
}.

Definition set_cwd (p : string) (s : Session) : Session :=
  {| cwd := p; projectRoot := projectRoot s; pty := pty s;
     initialOutputReceived := initialOutputReceived s |}.

Definition set_pty (p : option PtyId) (s : Session) : Session :=
  {| cwd := cwd s; projectRoot := projectRoot s; pty := p;
     initialOutputReceived := initialOutputReceived s |}.

Definition set_initialOutputReceived (b : bool) (s : Session) : Session :=
  {| cwd := cwd s; projectRoot := projectRoot s; pty := pty s;
     initialOutputReceived := b |}.

(** [socket.emit(name, payload)] *)
Inductive Emit : Type :=
| Output (text : string)            (* 'output' *)
| TerminalCwd (rel : string)        (* 'terminal:cwd' *)
| TerminalStatus (busy : bool)      (* 'terminal:status', { busy } *)
| TerminalPorts (ports : list N).   (* 'terminal:ports' *)

(** A call on a pty handle. *)
Inductive PtyOp : Type :=
| PtyWrite (data : string)
| PtyResize (cols rows : nat)
| PtyKill.

(** The closure passed to [fs.access] at line 158. *)
Record AccessCb : Type := {
  acc_session : Addr;
  acc_newPath : string;
  acc_targetDir : string;
  acc_socket : Socket
}.

Record World : Type := {
  sessions : gmap SocketId Addr;       (* this.sessions: socket id -> session object *)
  heap : list Session;                 (* the session objects ever allocated *)
  spawned : nat;                       (* pty.spawn calls that returned a handle *)
  procs : gmap PtyId (Addr * Socket);  (* running ptys: session and socket of their hooks *)
  pty_ops : list (PtyId * PtyOp);      (* calls made on pty handles, oldest first *)
  accessing : list AccessCb;           (* fs.access calls in flight *)
  scans : list (option Socket);        (* scanPorts calls scheduled or in flight *)
  out : list (Socket * Emit)           (* events emitted, oldest first *)
}.

Definition empty_world : World :=
  {| sessions := ∅; heap := []; spawned := 0; procs := ∅; pty_ops := [];
     accessing := []; scans := []; out := [] |}.

Definition set_sessions (m : gmap positive nat) (w : World) : World :=
  {| sessions := m; heap := heap w; spawned := spawned w; procs := procs w;
     pty_ops := pty_ops w; accessing := accessing w; scans := scans w; out := out w |}.

Definition set_heap (h : list Session) (w : World) : World :=
  {| sessions := sessions w; heap := h; spawned := spawned w; procs := procs w;
     pty_ops := pty_ops w; accessing := accessing w; scans := scans w; out := out w |}.

Definition set_spawned (n : nat) (w : World) : World :=
  {| sessions := sessions w; heap := heap w; spawned := n; procs := procs w;
     pty_ops := pty_ops w; accessing := accessing w; scans := scans w; out := out w |}.

Definition set_procs (m : gmap nat (nat * positive)) (w : World) : World :=
  {| sessions := sessions w; heap := heap w; spawned := spawned w; procs := m;
     pty_ops := pty_ops w; accessing := accessing w; scans := scans w; out := out w |}.

Definition set_pty_ops (l : list (nat * PtyOp)) (w : World) : World :=
  {| sessions := sessions w; heap := heap w; spawned := spawned w; procs := procs w;
     pty_ops := l; accessing := accessing w; scans := scans w; out := out w |}.

Definition set_accessing (l : list AccessCb) (w : World) : World :=
  {| sessions := sessions w; heap := heap w; spawned := spawned w; procs := procs w;
     pty_ops := pty_ops w; accessing := l; scans := scans w; out := out w |}.

Definition set_scans (l : list (option positive)) (w : World) : World :=
  {| sessions := sessions w; heap := heap w; spawned := spawned w; procs := procs w;
     pty_ops := pty_ops w; accessing := accessing w; scans := l; out := out w |}.

Definition set_out (l : list (positive * Emit)) (w : World) : World :=
  {| sessions := sessions w; heap := heap w; spawned := spawned w; procs := procs w;
     pty_ops := pty_ops w; accessing := accessing w; scans := scans w; out := l |}.

(** [socket.emit(...)] on a socket that is there. *)
Definition emit (socket : Socket) (e : Emit) (w : World) : World :=
  set_out (out w ++ [(socket, e)]) w.

(** An assignment to a field of the session object at [a]. *)
Definition assign (a : Addr) (f : Session -> Session) (w : World) : World :=
  set_heap (alter f a (heap w)) w.

(** A call on the pty handle [p]. *)
Definition pty_call (p : PtyId) (op : PtyOp) (w : World) : World :=
  set_pty_ops (pty_ops w ++ [(p, op)]) w.

(** [this.sessions[socketId]]: the session object the registry holds. *)
Definition session_of (socketId : SocketId) (w : World) : option Session :=
  a ← sessions w !! socketId; heap w !! a.

(** ** The port scanner *)

(** [n] code units of [s] from the left that satisfy [f], and the rest. *)
Fixpoint span (f : ascii -> bool) (s : string) : string * string :=
  match s with
  | String c s' =>
      if f c then let '(a, b) := span f s' in (String c a, b)
      else (EmptyString, s)
  | EmptyString => (EmptyString, EmptyString)
  end.

(** [.*LISTENING] anchored at the head of [s]: the word occurs before the
    first line terminator. *)
Fixpoint listening_on_line (s : string) : bool :=
  if String.prefix "LISTENING" s then true
  else match s with
       | String c s' => if Js.is_line_terminator c then false else listening_on_line s'
       | EmptyString => false
       end.

(** [(\d+)\s+.*LISTENING] anchored behind a colon; the digits captured. *)
Definition port_behind_colon (s : string) : option string :=
  let '(digits, r) := span Js.is_digit s in
  if Js.truthy digits then
    let '(blank, r') := span Js.is_space r in
    if Js.truthy blank && listening_on_line r' then Some digits else None
  else None.

(** [line.match(/:(\d+)\s+.*LISTENING/)]: group 1 of the leftmost match. *)
Fixpoint match_port (line : string) : option string :=
  match line with
  | String c r =>
      if Ascii.eqb c ":"%char
      then match port_behind_colon r with
           | Some digits => Some digits
           | None => match_port r
           end
      else match_port r
  | EmptyString => None
  end.

(** [parseInt] on a run of decimal digits (exact below 2^53, so on every
    port number). *)
Definition parseInt (digits : string) : N :=
  fold_left (fun acc c => (10 * acc + (N_of_ascii c - 48))%N)
            (list_ascii_of_string digits) 0%N.

(** [ports.add(port)] on a [Set] kept in insertion order. *)
Definition set_add (ports : list N) (port : N) : list N :=
  if bool_decide (port ∈ ports) then ports else ports ++ [port].

(** The body of [lines.forEach]. *)
Definition scan_line (ports : list N) (line : string) : list N :=
  match match_port line with
  | Some digits =>
      let port := parseInt digits in
      if ((1024 <? port) && negb (port =? 3000) && negb (port =? 3001))%N
      then set_add ports port
      else ports
  | None => ports
  end.

(** [Array.from(ports)] after the loop over [stdout.split('\n')]. *)
Definition scan_stdout (stdout : string) : list N :=
  fold_left scan_line (Js.split Js.LF stdout) [].

(** The callback [scanPorts] gives to [exec]: the events emitted and the
    value the promise resolves with. [result] is [None] when [exec] reports
    an error and the standard output otherwise. *)
Definition scanPorts (socket : option Socket) (result : option string)
  : list (positive * Emit) * list N :=
  match result with
  | None => ([], [])
  | Some stdout =>
      let portList := scan_stdout stdout in
      (match socket with
       | Some sk => [(sk, TerminalPorts portList)]
       | None => []
       end, portList)
  end.

(** The command [scanPorts] hands to [exec]. *)
Definition scan_command (onWin32 : bool) : string :=
  if onWin32 then "netstat -ano -p tcp | findstr LISTENING" else "ss -tlnp".

(** ** Reading the manifest *)

(** [v.k] for a key that no prototype defines ([scripts], [start], [dev]):
    the member of an object, [None] for [undefined]. *)
Definition member (k : string) (v : Json) : option Json :=
  match v with
  | JObject members =>
      fold_left (fun found kv => if String.eqb (fst kv) k then Some (snd kv) else found)
                members None
  | _ => None
  end.

(** A value used as a condition. *)
Definition truthy (v : option Json) : bool :=
  match v with
  | None | Some JNull => false
  | Some (JBool b) => b
  | Some (JNumber nonzero) => nonzero
  | Some (JString s) => Js.truthy s
  | Some (JArray _) | Some (JObject _) => true
  end.

(** [pkg.scripts && !pkg.scripts.start && pkg.scripts.dev] as a condition;
    [None] when reading [pkg.scripts] throws a TypeError ([pkg] is null). *)
Definition only_dev (pkg : Json) : option bool :=
  match pkg with
  | JNull => None
  | _ =>
      let scripts := member "scripts" pkg in
      Some (truthy scripts
            && negb (truthy (scripts ≫= member "start"))
            && truthy (scripts ≫= member "dev"))
  end.

(** ** The terminal manager *)

Definition CRLF : string := String Js.CR (String Js.LF EmptyString).

(** The text of line 130; the light-bulb sign is carried as its UTF-8 bytes. *)
Definition redirect_notice : string :=
  "💡 Intelligence: No 'start' script found. Redirecting to 'npm run dev'..." +:+ CRLF.

(** The text of line 154. *)
Definition access_denied : string :=
  "Error: Access denied (Sandbox Restriction). Cannot navigate outside project root." +:+ CRLF.

(** The text of line 160. *)
Definition no_such_directory (targetDir : string) : string :=
  "cd: no such file or directory: " +:+ targetDir +:+ CRLF.

(** The text of line 175. *)
Definition ansi_clear : string :=
  String Js.ESC "[2J" +:+ String Js.ESC "[0f".

(** The text of line 216. *)
Definition failed_to_execute (message : string) : string :=
  "Failed to execute: " +:+ message +:+ CRLF.

(** [aliases[k]] when it is truthy, as the string [join] makes of it. Besides
    the seven entries of the table the lookup finds what the object inherits
    from [Object.prototype]: functions, and the prototype itself. *)
Definition aliases (k : string) : option string :=
  let native name := Some ("function " +:+ name +:+ "() { [native code] }") in
  if String.eqb k "ls" then Some "dir /b"
  else if String.eqb k "dir" then Some "dir /b"
  else if String.eqb k "ll" then Some "dir"
  else if String.eqb k "cat" then Some "type"
  else if String.eqb k "rm" then Some "del"
  else if String.eqb k "clear" then Some "cls"
  else if String.eqb k "pwd" then Some "echo %cd%"
  else if String.eqb k "constructor" then native "Object"
  else if String.eqb k "__proto__" then Some "[object Object]"
  else if bool_decide (k ∈ ["hasOwnProperty"; "isPrototypeOf"; "propertyIsEnumerable";
                            "toString"; "valueOf"; "toLocaleString";
                            "__defineGetter__"; "__defineSetter__";
                            "__lookupGetter__"; "__lookupSetter__"])
       then native k
  else None.

(** Lines 116-120. *)
Definition resolve_alias (trimmedCmd : string) : string :=
  match Js.split Js.SPACE trimmedCmd with
  | first :: rest =>
      match aliases first with
      | Some replacement => Js.join " " (replacement :: rest)
      | None => trimmedCmd
      end
  | [] => trimmedCmd
  end.

(** The condition of line 140. *)
Definition is_cd (trimmedCmd : string) : bool :=
  Js.startsWith trimmedCmd "cd " || String.eqb trimmedCmd "cd".

(** Lines 144-147: a target between double quotes loses them. *)
Definition unquote (targetDir : string) : string :=
  let quote := String Js.DQUOTE EmptyString in
  if Js.startsWith targetDir quote && Js.endsWith targetDir quote
  then Js.slice_1_m1 targetDir
  else targetDir.

Section Manager.

Variable host : Host.

(** Lines 141-147: [targetDir]. *)
Definition cd_target (trimmedCmd : string) : string :=
  let args := tail (Js.split Js.SPACE trimmedCmd) in
  let targetDir :=
    match args with
    | arg :: _ => if Js.truthy arg then arg else homedir host
    | [] => homedir host
    end in
  unquote targetDir.

(** The sandbox root of a user (lines 73-74). *)
Definition workspace_root (userId : option string) : string :=
  let safeUserId :=
    match userId with
    | Some u => if Js.truthy u then u else "anonymous"
    | None => "anonymous"
    end in
  path_join host [tmpdir host; "teachgrid-workspace"; safeUserId].

(** [createSession(socketId, socket, userId)]: the session object and the
    new world; [None] when [mkdirSync] throws (nothing is changed then). *)
Definition createSession (o : Oracle) (socketId : SocketId)
    (socket : option Socket) (userId : option string) (w : World)
  : option (Addr * World) :=
  match sessions w !! socketId with
  | Some a => Some (a, w)
  | None =>
      let root := workspace_root userId in
      if existsSync o root || mkdirSync o root then
        let a := length (heap w) in
        let session :=
          {| cwd := root; projectRoot := root; pty := None;
             initialOutputReceived := false |} in
        let w := set_heap (heap w ++ [session]) w in
        let w := set_sessions (<[socketId := a]> (sessions w)) w in
        let w :=
          match socket with
          | Some sk => emit sk (TerminalCwd "") w
          | None => w
          end in
        Some (a, w)
      else None
  end.

(** Lines 122-137: the command to go on with, and the world. *)
Definition smart_interceptor (o : Oracle) (session : Session)
    (socket : Socket) (trimmedCmd : string) (w : World) : string * World :=
  if String.eqb trimmedCmd "npm start" then
    let pkgPath := path_join host [cwd session; "package.json"] in
    if existsSync o pkgPath then
      match (text ← readFileSync o pkgPath; pkg ← JSON_parse host text; only_dev pkg) with
      | Some true => ("npm run dev", emit socket (Output redirect_notice) w)
      | Some false => (trimmedCmd, w)
      | None => (trimmedCmd, w)       (* catch (e): ignored *)
      end
    else (trimmedCmd, w)
  else (trimmedCmd, w).

(** Lines 140-171, up to the call of [fs.access]. *)
Definition cd (a : Addr) (session : Session) (socket : Socket)
    (trimmedCmd : string) (w : World) : World :=
  let targetDir := cd_target trimmedCmd in
  let newPath := path_resolve host (cwd session) targetDir in
  if negb (Js.startsWith newPath (projectRoot session))
  then emit socket (Output access_denied) w
  else
    let callback :=
      {| acc_session := a; acc_newPath := newPath;
         acc_targetDir := targetDir; acc_socket := socket |} in
    set_accessing (accessing w ++ [callback]) w.

(** Lines 179-217. *)
Definition spawn (o : Oracle) (a : Addr) (session : Session)
    (socket : Socket) (trimmedCmd : string) (w : World) : World :=
  let shell := if win32 host then "cmd.exe" else "bash" in
  let args := if win32 host then ["/C"; trimmedCmd] else ["-c"; trimmedCmd] in
  match pty_spawn o shell args (cwd session) with
  | Spawned =>
      let ptyProcess := spawned w in
      let w := set_spawned (S ptyProcess) w in
      let w := assign a (set_pty (Some ptyProcess)) w in
      let w := assign a (set_initialOutputReceived false) w in
      let w := emit socket (TerminalStatus true) w in
      let w := set_procs (<[ptyProcess := (a, socket)]> (procs w)) w in
      set_scans (scans w ++ [Some socket]) w
  | SpawnThrows message =>
      emit socket (Output (failed_to_execute message)) w
  end.

(** [execute(socketId, command, socket)] *)
Definition execute (o : Oracle) (socketId : SocketId) (command : string)
    (socket : Socket) (w : World) : option World :=
  '(a, w) ← createSession o socketId (Some socket) None w;
  session ← heap w !! a;
  let trimmedCmd := Js.trim command in
  if negb (Js.truthy trimmedCmd) then Some w
  else
    let trimmedCmd := resolve_alias trimmedCmd in
    let '(trimmedCmd, w) := smart_interceptor o session socket trimmedCmd w in
    if is_cd trimmedCmd then Some (cd a session socket trimmedCmd w)
    else if String.eqb trimmedCmd "cls" || String.eqb trimmedCmd "clear"
    then Some (emit socket (Output ansi_clear) w)
    else Some (spawn o a session socket trimmedCmd w).

(** [write(socketId, data)]; what [pty.write] throws is swallowed. *)
Definition write (socketId : SocketId) (data : string) (w : World) : World :=
  match session_of socketId w ≫= pty with
  | Some p => pty_call p (PtyWrite data) w
  | None => w
  end.

(** [handleInput(socketId, data, socket)] *)
Definition handleInput (o : Oracle) (socketId : SocketId) (data : string)
    (socket : Socket) (w : World) : option World :=
  '(a, w) ← createSession o socketId (Some socket) None w;
  session ← heap w !! a;
  match pty session with
  | Some _ => Some (write socketId data w)
  | None => execute o socketId data socket w
  end.

(** [resize(socketId, cols, rows)] *)
Definition resize (socketId : SocketId) (cols rows : nat) (w : World) : World :=
  match session_of socketId w ≫= pty with
  | Some p => pty_call p (PtyResize cols rows) w
  | None => w
  end.

(** [kill(socketId)] *)
Definition kill (socketId : SocketId) (w : World) : World :=
  match session_of socketId w with
  | Some session =>
      let w :=
        match pty session with
        | Some p => pty_call p PtyKill w
        | None => w
        end in
      set_sessions (delete socketId (sessions w)) w
  | None => w
  end.

(** *** The callbacks *)

(** The callback of [fs.access] (lines 158-169) for call [i] in flight. *)
Definition access_done (i : nat) (err : bool) (w : World) : World :=
  match accessing w !! i with
  | Some cb =>
      let w := set_accessing (delete i (accessing w)) w in
      if err
      then emit (acc_socket cb) (Output (no_such_directory (acc_targetDir cb))) w
      else
        match heap w !! acc_session cb with
        | Some session =>
            let newPath := acc_newPath cb in
            let w := assign (acc_session cb) (set_cwd newPath) w in
            let relPath := path_relative host (projectRoot session) newPath in
            emit (acc_socket cb) (TerminalCwd relPath) w
        | None => w
        end
  | None => w
  end.

(** The [onData] hook (lines 200-205) of the running pty [p]. *)
Definition pty_data (p : PtyId) (data : string) (w : World) : World :=
  match procs w !! p with
  | Some (a, socket) =>
      match heap w !! a with
      | Some session =>
          let '(cleaned, flag) := filterOutput data (initialOutputReceived session) in
          let w := assign a (set_initialOutputReceived flag) w in
          if Js.truthy cleaned then emit socket (Output cleaned) w else w
      | None => w
      end
  | None => w
  end.

(** The [onExit] hook (lines 207-211) of the running pty [p]; the process
    is gone afterwards. *)
Definition pty_exit (p : PtyId) (w : World) : World :=
  match procs w !! p with
  | Some (a, socket) =>
      let w := assign a (set_pty None) w in
      let w := emit socket (TerminalStatus false) w in
      let w := set_scans (scans w ++ [Some socket]) w in
      set_procs (delete p (procs w)) w
  | None => w
  end.

(** The [exec] callback of scan [i]. *)
Definition scan_done (i : nat) (result : option string) (w : World) : World :=
  match scans w !! i with
  | Some socket =>
      let w := set_scans (delete i (scans w)) w in
      set_out (out w ++ fst (scanPorts socket result)) w
  | None => w
  end.

(** *** The service as a transition system

    The transport calls [createSession], [handleInput], [resize] and
    [kill]; the event loop runs the callbacks. *)
Inductive Event : Type :=
| CreateSession (socketId : SocketId) (socket : option Socket) (userId : option string)
| HandleInput (socketId : SocketId) (data : string) (socket : Socket)
| Resize (socketId : SocketId) (cols rows : nat)
| Kill (socketId : SocketId)
| AccessDone (i : nat) (err : bool)
| PtyData (p : PtyId) (data : string)
| PtyExit (p : PtyId)
| ScanDone (i : nat) (result : option string).

(** One handler run to completion. A handler that throws leaves the world
    as it was: [createSession] throws before it changes anything. *)
Definition step (w : World) (oe : Oracle * Event) : World :=
  let '(o, e) := oe in
  match e with
  | CreateSession socketId socket userId =>
      from_option snd w (createSession o socketId socket userId w)
  | HandleInput socketId data socket =>
      default w (handleInput o socketId data socket w)
  | Resize socketId cols rows => resize socketId cols rows w
  | Kill socketId => kill socketId w
  | AccessDone i err => access_done i err w
  | PtyData p data => pty_data p data w
  | PtyExit p => pty_exit p w
  | ScanDone i result => scan_done i result w
  end.

Definition run (trace : list (Oracle * Event)) (w : World) : World :=
  fold_left step trace w.

(** The worlds the service can be in. *)
Definition reachable (w : World) : Prop :=
  ∃ trace, w = run trace empty_world.

End Manager.

(** ** A POSIX host

    [path.join], [path.resolve] and [path.relative] of Node's [path.posix],
    on the segments between the slashes. *)

Module Posix.

Definition isAbsolute (p : string) : bool := Js.startsWith p "/".

Definition segments (p : string) : list string := Js.split "/"%char p.

(** [normalizeString]: [stack] holds the segments kept so far, last first. *)
Fixpoint normalize_segments (allowAboveRoot : bool) (stack segs : list string)
  : list string :=
  match segs with
  | [] => reverse stack
  | seg :: rest =>
      if String.eqb seg "" || String.eqb seg "." then
        normalize_segments allowAboveRoot stack rest
      else if String.eqb seg ".." then
        match stack with
        | top :: below =>
            if String.eqb top ".."
            then normalize_segments allowAboveRoot (".." :: stack) rest
            else normalize_segments allowAboveRoot below rest
        | [] =>
            normalize_segments allowAboveRoot
              (if allowAboveRoot then [".."] else []) rest
        end
      else normalize_segments allowAboveRoot (seg :: stack) rest
  end.

Definition normalizeString (p : string) (allowAboveRoot : bool) : string :=
  Js.join "/" (normalize_segments allowAboveRoot [] (segments p)).

Definition normalize (p : string) : string :=
  if negb (Js.truthy p) then "."
  else
    let trailingSeparator := Js.endsWith p "/" in
    let body := normalizeString p (negb (isAbsolute p)) in
    if negb (Js.truthy body) then
      if isAbsolute p then "/" else if trailingSeparator then "./" else "."
    else
      let body := if trailingSeparator then body +:+ "/" else body in
      if isAbsolute p then "/" +:+ body else body.

Definition join (parts : list string) : string :=
  match filter (fun part => Js.truthy part = true) parts with
  | [] => "."
  | kept => normalize (Js.join "/" kept)
  end.

(** The loop of [resolve], from the last argument to the first and then
    to [process.cwd()], until an absolute path has been seen. *)
Fixpoint resolve_loop (process_cwd : string) (args_from_last : list string) : string :=
  match args_from_last with
  | [] => process_cwd +:+ "/"
  | p :: before =>
      if negb (Js.truthy p) then resolve_loop process_cwd before
      else if isAbsolute p then p +:+ "/"
      else resolve_loop process_cwd before +:+ p +:+ "/"
  end.

Definition resolve (process_cwd from to : string) : string :=
  "/" +:+ normalizeString (resolve_loop process_cwd [to; from]) false.

Fixpoint drop_common (xs ys : list string) : list string * list string :=
  match xs, ys with
  | x :: xs', y :: ys' => if String.eqb x y then drop_common xs' ys' else (xs, ys)
  | _, _ => (xs, ys)
  end.

Definition relative (process_cwd from to : string) : string :=
  if String.eqb from to then ""
  else
    let from := resolve process_cwd from "" in
    let to := resolve process_cwd to "" in
    if String.eqb from to then ""
    else
      let kept p := filter (fun seg => Js.truthy seg = true) (segments p) in
      let '(up, down) := drop_common (kept from) (kept to) in
      Js.join "/" (replicate (length up) ".." ++ down).

End Posix.

(** [s] between double quotes. *)
Definition quoted (s : string) : string :=
  String Js.DQUOTE s +:+ String Js.DQUOTE EmptyString.

(** Two manifests: one with a [dev] script only, one with [start] and [dev]. *)
Definition manifest_dev_only : string :=
  "{" +:+ quoted "scripts" +:+ ":{" +:+ quoted "dev" +:+ ":" +:+ quoted "vite" +:+ "}}".

Definition manifest_start_and_dev : string :=
  "{" +:+ quoted "scripts" +:+ ":{" +:+ quoted "start" +:+ ":" +:+ quoted "node server.js"
      +:+ "," +:+ quoted "dev" +:+ ":" +:+ quoted "vite" +:+ "}}".

(** A POSIX host for the examples. [JSON.parse] is given by its values on
    the two manifests above and on the text [null]. *)
Definition posix_host : Host :=
  {| win32 := false;
     tmpdir := "/tmp";
     homedir := "/home/user";
     path_join := Posix.join;
     path_resolve := Posix.resolve "/srv/app";
     path_relative := Posix.relative "/srv/app";
     JSON_parse := fun text =>
       if String.eqb text manifest_dev_only then
         Some (JObject [("scripts", JObject [("dev", JString "vite")])])
       else if String.eqb text manifest_start_and_dev then
         Some (JObject [("scripts", JObject [("start", JString "node server.js");
                                             ("dev", JString "vite")])])
       else if String.eqb text "null" then Some JNull
       else None |}.

(** A file system in which the directories in [dirs] exist and are
    readable, [files] gives the files and their text, and every spawn
    succeeds. *)
Definition oracle_of (dirs : list string) (files : list (string * string)) : Oracle :=
  {| existsSync := fun p =>
       bool_decide (p ∈ dirs) || bool_decide (p ∈ files.*1);
     mkdirSync := fun _ => true;
     readFileSync := fun p => snd <$> find (fun f => String.eqb (fst f) p) files;
     pty_spawn := fun _ _ _ => Spawned |}.

(** * The workspace index

    Source: [src/backend/src/services/StorageService.js], lines 12-350.

    [buildTree] turns the rows of the table [workspace_files] into the tree
    the file explorer shows. It first makes one node object per path in the
    object [nodes] and then, row by row, pushes the node of the row to the
    [children] array of the node of its parent path, or to the top level.
    Node objects are shared between [nodes], the top level and the
    [children] arrays, and a later row with the same path replaces the node
    in [nodes]; so a node object is known by its path, [nodes] is the store,
    and the top level and the [children] arrays hold paths.

    [nodes] is a plain object: [nodes[k]] also finds what the object
    inherits, and an assignment to [nodes['__proto__']] replaces its
    prototype instead of making a member. The map below keeps the prototype
    under the key [__proto__]; [slot] reads the members the prototype then
    lends to [nodes], and the members of [Object.prototype]. *)

Module Storage.

Local Open Scope list_scope.

(** A row of [workspace_files], as far as the program reads it. *)
Record Row : Type := {
  path : string;               (* TEXT PRIMARY KEY *)
  name : string;               (* TEXT NOT NULL *)
  content : option string;     (* TEXT, [None] for NULL *)
  is_dir : bool
}.

(** The node object of lines 263-270; [children] holds the paths of the
    node objects pushed to the array and is [None] for [undefined]. *)
Record Node : Type := {
  id : string;
  node_name : string;
  isDir : bool;
  node_content : option string;
  children : option (list string);
  isOpen : bool
}.

Definition node_of (row : Row) : Node :=
  {| id := path row; node_name := name row; isDir := is_dir row;
     node_content := content row;
     children := if is_dir row then Some [] else None;
     isOpen := false |}.

(** The first pass (lines 262-271). *)
Definition first_pass (rows : list Row) : gmap string Node :=
  fold_left (fun nodes row => <[path row := node_of row]> nodes) rows ∅.

(** What [nodes[k]] is to lines 282-286. *)
Inductive Slot : Type :=
| Directory     (* a node with a [children] array *)
| Unusable      (* truthy, and its [children] is [undefined]: [push] throws *)
| Absent.       (* falsy *)

Definition of_truthy (b : bool) : Slot := if b then Unusable else Absent.

(** The members of [Object.prototype], but [__proto__]: all functions. *)
Definition object_prototype_names : list string :=
  ["constructor"; "hasOwnProperty"; "isPrototypeOf"; "propertyIsEnumerable";
   "toString"; "valueOf"; "toLocaleString";
   "__defineGetter__"; "__defineSetter__"; "__lookupGetter__"; "__lookupSetter__"].

Definition inherited (k : string) : Slot :=
  of_truthy (bool_decide (k ∈ object_prototype_names)).

(** A member of the node [p] that is the prototype of [nodes]: a string, a
    boolean, [null], [undefined] or an array, none of which has [children]. *)
Definition lent (p : Node) (k : string) : Slot :=
  if String.eqb k "id" then of_truthy (Js.truthy (id p))
  else if String.eqb k "name" then of_truthy (Js.truthy (node_name p))
  else if String.eqb k "isDir" then of_truthy (isDir p)
  else if String.eqb k "content"
       then of_truthy (from_option Js.truthy false (node_content p))
  else if String.eqb k "children" then of_truthy (bool_decide (is_Some (children p)))
  else if String.eqb k "isOpen" then of_truthy (isOpen p)
  else inherited k.

Definition slot (nodes : gmap string Node) (k : string) : Slot :=
  match nodes !! k with
  | Some n => match children n with Some _ => Directory | None => Unusable end
  | None =>
      if String.eqb k "__proto__" then Unusable     (* [Object.prototype] itself *)
      else match nodes !! "__proto__" with
           | Some p => lent p k
           | None => inherited k
           end
  end.

(** [parts.slice(0, -1).join('/')] when the path has more than one part. *)
Definition parentPath (p : string) : option string :=
  let parts := Js.split "/" p in
  if (length parts =? 1)%nat then None else Some (Js.join "/" (removelast parts)).

(** [node.children.push(child)] *)
Definition push (child : string) (n : Node) : Node :=
  {| id := id n; node_name := node_name n; isDir := isDir n;
     node_content := node_content n;
     children := (fun l => l ++ [child]) <$> children n;
     isOpen := isOpen n |}.

(** The body of the second loop (lines 274-288); [None] for the TypeError
    of [push] on [undefined]. *)
Definition connect (st : gmap string Node * list string) (row : Row)
  : option (gmap string Node * list string) :=
  let '(nodes, tree) := st in
  match parentPath (path row) with
  | None => Some (nodes, tree ++ [path row])
  | Some parent =>
      match slot nodes parent with
      | Directory => Some (alter (push (path row)) parent nodes, tree)
      | Unusable => None
      | Absent => Some (nodes, tree ++ [path row])
      end
  end.

Definition second_pass (nodes : gmap string Node) (rows : list Row)
  : option (gmap string Node * list string) :=
  fold_left (fun st row => st ≫= fun st => connect st row) rows (Some (nodes, [])).

(** [buildTree(rows)]: the node objects and the top level; [None] when it
    throws. *)
Definition buildTree (rows : option (list Row))
  : option (gmap string Node * list string) :=
  match rows with
  | None => Some (∅, [])
  | Some rows => second_pass (first_pass rows) rows
  end.

(** The rows [saveFile] upserts for the directories above [filePath] (lines
    104-118), oldest first: path and name; each with [is_dir: true]. *)
Definition parent_rows (filePath : string) : list (string * string) :=
  if Js.includes "/" filePath then
    let parts := Js.split "/" filePath in
    (fun i => (Js.join "/" (take i parts), default "" (parts !! (i - 1))))
      <$> seq 1 (length parts - 1)
  else [].

(** What [handleFsEvent] asks of the service. *)
Inductive Call : Type :=
| SaveFile (userId filePath name : string) (content : option string) (isDir : bool)
| DeleteFile (userId filePath : string).

Section Watcher.

Variable host : Host.

(** [handleFsEvent(event, absPath)] (lines 318-347): the call it makes, if
    any. What [readFileSync], [saveFile] or [deleteFile] throw is caught and
    logged. *)
Definition handleFsEvent (o : Oracle) (event absPath : string) : option Call :=
  let workspaceDir := path_join host [tmpdir host; "teachgrid-workspace"] in
  let relativeToRoot :=
    Js.replace_char "\" "/" (path_relative host workspaceDir absPath) in
  let parts := Js.split "/" relativeToRoot in
  if (length parts <? 2)%nat then None
  else
    let userId := default "" (head parts) in
    let filePath := Js.join "/" (tail parts) in
    let name := default "" (last parts) in
    if String.eqb event "add" || String.eqb event "change" || String.eqb event "addDir"
    then
      let isDir := String.eqb event "addDir" in
      if isDir then Some (SaveFile userId filePath name None true)
      else
        match readFileSync o absPath with
        | Some text => Some (SaveFile userId filePath name (Some text) false)
        | None => None
        end
    else if String.eqb event "unlink" || String.eqb event "unlinkDir"
    then Some (DeleteFile userId filePath)
    else None.

End Watcher.

End Storage.

(** * A line of the terminal pane

    Source: [src/unnamed/part_001] (the component [Terminal]), lines 66-79:
    what the pane shows for one line of [output]. *)

Module Terminal.

Inductive Line : Type :=
| Plain (text : string)
| Prompted (prompt command : string).

Definition render_line (line : string) : Line :=
  if Js.includes ">" line then
    let parts := Js.split ">" line in
    Prompted (default "" (parts !! 0) +:+ ">") (default "" (parts !! 1))
  else Plain line.

(** The text of the line on the screen. *)
Definition shown (l : Line) : string :=
  match l with
  | Plain text => text
  | Prompted prompt command => prompt +:+ command
  end.

End Terminal.

(** * Module paths of the preview bundler

    Source: [src/backend/src/services/StorageService.js], lines 453-462
    (the function [normalizePath] of the script [WebPreview] builds). *)

Module Bundler.

Local Open Scope list_scope.

(** The body of the loop over the parts. *)
Definition visit (stack : list string) (part : string) : list string :=
  if String.eqb part "." || String.eqb part "" then stack
  else if String.eqb part ".." then removelast stack
  else stack ++ [part].

Definition normalizePath (path : string) : string :=
  Js.join "/" (fold_left visit (Js.split "/" path) []).

End Bundler.

(** * The vocabulary of the properties *)

Local Open Scope list_scope.

(** ** Title sequences *)

(** [p] occurs in [s]. *)
Fixpoint occurs (p s : string) : bool :=
  match s with
  | EmptyString => String.prefix p s
  | String _ s' => String.prefix p s || occurs p s'
  end.

(** An introducer [ESC ] 0 ;] directly behind the beginning of another one:
    behind [ESC], behind [ESC ]] or behind [ESC ] 0]. *)
Definition intro_in_intro (s : string) : bool :=
  occurs (String Js.ESC title_intro) s
  || occurs (String Js.ESC "]" +:+ title_intro) s
  || occurs (String Js.ESC "]0" +:+ title_intro) s.

(** No introducer starts at a point of [s] that is reached reading [p]. *)
Fixpoint clear_along (p s : string) : bool :=
  match p with
  | EmptyString => true
  | String a p' =>
      negb (String.prefix title_intro s)
      && match s with
         | String b s' => if Ascii.eqb a b then clear_along p' s' else true
         | EmptyString => true
         end
  end.

(** A title sequence inside the introducer of another one:
    [ESC ] (ESC ] 0 ; x BEL) 0 ; y BEL]. *)
Definition title_in_title : string :=
  String Js.ESC "]" +:+ (title_intro +:+ "x" +:+ String Js.BEL "")
    +:+ "0;y" +:+ String Js.BEL "".

(** A coloured line behind a title sequence. *)
Definition titled_chunk : string :=
  title_intro +:+ "npm" +:+ String Js.BEL "" +:+ String Js.ESC "[32m" +:+ "ready"
    +:+ String Js.ESC "[0m".

(** ** Parsed ports *)

(** The port number a line of the scan output gives, if it gives one. *)
Definition port_of_line (line : string) : option N :=
  parseInt <$> match_port line.

(** The port numbers parsed from the scan output, line by line. *)
Definition parsed_ports (stdout : string) : list N :=
  omap port_of_line (Js.split Js.LF stdout).

Definition reportable (port : N) : Prop :=
  (1024 < port)%N ∧ port ≠ 3000%N ∧ port ≠ 3001%N.

(** The lines of [netstat -ano -p tcp | findstr LISTENING] for the ports
    80, 5173, 3000, 3001 and once more 5173. *)
Definition netstat_sample : string :=
  "  TCP    0.0.0.0:80       0.0.0.0:0    LISTENING    4" +:+ CRLF +:+
  "  TCP    0.0.0.0:5173     0.0.0.0:0    LISTENING    812" +:+ CRLF +:+
  "  TCP    127.0.0.1:3000   0.0.0.0:0    LISTENING    96" +:+ CRLF +:+
  "  TCP    [::]:3001        [::]:0       LISTENING    96" +:+ CRLF +:+
  "  TCP    [::1]:5173       [::]:0       LISTENING    812" +:+ CRLF.

(** ** Worlds *)

(** What holds of every world the service can be in: the registry points
    into the store; the working directory of every session object, and the
    target of every [fs.access] call in flight, starts with the project root
    of its session; the pty a session object holds is a running process
    whose hooks were registered for that session object, and every running
    process is the one its session object holds. *)
Record wf (w : World) : Prop := {
  wf_registry : ∀ socketId a,
    sessions w !! socketId = Some a -> is_Some (heap w !! a);
  wf_cwd : ∀ a session,
    heap w !! a = Some session ->
    Js.startsWith (cwd session) (projectRoot session) = true;
  wf_accessing : ∀ cb,
    cb ∈ accessing w ->
    ∃ session, heap w !! acc_session cb = Some session
               ∧ Js.startsWith (acc_newPath cb) (projectRoot session) = true;
  wf_attached : ∀ a session p,
    heap w !! a = Some session -> pty session = Some p ->
    ∃ socket, procs w !! p = Some (a, socket);
  wf_running : ∀ p a socket,
    procs w !! p = Some (a, socket) ->
    ∃ session, heap w !! a = Some session ∧ pty session = Some p;
  wf_fresh : ∀ p, is_Some (procs w !! p) -> p < spawned w
}.

(** Every session object of [h] is still there in [h'], with the project
    root it had. *)
Definition roots_kept (h h' : list Session) : Prop :=
  ∀ a s, h !! a = Some s -> ∃ s', h' !! a = Some s' ∧ projectRoot s' = projectRoot s.

(** A session object is busy while a process spawned for it is running. *)
Definition busy (w : World) (a : Addr) : Prop :=
  ∃ p socket, procs w !! p = Some (a, socket).

(** The manifest declares the script [name]: [pkg.scripts.<name>] is a truthy
    value, which for a string means a command that is not empty. *)
Definition declares (name : string) (pkg : Json) : bool :=
  truthy (member "scripts" pkg ≫= member name).

Section Vocabulary.

Variable host : Host.

(** [execute] and [handleInput] start by finding or making the session:
    [a] is the session object, [session] its state and [w1] the world then. *)
Definition enters (o : Oracle) (socketId : SocketId) (socket : Socket)
    (w : World) (a : Addr) (session : Session) (w1 : World) : Prop :=
  createSession host o socketId (Some socket) None w = Some (a, w1)
  ∧ heap w1 !! a = Some session.

(** The call [cd] leaves in flight for a target inside the sandbox. *)
Definition access_call (a : Addr) (session : Session) (socket : Socket)
    (trimmedCmd : string) : AccessCb :=
  {| acc_session := a;
     acc_newPath := path_resolve host (cwd session) (cd_target host trimmedCmd);
     acc_targetDir := cd_target host trimmedCmd;
     acc_socket := socket |}.

(** The manifest at [pkgPath], when the file is there and its text parses. *)
Definition read_manifest (o : Oracle) (pkgPath : string) : option Json :=
  if existsSync o pkgPath then readFileSync o pkgPath ≫= JSON_parse host else None.

(** The sandbox root of a session made without a user identity. *)
Definition anonymous_root : string :=
  path_join host [tmpdir host; "teachgrid-workspace"; "anonymous"].

End Vocabulary.

(** [p] is the directory [root] or lies in the tree under it: the segments
    of [root] begin the segments of [p]. *)
Definition nested_under (root p : string) : bool :=
  let kept q := filter (fun seg => Js.truthy seg = true) (Posix.segments q) in
  bool_decide (kept root `prefix_of` kept p).

(** ** Example worlds on the POSIX host *)

(** A session of user [user] on the POSIX host, in the directory
    [/tmp/teachgrid-workspace/user]; the sibling directory
    [/tmp/teachgrid-workspace/user-evil] exists. *)
Definition sandbox_oracle : Oracle :=
  oracle_of ["/tmp/teachgrid-workspace/user";
             "/tmp/teachgrid-workspace/user/src";
             "/tmp/teachgrid-workspace/user-evil"]
            [("/tmp/teachgrid-workspace/user/package.json", manifest_dev_only)].

Definition sandbox_world : World :=
  run posix_host
      [(sandbox_oracle, CreateSession 1%positive (Some 7%positive) (Some "user"))]
      empty_world.

Definition user_session (dir : string) (process : option PtyId) : Session :=
  {| cwd := dir; projectRoot := "/tmp/teachgrid-workspace/user";
     pty := process; initialOutputReceived := false |}.

(** The session of [sandbox_world] while [npm run dev] is running. *)
Definition serving_world : World :=
  run posix_host
      [(sandbox_oracle, HandleInput 1%positive "npm run dev" 7%positive)]
      sandbox_world.

(** ** Chunks the filter leaves alone *)

(** The pattern [m] matches nowhere in [s]. *)
Fixpoint matches_nowhere (m : Js.matcher) (s : string) : Prop :=
  m s = None
  ∧ match s with
    | String _ s' => matches_nowhere m s'
    | EmptyString => True
    end.

(** None of the texts the first-chunk filter looks for begins in [s]: the
    version banner, the copyright line, a title introducer, a drive prompt. *)
Definition plain_chunk (s : string) : bool :=
  negb (occurs "Microsoft Windows [Version " s)
  && negb (occurs copyright_text s)
  && negb (occurs title_intro s)
  && negb (occurs ":\" s).

(** A coloured line without any of them. *)
Definition coloured_chunk : string :=
  String Js.ESC "[32m" +:+ "ready" +:+ String Js.ESC "[0m".

(** ** The alias table *)

(** The entries of [aliases] (lines 107-115). *)
Definition alias_table : list (string * string) :=
  [("ls", "dir /b"); ("dir", "dir /b"); ("ll", "dir"); ("cat", "type");
   ("rm", "del"); ("clear", "cls"); ("pwd", "echo %cd%")].

(** The names the lookup [aliases[k]] answers for, with what [join] makes of
    the answer: the table and what it inherits from [Object.prototype]. *)
Definition alias_answers : list (string * string) :=
  alias_table ++
  [("constructor", "function Object() { [native code] }");
   ("__proto__", "[object Object]");
   ("hasOwnProperty", "function hasOwnProperty() { [native code] }");
   ("isPrototypeOf", "function isPrototypeOf() { [native code] }");
   ("propertyIsEnumerable", "function propertyIsEnumerable() { [native code] }");
   ("toString", "function toString() { [native code] }");
   ("valueOf", "function valueOf() { [native code] }");
   ("toLocaleString", "function toLocaleString() { [native code] }");
   ("__defineGetter__", "function __defineGetter__() { [native code] }");
   ("__defineSetter__", "function __defineSetter__() { [native code] }");
   ("__lookupGetter__", "function __lookupGetter__() { [native code] }");
   ("__lookupSetter__", "function __lookupSetter__() { [native code] }")].

(** Every code unit of [s] is white space. *)
Definition blank (s : string) : Prop :=
  Forall (λ c, Js.is_space c = true) (list_ascii_of_string s).

(** ** Sessions side by side *)

(** Different socket ids hold different session objects. *)
Definition registry_injective (w : World) : Prop :=
  ∀ id1 id2 a,
    sessions w !! id1 = Some a -> sessions w !! id2 = Some a -> id1 = id2.

(** What a chunk of output makes the [onData] hook emit. *)
Definition chunk_events (socket : Socket) (cleaned : string) : list (positive * Emit) :=
  if Js.truthy cleaned then [(socket, Output cleaned)] else [].

(** A file system like [sandbox_oracle], on which no process can be spawned. *)
Definition failing_oracle : Oracle :=
  {| existsSync := existsSync sandbox_oracle;
     mkdirSync := mkdirSync sandbox_oracle;
     readFileSync := readFileSync sandbox_oracle;
     pty_spawn := fun _ _ _ => SpawnThrows "spawn bash ENOENT" |}.

(** The socket id a call of the transport is made for; the callbacks of the
    event loop have none. *)
Definition caller (e : Event) : option SocketId :=
  match e with
  | CreateSession socketId _ _ | HandleInput socketId _ _
  | Resize socketId _ _ | Kill socketId => Some socketId
  | AccessDone _ _ | PtyData _ _ | PtyExit _ | ScanDone _ _ => None
  end.

(** ** Output of the scan command *)

(** Two lines as [ss -tlnp] prints them. *)
Definition ss_sample : string :=
  "State  Recv-Q Send-Q Local Address:Port  Peer Address:Port" +:+ String Js.LF
  "LISTEN 0      511          0.0.0.0:5173       0.0.0.0:*".

(** ** Rows and their places in the tree *)

(** The row goes to the top level: its path has one part, or [nodes] has
    nothing for its parent path. *)
Definition top_level (nodes : gmap string Storage.Node) (row : Storage.Row) : bool :=
  match Storage.parentPath (Storage.path row) with
  | None => true
  | Some parent =>
      match Storage.slot nodes parent with
      | Storage.Absent => true
      | _ => false
      end
  end.

(** The parent path of the row is [k]. *)
Definition child_of (k : string) (row : Storage.Row) : bool :=
  bool_decide (Storage.parentPath (Storage.path row) = Some k).

Definition has_path (k : string) (row : Storage.Row) : bool :=
  String.eqb (Storage.path row) k.

(** [push] throws for the row: what [nodes] has for its parent path is
    truthy and has no [children] array. *)
Definition blocked (nodes : gmap string Storage.Node) (row : Storage.Row) : Prop :=
  ∃ parent, Storage.parentPath (Storage.path row) = Some parent
            ∧ Storage.slot nodes parent = Storage.Unusable.

(** The node with [l] pushed to its [children]. *)
Definition extend (l : list string) (n : Storage.Node) : Storage.Node :=
  {| Storage.id := Storage.id n; Storage.node_name := Storage.node_name n;
     Storage.isDir := Storage.isDir n; Storage.node_content := Storage.node_content n;
     Storage.children := (fun c => c ++ l) <$> Storage.children n;
     Storage.isOpen := Storage.isOpen n |}.

(** The rows of a directory and a file in it, and of a file below a file. *)
Definition src_rows : list Storage.Row :=
  [ {| Storage.path := "src"; Storage.name := "src"; Storage.content := None;
       Storage.is_dir := true |};
    {| Storage.path := "src/App.jsx"; Storage.name := "App.jsx";
       Storage.content := Some "export default 1"; Storage.is_dir := false |};
    {| Storage.path := "lib/util.js"; Storage.name := "util.js";
       Storage.content := Some ""; Storage.is_dir := false |} ].

Definition file_in_file_rows : list Storage.Row :=
  [ {| Storage.path := "notes"; Storage.name := "notes"; Storage.content := Some "x";
       Storage.is_dir := false |};
    {| Storage.path := "notes/today"; Storage.name := "today";
       Storage.content := Some "y"; Storage.is_dir := false |} ].

(** ** Parts of a module path *)

(** A part that [normalizePath] keeps. *)
Definition kept_part (part : string) : bool :=
  negb (String.eqb part "." || String.eqb part "" || String.eqb part "..").

(** ** A file system with one source file *)

Definition app_oracle : Oracle :=
  oracle_of ["/tmp/teachgrid-workspace/user"; "/tmp/teachgrid-workspace/user/src"]
            [("/tmp/teachgrid-workspace/user/src/App.jsx", "export default 1")].

(** ** The rows of one saved file *)

(** The rows [saveFile] upserts for one file, in the order of the upserts:
    the directories above it, with no content, and the file itself. *)
Definition saved_rows (filePath name : string) (content : option string)
    (isDir : bool) : list Storage.Row :=
  ((fun parent : string * string =>
      {| Storage.path := parent.1; Storage.name := parent.2;
         Storage.content := None; Storage.is_dir := true |})
     <$> Storage.parent_rows filePath)
  ++ [{| Storage.path := filePath; Storage.name := name;
         Storage.content := content; Storage.is_dir := isDir |}].

(** The path made of the parts of [filePath] up to part [i]. *)
Definition path_upto (filePath : string) (i : nat) : string :=
  Js.join "/" (take (S i) (Js.split "/" filePath)).

(** ** A socket id that is used again *)

(** [serving_world] after the session was killed and the same socket id
    started a dev server again: the new session object, made by
    [handleInput] with the anonymous root, is at address 1 with process 1,
    while process 0 of the killed session is still running. *)
Definition restarted_world : World :=
  run posix_host
      [(sandbox_oracle, Kill 1%positive);
       (sandbox_oracle, HandleInput 1%positive "npm run dev" 7%positive)]
      serving_world.

(** * Properties *)

(** ** The title-sequence strip *)

Lemma clear_along_cons a p s :
  clear_along (String a p) s
  = negb (String.prefix title_intro s)
    && match s with
       | String b s' => if Ascii.eqb a b then clear_along p s' else true
       | EmptyString => true
       end.
Proof. reflexivity. Qed.

Lemma prefix_split p s : String.prefix p s = true -> ∃ r, s = p +:+ r.
Proof.
  revert s; induction p as [|a p IH]; intros s H.
  - by exists s.
  - destruct s as [|b s]; [discriminate|]. cbn [String.prefix] in H.
    destruct (ascii_dec a b) as [<-|]; [|discriminate].
    destruct (IH s H) as [r ->]. by exists r.
Qed.

Lemma prefix_cons a p s : String.prefix (String a p) (String a s) = String.prefix p s.
Proof. cbn [String.prefix]. by destruct (ascii_dec a a). Qed.

Lemma lit_cons a p b s :
  Js.lit (String a p) (String b s) = if Ascii.eqb a b then Js.lit p s else None.
Proof. reflexivity. Qed.

Lemma lit_needs_prefix p s : String.prefix p s = false -> Js.lit p s = None.
Proof.
  revert s; induction p as [|a p IH]; intros s H.
  - by destruct s.
  - destruct s as [|b s]; [done|]. rewrite lit_cons.
    destruct (Ascii.eqb_spec a b) as [<-|]; [|done].
    rewrite prefix_cons in H. by apply IH.
Qed.

Lemma lit_keeps_absent p c s r :
  Js.lit p s = Some r -> Js.index_of c s = None -> Js.index_of c r = None.
Proof.
  revert s; induction p as [|a p IH]; intros s Hl Hs; simpl in Hl.
  - congruence.
  - destruct s as [|b s]; [discriminate|].
    destruct (Ascii.eqb a b); [|discriminate].
    simpl in Hs. destruct (Ascii.eqb b c); [discriminate|].
    apply (IH s Hl). destruct (Js.index_of c s); [discriminate|reflexivity].
Qed.

Lemma title_re_positive s : title_re s <> Some 0.
Proof.
  unfold title_re, Js.delimited.
  destruct (Js.lit title_intro s); [|discriminate].
  destruct (Js.index_of Js.BEL s0); [|discriminate].
  simpl. discriminate.
Qed.

Lemma title_re_needs_bel s : Js.index_of Js.BEL s = None -> title_re s = None.
Proof.
  intros Hs. unfold title_re, Js.delimited.
  destruct (Js.lit title_intro s) as [r|] eqn:Hl; [|reflexivity].
  by rewrite (lit_keeps_absent _ _ _ _ Hl Hs).
Qed.

Lemma title_re_needs_intro s : String.prefix title_intro s = false -> title_re s = None.
Proof. intros H. unfold title_re, Js.delimited. by rewrite lit_needs_prefix. Qed.

(** The match at an ESC, read behind the ESC. *)
Lemma title_re_at_esc s :
  title_re (String Js.ESC s)
  = match Js.lit "]0;" s with
    | Some r => (λ j, 4 + j + 1) <$> Js.index_of Js.BEL r
    | None => None
    end.
Proof.
  unfold title_re, Js.delimited, title_intro. rewrite lit_cons.
  change (Ascii.eqb Js.ESC Js.ESC) with true. cbv iota.
  destruct (Js.lit "]0;" s) as [r|]; [|done]. by destruct (Js.index_of Js.BEL r).
Qed.

Lemma title_re_other_head c s : Ascii.eqb c Js.ESC = false -> title_re (String c s) = None.
Proof.
  intros Hc. unfold title_re, Js.delimited, title_intro. rewrite lit_cons.
  rewrite Ascii.eqb_sym in Hc. by rewrite Hc.
Qed.

Lemma strip_title_without_bel s :
  Js.index_of Js.BEL s = None -> strip_title s = s.
Proof.
  unfold strip_title, Js.replace_all.
  induction s as [|c s IH]; intros Hs; [reflexivity|].
  simpl. rewrite (title_re_needs_bel _ Hs).
  simpl in Hs. destruct (Ascii.eqb c Js.BEL); [discriminate|].
  rewrite IH; [reflexivity|].
  destruct (Js.index_of Js.BEL s); [discriminate|reflexivity].
Qed.

(** Where no introducer starts, the strip keeps the first code unit. *)
Lemma strip_title_step c s :
  String.prefix title_intro (String c s) = false ->
  strip_title (String c s) = String c (strip_title s).
Proof.
  intros H. unfold strip_title, Js.replace_all. simpl.
  by rewrite (title_re_needs_intro _ H).
Qed.

(** Reading a literal commutes with the strip along a clear stretch. *)
Lemma lit_strip_title p : ∀ s,
  clear_along p s = true ->
  Js.lit p (strip_title s) = strip_title <$> Js.lit p s.
Proof.
  induction p as [|a p IH]; intros s Hclear; [done|].
  simpl in Hclear. apply andb_true_iff in Hclear as [Hhere Hnext].
  apply negb_true_iff in Hhere.
  destruct s as [|b s]; [done|].
  rewrite (strip_title_step _ _ Hhere), !lit_cons.
  destruct (Ascii.eqb a b); [by apply IH|done].
Qed.

Lemma occurs_tail p c s : occurs p (String c s) = false -> occurs p s = false.
Proof. simpl. by intros [_ ?]%orb_false_iff. Qed.

Lemma occurs_head p s : occurs p s = false -> String.prefix p s = false.
Proof. destruct s; simpl; [done|]. by intros [? _]%orb_false_iff. Qed.

Lemma intro_in_intro_tail c s : intro_in_intro (String c s) = false -> intro_in_intro s = false.
Proof.
  unfold intro_in_intro.
  intros [[H1 H2]%orb_false_iff H3]%orb_false_iff.
  by rewrite (occurs_tail _ _ _ H1), (occurs_tail _ _ _ H2), (occurs_tail _ _ _ H3).
Qed.

(** Behind an ESC of a chunk without an introducer in an introducer, no
    introducer starts while [ ] 0 ;] is read. *)
Lemma clear_behind_esc s :
  intro_in_intro (String Js.ESC s) = false -> clear_along "]0;" s = true.
Proof.
  unfold intro_in_intro.
  intros [[H1%occurs_head H2%occurs_head]%orb_false_iff H3%occurs_head]%orb_false_iff.
  rewrite prefix_cons in H1.
  change (String Js.ESC "]" +:+ title_intro) with (String Js.ESC (String "]" title_intro)) in H2.
  change (String Js.ESC "]0" +:+ title_intro)
    with (String Js.ESC (String "]" (String "0" title_intro))) in H3.
  rewrite prefix_cons in H2, H3.
  rewrite clear_along_cons, H1, andb_true_l.
  destruct s as [|a s]; [done|].
  destruct (Ascii.eqb_spec "]" a) as [<-|]; [|done].
  rewrite prefix_cons in H2, H3. rewrite clear_along_cons, H2, andb_true_l.
  destruct s as [|b s]; [done|].
  destruct (Ascii.eqb_spec "0" b) as [<-|]; [|done].
  rewrite prefix_cons in H3. rewrite clear_along_cons, H3, andb_true_l.
  destruct s as [|d s]; [done|].
  by destruct (Ascii.eqb ";" d).
Qed.

(** An ESC that starts no match starts none once the text behind it has
    been stripped. *)
Lemma unmatched_esc_stays s :
  intro_in_intro (String Js.ESC s) = false ->
  title_re (String Js.ESC s) = None ->
  title_re (String Js.ESC (strip_title s)) = None.
Proof.
  intros Hclear Hm. rewrite title_re_at_esc in Hm |- *.
  rewrite (lit_strip_title _ _ (clear_behind_esc _ Hclear)).
  destruct (Js.lit "]0;" s) as [r|]; [|done]. simpl.
  destruct (Js.index_of Js.BEL r) eqn:Hr; [done|].
  by rewrite (strip_title_without_bel _ Hr), Hr.
Qed.

Lemma strip_title_settled s : ∀ skip,
  intro_in_intro s = false ->
  strip_title (Js.replace_from title_re skip s) = Js.replace_from title_re skip s.
Proof.
  induction s as [|c s IH]; intros skip Hs; [reflexivity|].
  pose proof (intro_in_intro_tail _ _ Hs) as Hs'.
  destruct skip as [|skip]; simpl; [|by apply IH].
  destruct (title_re (String c s)) as [[|n]|] eqn:Hm.
  - by destruct (title_re_positive _ Hm).
  - by apply IH.
  - assert (title_re (String c (strip_title s)) = None) as Hkeep.
    { destruct (Ascii.eqb c Js.ESC) eqn:Hesc.
      - apply Ascii.eqb_eq in Hesc as ->. by apply unmatched_esc_stays.
      - by apply title_re_other_head. }
    unfold strip_title, Js.replace_all in Hkeep |- *. simpl. rewrite Hkeep.
    f_equal. by apply (IH 0).
Qed.

(** C10, as the claim states it, fails: on [title_in_title] the first strip
    removes the inner sequence and leaves [ESC ] 0 ; y BEL], which the second
    strip removes as well. *)
Lemma strip_title_not_idempotent :
  strip_title title_in_title = title_intro +:+ "y" +:+ String Js.BEL ""
  ∧ strip_title (strip_title title_in_title) = ""
  ∧ strip_title (strip_title title_in_title) <> strip_title title_in_title.
Proof. repeat split; vm_compute; congruence. Qed.

(** C10, amended: on every chunk in which no introducer [ESC ] 0 ;] stands
    directly behind the beginning of another one (behind [ESC], [ESC ]] or
    [ESC ] 0]), stripping the terminal-title sequences twice gives the same
    text as stripping them once. *)
Theorem strip_title_idempotent (data : string) :
  intro_in_intro data = false ->
  strip_title (strip_title data) = strip_title data.
Proof. intros H. by apply (strip_title_settled data 0). Qed.

Lemma strip_title_idempotent_witness :
  intro_in_intro titled_chunk = false
  ∧ strip_title titled_chunk = String Js.ESC "[32m" +:+ "ready" +:+ String Js.ESC "[0m"
  ∧ intro_in_intro title_in_title = true
  ∧ strip_title (strip_title titled_chunk) = strip_title titled_chunk.
Proof.
  split; [reflexivity|]. split; [reflexivity|]. split; [reflexivity|].
  apply (strip_title_idempotent titled_chunk). reflexivity.
Defined.

(** ** The port scan *)

Lemma set_add_NoDup ports port : NoDup ports -> NoDup (set_add ports port).
Proof.
  intros Hnd. unfold set_add. case_bool_decide; [done|].
  apply NoDup_app. split_and!; [done| |apply NoDup_singleton].
  intros x Hx ->%list_elem_of_singleton. done.
Qed.

Lemma elem_of_set_add ports port x : x ∈ set_add ports port ↔ x ∈ ports ∨ x = port.
Proof.
  unfold set_add. case_bool_decide as Hin.
  - split; [by left|]. intros [?| ->]; done.
  - rewrite elem_of_app, list_elem_of_singleton. done.
Qed.

Lemma scan_line_NoDup ports line : NoDup ports -> NoDup (scan_line ports line).
Proof.
  intros Hnd. unfold scan_line.
  destruct (match_port line); [|done].
  destruct (_ && _); [by apply set_add_NoDup|done].
Qed.

Lemma elem_of_scan_line ports line x :
  x ∈ scan_line ports line ↔ x ∈ ports ∨ (port_of_line line = Some x ∧ reportable x).
Proof.
  unfold scan_line, port_of_line, reportable.
  destruct (match_port line) as [digits|]; simpl.
  - destruct (_ && _) eqn:Hok.
    + rewrite elem_of_set_add.
      apply andb_true_iff in Hok as [[H1 H2]%andb_true_iff H3].
      apply N.ltb_lt in H1. apply negb_true_iff, N.eqb_neq in H2, H3.
      split; (intros [?| H]; [by left|right]).
      * by subst x.
      * destruct H as [[= ->] _]. done.
    + split; [by left|]. intros [?|[[= <-] (H1 & H2 & H3)]]; [done|].
      exfalso. apply N.ltb_lt in H1. apply N.eqb_neq in H2, H3.
      by rewrite H1, H2, H3 in Hok.
  - split; [by left|]. by intros [?|[? _]].
Qed.

Lemma scan_fold lines : ∀ ports,
  NoDup ports ->
  NoDup (fold_left scan_line lines ports)
  ∧ ∀ x, x ∈ fold_left scan_line lines ports
         ↔ x ∈ ports ∨ (x ∈ omap port_of_line lines ∧ reportable x).
Proof.
  induction lines as [|line lines IH]; intros ports Hnd; simpl.
  - split; [done|]. intros x. rewrite elem_of_nil. naive_solver.
  - destruct (IH _ (scan_line_NoDup ports line Hnd)) as [Hnd' Hin].
    split; [done|]. intros x. rewrite Hin, elem_of_scan_line.
    destruct (port_of_line line) as [port|] eqn:Hp; simpl.
    + rewrite elem_of_cons. naive_solver.
    + naive_solver.
Qed.

(** C8: the scan gives each parsed port above 1024 other than 3000 and 3001
    exactly once and no other port; output whose parsed ports are 80, 3000,
    3001 and 5173 gives the list of 5173 alone; the list is what the client
    is sent and what the promise resolves with; when the enumeration command
    fails the promise resolves with the empty list and nothing is emitted. *)
Theorem scanPorts_reports (socket : option Socket) (stdout : string) :
  NoDup (scan_stdout stdout)
  ∧ (∀ port, port ∈ scan_stdout stdout ↔ port ∈ parsed_ports stdout ∧ reportable port)
  ∧ ((∀ port, port ∈ parsed_ports stdout ↔ port ∈ [80; 3000; 3001; 5173]%N) ->
     scan_stdout stdout = [5173%N])
  ∧ scanPorts socket (Some stdout)
    = (match socket with
       | Some sk => [(sk, TerminalPorts (scan_stdout stdout))]
       | None => []
       end, scan_stdout stdout)
  ∧ scanPorts socket None = ([], []).
Proof.
  destruct (scan_fold (Js.split Js.LF stdout) [] (NoDup_nil_2)) as [Hnd Hin].
  fold (scan_stdout stdout) in Hnd, Hin. fold (parsed_ports stdout) in Hin.
  assert (∀ port, port ∈ scan_stdout stdout
                  ↔ port ∈ parsed_ports stdout ∧ reportable port) as Hiff.
  { intros port. rewrite Hin, elem_of_nil. naive_solver. }
  split_and!; try done.
  intros Hsample.
  assert (∀ port, port ∈ scan_stdout stdout ↔ port = 5173%N) as Honly.
  { intros port. rewrite Hiff, Hsample. unfold reportable.
    rewrite !elem_of_cons, elem_of_nil. split.
    - intros [[->|[->|[->|[->|[]]]]] (H1 & H2 & H3)]; try done; lia.
    - intros ->. split; [naive_solver|]. split_and!; lia. }
  destruct (scan_stdout stdout) as [|a l].
  - exfalso. by apply (elem_of_nil 5173%N), Honly.
  - assert (a = 5173%N) as -> by (apply Honly; left).
    destruct l as [|b l]; [done|].
    assert (b = 5173%N) as -> by (apply Honly; right; left).
    apply NoDup_cons in Hnd as [Hnotin _]. exfalso. apply Hnotin. left.
Qed.

(** A line of [ss -tlnp] carries the word LISTEN, not LISTENING: the line
    pattern reads no port from it. *)
Remark ss_line_gives_no_port :
  match_port "LISTEN 0      511          0.0.0.0:5173       0.0.0.0:*" = None.
Proof. reflexivity. Qed.

Lemma scanPorts_reports_witness :
  parsed_ports netstat_sample = [80; 5173; 3000; 3001; 5173]%N
  ∧ scan_stdout netstat_sample = [5173%N].
Proof.
  split; [reflexivity|].
  apply (scanPorts_reports None netstat_sample).
  intros port. vm_compute parsed_ports. rewrite !elem_of_cons, !elem_of_nil. naive_solver.
Defined.

(** ** Termination of a session *)

Lemma session_of_absent socketId w :
  sessions w !! socketId = None -> session_of socketId w = None.
Proof. intros H. unfold session_of. by rewrite H. Qed.

Lemma kill_absent socketId w : sessions w !! socketId = None -> kill socketId w = w.
Proof. intros H. unfold kill. by rewrite session_of_absent. Qed.

(** C9: [kill] on a registered session calls [kill] on the attached pty, if
    there is one, removes the session from the registry and emits nothing;
    a second [kill] of the same id changes nothing, and neither does [kill]
    of an id the registry does not hold. *)
Theorem kill_removes_once (socketId : SocketId) (w : World) :
  (∀ session, session_of socketId w = Some session ->
     sessions (kill socketId w) = delete socketId (sessions w)
     ∧ sessions (kill socketId w) !! socketId = None
     ∧ pty_ops (kill socketId w)
       = (pty_ops w ++ match pty session with
                       | Some p => [(p, PtyKill)]
                       | None => []
                       end)%list
     ∧ out (kill socketId w) = out w
     ∧ heap (kill socketId w) = heap w
     ∧ procs (kill socketId w) = procs w)
  ∧ kill socketId (kill socketId w) = kill socketId w
  ∧ (sessions w !! socketId = None -> kill socketId w = w).
Proof.
  split_and!.
  - intros session Hs. unfold kill. rewrite Hs.
    destruct (pty session); simpl; rewrite ?lookup_delete_eq, ?app_nil_r; done.
  - destruct (session_of socketId w) as [session|] eqn:Hs.
    + apply kill_absent. unfold kill. rewrite Hs.
      destruct (pty session); simpl; apply lookup_delete_eq.
    + assert (kill socketId w = w) as Hid by (unfold kill; by rewrite Hs).
      by rewrite !Hid.
  - apply kill_absent.
Qed.

(** ** Well-formed worlds *)

Lemma prefix_refl s : String.prefix s s = true.
Proof.
  induction s as [|c s IH]; [reflexivity|]. cbn [String.prefix].
  by destruct (ascii_dec c c).
Qed.

Lemma wf_empty : wf empty_world.
Proof.
  split; simpl.
  - intros ? ? H. by rewrite lookup_empty in H.
  - intros ? ? H. by rewrite lookup_nil in H.
  - intros ? H. by apply elem_of_nil in H.
  - intros ? ? ? H. by rewrite lookup_nil in H.
  - intros ? ? ? H. by rewrite lookup_empty in H.
  - intros ? [? H]. by rewrite lookup_empty in H.
Qed.

(** Only the registry, the store, the calls in flight and the process table
    matter. *)
Lemma wf_same w w' :
  sessions w' = sessions w -> heap w' = heap w -> accessing w' = accessing w ->
  procs w' = procs w -> spawned w' = spawned w ->
  wf w -> wf w'.
Proof.
  intros E1 E2 E3 E4 E5 [H1 H2 H3 H4 H5 H6].
  split; rewrite ?E1, ?E2, ?E3, ?E4, ?E5; assumption.
Qed.

Lemma wf_emit socket e w : wf w -> wf (emit socket e w).
Proof. by apply wf_same. Qed.

Lemma wf_pty_call p op w : wf w -> wf (pty_call p op w).
Proof. by apply wf_same. Qed.

Lemma wf_set_scans l w : wf w -> wf (set_scans l w).
Proof. by apply wf_same. Qed.

Lemma wf_set_out l w : wf w -> wf (set_out l w).
Proof. by apply wf_same. Qed.

(** The session object at [a] after an assignment at [a0]. *)
Lemma lookup_assign a0 f w a :
  heap (assign a0 f w) !! a
  = (if decide (a0 = a) then f else id) <$> heap w !! a.
Proof.
  simpl. case_decide as Ha.
  - subst a. apply list_lookup_alter_eq.
  - rewrite list_lookup_alter_ne by done. by destruct (heap w !! a).
Qed.

(** An assignment that keeps the project root, keeps the working directory
    inside it and attaches no process keeps a world well-formed, provided a
    session that loses its process loses it with the process table. *)
Lemma wf_assign a0 f w :
  (∀ s, projectRoot (f s) = projectRoot s) ->
  (∀ s, Js.startsWith (cwd s) (projectRoot s) = true ->
        heap w !! a0 = Some s ->
        Js.startsWith (cwd (f s)) (projectRoot s) = true) ->
  (∀ s, pty (f s) = pty s) ->
  wf w -> wf (assign a0 f w).
Proof.
  intros Hroot Hcwd Hpty [H1 H2 H3 H4 H5 H6].
  split; try done.
  - intros socketId a Ha. rewrite lookup_assign.
    destruct (H1 _ _ Ha) as [s ->]. by eexists.
  - intros a s'. rewrite lookup_assign.
    destruct (heap w !! a) as [s|] eqn:Hs; [|done]. intros [= <-].
    case_decide; simpl; [subst a|by eapply H2].
    rewrite Hroot. eauto.
  - intros cb Hcb. destruct (H3 _ Hcb) as (s & Hs & Hp).
    rewrite lookup_assign, Hs. eexists; split; [done|].
    case_decide; simpl; by rewrite ?Hroot.
  - intros a s' p. rewrite lookup_assign.
    destruct (heap w !! a) as [s|] eqn:Hs; [|done]. intros [= <-] Hp.
    apply (H4 a s p Hs). case_decide; simpl in Hp; by rewrite ?Hpty in Hp.
  - intros p a socket Hp. destruct (H5 _ _ _ Hp) as (s & Hs & Hps).
    rewrite lookup_assign, Hs. eexists; split; [done|].
    case_decide; simpl; by rewrite ?Hpty.
Qed.

Section Invariants.

Variable host : Host.

Lemma createSession_registered o socketId socket userId w a :
  sessions w !! socketId = Some a ->
  createSession host o socketId socket userId w = Some (a, w).
Proof. intros H. unfold createSession. by rewrite H. Qed.

(** What [createSession] gives for an id the registry does not hold. *)
Lemma createSession_fresh o socketId socket userId w a w' :
  sessions w !! socketId = None ->
  createSession host o socketId socket userId w = Some (a, w') ->
  let root := workspace_root host userId in
  a = length (heap w)
  ∧ sessions w' = <[socketId := a]> (sessions w)
  ∧ heap w' = heap w ++ [{| cwd := root; projectRoot := root; pty := None;
                           initialOutputReceived := false |}]
  ∧ procs w' = procs w ∧ spawned w' = spawned w
  ∧ accessing w' = accessing w ∧ scans w' = scans w ∧ pty_ops w' = pty_ops w
  ∧ out w' = out w ++ match socket with
                      | Some sk => [(sk, TerminalCwd "")]
                      | None => []
                      end.
Proof.
  intros Hnone. unfold createSession. rewrite Hnone.
  destruct (_ || _); [|done]. intros [= <- <-].
  destruct socket; simpl; rewrite ?app_nil_r; done.
Qed.

Lemma createSession_result o socketId socket userId w a w' :
  createSession host o socketId socket userId w = Some (a, w') ->
  sessions w' !! socketId = Some a.
Proof.
  destruct (sessions w !! socketId) as [a0|] eqn:Hs.
  - rewrite (createSession_registered _ _ _ _ _ _ Hs). by intros [= <- <-].
  - intros H. destruct (createSession_fresh _ _ _ _ _ _ _ Hs H) as (-> & -> & _).
    apply lookup_insert_eq.
Qed.

Lemma wf_createSession o socketId socket userId w a w' :
  createSession host o socketId socket userId w = Some (a, w') ->
  wf w -> wf w'.
Proof.
  destruct (sessions w !! socketId) as [a0|] eqn:Hs.
  - rewrite (createSession_registered _ _ _ _ _ _ Hs). by intros [= <- <-].
  - intros H [H1 H2 H3 H4 H5 H6].
    destruct (createSession_fresh _ _ _ _ _ _ _ Hs H)
      as (-> & E1 & E2 & E3 & E4 & E5 & _).
    split; rewrite ?E1, ?E2, ?E3, ?E4, ?E5; try done.
    + intros id a. rewrite lookup_insert. case_decide.
      * intros [= <-]. rewrite lookup_app_r, Nat.sub_diag by done. by eexists.
      * intros Ha. destruct (H1 _ _ Ha) as [s Hs'].
        exists s. by apply lookup_app_l_Some.
    + intros a s. rewrite lookup_app_Some. intros [Ha|[_ Ha]]; [by eapply H2|].
      apply list_lookup_singleton_Some in Ha as [_ <-]. simpl. apply prefix_refl.
    + intros cb Hcb. destruct (H3 _ Hcb) as (s & Ha & Hp).
      exists s. split; [by apply lookup_app_l_Some|done].
    + intros a s p. rewrite lookup_app_Some. intros [Ha|[_ Ha]]; [by eapply H4|].
      by apply list_lookup_singleton_Some in Ha as [_ <-].
    + intros p a sk Hp. destruct (H5 _ _ _ Hp) as (s & Ha & Hps).
      exists s. split; [by apply lookup_app_l_Some|done].
Qed.

Lemma wf_cd a session socket trimmedCmd w :
  heap w !! a = Some session ->
  wf w -> wf (cd host a session socket trimmedCmd w).
Proof.
  intros Hs Hwf. unfold cd.
  destruct (Js.startsWith _ _) eqn:Hin; simpl; [|by apply wf_emit].
  destruct Hwf as [H1 H2 H3 H4 H5 H6]. split; try done.
  simpl. intros cb [Hcb| ->%list_elem_of_singleton]%elem_of_app; [by apply H3|].
  exists session. done.
Qed.

Lemma wf_spawn o a session socket trimmedCmd w :
  heap w !! a = Some session -> pty session = None ->
  wf w -> wf (spawn host o a session socket trimmedCmd w).
Proof.
  intros Hs Hidle Hwf. unfold spawn.
  destruct (pty_spawn _ _ _ _); [|by apply wf_emit].
  apply wf_set_scans.
  assert (procs w !! spawned w = None) as Hfresh.
  { destruct (procs w !! spawned w) eqn:Hp; [|done].
    pose proof (wf_fresh _ Hwf (spawned w) (mk_is_Some _ _ Hp)). lia. }
  assert (∀ a', alter (set_initialOutputReceived false) a
                  (alter (set_pty (Some (spawned w))) a (heap w)) !! a'
                = (if decide (a = a')
                   then λ s, set_initialOutputReceived false (set_pty (Some (spawned w)) s)
                   else id) <$> heap w !! a') as Hheap.
  { intros a'. case_decide.
    - subst a'. rewrite !list_lookup_alter_eq. by destruct (heap w !! a).
    - rewrite !list_lookup_alter_ne by done. by destruct (heap w !! a'). }
  destruct Hwf as [H1 H2 H3 H4 H5 H6]. split; simpl.
  - intros id a' Ha. rewrite Hheap. destruct (H1 _ _ Ha) as [s ->]. by eexists.
  - intros a' s'. rewrite Hheap.
    destruct (heap w !! a') as [s|] eqn:Hs'; [|done]. intros [= <-].
    case_decide; simpl; by eapply H2.
  - intros cb Hcb. destruct (H3 _ Hcb) as (s & Hs' & Hp).
    rewrite Hheap, Hs'. eexists; split; [done|]. by case_decide.
  - intros a' s' p. rewrite Hheap.
    destruct (heap w !! a') as [s|] eqn:Hs'; [|done]. intros [= <-].
    case_decide as Ha; simpl.
    + intros [= <-]. subst a'. exists socket. apply lookup_insert_eq.
    + intros Hp. destruct (H4 _ _ _ Hs' Hp) as [sk Hsk]. exists sk.
      rewrite lookup_insert_ne; [done|]. intros <-. congruence.
  - intros p a' sk. rewrite lookup_insert. case_decide as Hp.
    + intros [= <- <-]. subst p. rewrite Hheap, Hs. simpl.
      eexists; split; [done|]. by rewrite decide_True.
    + intros Hp'. destruct (H5 _ _ _ Hp') as (s & Hs' & Hps).
      rewrite Hheap, Hs'. eexists; split; [done|].
      case_decide; [|done]. subst a'. congruence.
  - intros p. rewrite lookup_insert. case_decide; [lia|].
    intros Hp. specialize (H6 _ Hp). lia.
Qed.

Lemma wf_smart_interceptor o session socket trimmedCmd w :
  wf w -> wf (smart_interceptor host o session socket trimmedCmd w).2.
Proof.
  intros Hwf. unfold smart_interceptor.
  destruct (String.eqb _ _); [|done].
  destruct (existsSync _ _); [|done].
  destruct (_ ≫= _) as [[|]|]; simpl; [by apply wf_emit|done|done].
Qed.

Lemma smart_interceptor_heap o session socket trimmedCmd w :
  heap (smart_interceptor host o session socket trimmedCmd w).2 = heap w.
Proof.
  unfold smart_interceptor.
  destruct (String.eqb _ _); [|done].
  destruct (existsSync _ _); [|done].
  by destruct (_ ≫= _) as [[|]|].
Qed.

(** [execute] for a session without a process. *)
Lemma wf_execute o socketId command socket w w' :
  (∀ a session, sessions w !! socketId = Some a ->
                heap w !! a = Some session -> pty session = None) ->
  execute host o socketId command socket w = Some w' ->
  wf w -> wf w'.
Proof.
  intros Hidle Hex Hwf. unfold execute in Hex.
  destruct (createSession host o socketId (Some socket) None w)
    as [[a w1]|] eqn:Hcs; [|done]. simpl in Hex.
  pose proof (wf_createSession _ _ _ _ _ _ _ Hcs Hwf) as Hwf1.
  destruct (heap w1 !! a) as [session|] eqn:Hs; [|done]. simpl in Hex.
  assert (pty session = None) as Hnone.
  { destruct (sessions w !! socketId) as [a0|] eqn:Hreg.
    - rewrite (createSession_registered _ _ _ _ _ _ Hreg) in Hcs.
      injection Hcs as <- <-. by eapply Hidle.
    - destruct (createSession_fresh _ _ _ _ _ _ _ Hreg Hcs) as (-> & _ & E & _).
      rewrite E, lookup_app_r, Nat.sub_diag in Hs by done. by injection Hs as <-. }
  destruct (negb _); [by injection Hex as <-|].
  pose proof (wf_smart_interceptor o session socket
                (resolve_alias (Js.trim command)) w1 Hwf1) as Hwf2.
  pose proof (smart_interceptor_heap o session socket
                (resolve_alias (Js.trim command)) w1) as Hheap.
  destruct (smart_interceptor _ _ _ _ _ _) as [cmd w2]. simpl in *.
  rewrite <-Hheap in Hs.
  destruct (is_cd cmd); [injection Hex as <-; by apply wf_cd|].
  destruct (_ || _); injection Hex as <-; [by apply wf_emit|by apply wf_spawn].
Qed.

Lemma wf_write socketId data w : wf w -> wf (write socketId data w).
Proof. intros. unfold write. destruct (_ ≫= _); [by apply wf_pty_call|done]. Qed.

Lemma wf_resize socketId cols rows w : wf w -> wf (resize socketId cols rows w).
Proof. intros. unfold resize. destruct (_ ≫= _); [by apply wf_pty_call|done]. Qed.

Lemma wf_handleInput o socketId data socket w w' :
  handleInput host o socketId data socket w = Some w' ->
  wf w -> wf w'.
Proof.
  intros Hin Hwf. unfold handleInput in Hin.
  destruct (createSession host o socketId (Some socket) None w)
    as [[a w1]|] eqn:Hcs; [|done]. simpl in Hin.
  pose proof (wf_createSession _ _ _ _ _ _ _ Hcs Hwf) as Hwf1.
  pose proof (createSession_result _ _ _ _ _ _ _ Hcs) as Hreg.
  destruct (heap w1 !! a) as [session|] eqn:Hs; [|done]. simpl in Hin.
  destruct (pty session) eqn:Hp.
  - injection Hin as <-. by apply wf_write.
  - eapply wf_execute; [|done..].
    intros a' session'. rewrite Hreg. intros [= <-]. rewrite Hs. by intros [= <-].
Qed.

Lemma wf_kill socketId w : wf w -> wf (kill socketId w).
Proof.
  intros Hwf. unfold kill. destruct (session_of socketId w); [|done].
  assert (∀ w0, wf w0 -> wf (set_sessions (delete socketId (sessions w0)) w0)) as Hdel.
  { intros w0 [H1 H2 H3 H4 H5 H6]. split; try done.
    simpl. intros id a [_ Ha]%lookup_delete_Some. by eapply H1. }
  destruct (pty s); apply Hdel; [by apply wf_pty_call|done].
Qed.

Lemma wf_access_done i err w : wf w -> wf (access_done host i err w).
Proof.
  intros Hwf. unfold access_done.
  destruct (accessing w !! i) as [cb|] eqn:Hcb; [|done].
  assert (wf (set_accessing (delete i (accessing w)) w)) as Hwf1.
  { destruct Hwf as [H1 H2 H3 H4 H5 H6]. split; try done.
    simpl. intros cb' Hcb'. apply H3. by eapply list_elem_of_delete_inv. }
  destruct err; [by apply wf_emit|]. simpl.
  destruct (heap w !! acc_session cb) as [session|] eqn:Hs; [|done].
  apply wf_emit, wf_assign; try done.
  intros s _ Hs'. simpl in Hs'. simpl.
  destruct (wf_accessing _ Hwf cb) as (s' & Hs'' & Hin).
  { by eapply list_elem_of_lookup_2. }
  congruence.
Qed.

Lemma wf_pty_data p data w : wf w -> wf (pty_data p data w).
Proof.
  intros Hwf. unfold pty_data.
  destruct (procs w !! p) as [[a socket]|]; [|done].
  destruct (heap w !! a) as [session|]; [|done].
  destruct (filterOutput _ _) as [cleaned flag].
  assert (wf (assign a (set_initialOutputReceived flag) w)) as Hwf1.
  { by apply wf_assign. }
  destruct (Js.truthy cleaned); [by apply wf_emit|done].
Qed.

Lemma wf_pty_exit p w : wf w -> wf (pty_exit p w).
Proof.
  intros Hwf. unfold pty_exit.
  destruct (procs w !! p) as [[a socket]|] eqn:Hp; [|done].
  destruct Hwf as [H1 H2 H3 H4 H5 H6].
  destruct (H5 _ _ _ Hp) as (session & Hs & Hps).
  pose proof (lookup_assign a (set_pty None) w) as Hheap. simpl in Hheap.
  split; simpl.
  - intros id a' Ha. destruct (H1 _ _ Ha) as [s Hs'].
    rewrite Hheap, Hs'. by eexists.
  - intros a' s'. rewrite Hheap.
    destruct (heap w !! a') as [s|] eqn:Hs'; [|done]. intros [= <-].
    case_decide; simpl; by eapply H2.
  - intros cb Hcb. destruct (H3 _ Hcb) as (s & Hs' & Hin).
    rewrite Hheap, Hs'. eexists; split; [done|]. by case_decide.
  - intros a' s' p'. rewrite Hheap.
    destruct (heap w !! a') as [s|] eqn:Hs'; [|done]. intros [= <-].
    case_decide as Ha; simpl; [done|].
    intros Hp'. destruct (H4 _ _ _ Hs' Hp') as [sk Hsk].
    exists sk. rewrite lookup_delete_ne; [done|]. intros <-. congruence.
  - intros p' a' sk [Hne Hp']%lookup_delete_Some.
    destruct (H5 _ _ _ Hp') as (s & Hs' & Hps').
    rewrite Hheap, Hs'. eexists; split; [done|].
    case_decide; [|done]. subst a'. congruence.
  - intros p' [x [_ Hx]%lookup_delete_Some]. by apply H6.
Qed.

Lemma wf_scan_done i result w : wf w -> wf (scan_done i result w).
Proof.
  intros Hwf. unfold scan_done. destruct (scans w !! i); [|done].
  by apply wf_set_out, wf_set_scans.
Qed.

Lemma wf_step w oe : wf w -> wf (step host w oe).
Proof.
  intros Hwf. destruct oe as [o [id sk uid|id data sk|id c r|id|i err|p data|p|i res]];
    simpl.
  - destruct (createSession _ _ _ _ _ _) as [[a w']|] eqn:Hcs; [|done].
    by eapply wf_createSession.
  - destruct (handleInput _ _ _ _ _ _) as [w'|] eqn:Hin; [|done].
    by eapply wf_handleInput.
  - by apply wf_resize.
  - by apply wf_kill.
  - by apply wf_access_done.
  - by apply wf_pty_data.
  - by apply wf_pty_exit.
  - by apply wf_scan_done.
Qed.

Lemma wf_run trace : ∀ w, wf w -> wf (run host trace w).
Proof.
  induction trace as [|oe trace IH]; intros w Hwf; [done|].
  apply IH. by apply wf_step.
Qed.

Lemma wf_reachable w : reachable host w -> wf w.
Proof. intros [trace ->]. apply wf_run, wf_empty. Qed.

End Invariants.

(** ** Relative paths on the POSIX host *)

Lemma split_segment_head c s seg :
  seg ∈ Js.split c s -> String.prefix (String c "") seg = false.
Proof.
  revert seg; induction s as [|d s IH]; intros seg; simpl.
  - by intros ->%list_elem_of_singleton.
  - destruct (Ascii.eqb_spec d c) as [->|Hne].
    + intros [->|Hin]%elem_of_cons; [done|by apply IH].
    + destruct (Js.split c s) as [|w ws].
      * intros ->%list_elem_of_singleton. cbn [String.prefix].
        by destruct (ascii_dec c d) as [->|].
      * intros [->|Hin]%elem_of_cons; [|apply IH; by right].
        cbn [String.prefix]. by destruct (ascii_dec c d) as [->|].
Qed.

Lemma drop_common_down xs : ∀ ys x, x ∈ (Posix.drop_common xs ys).2 -> x ∈ ys.
Proof.
  induction xs as [|a xs IH]; intros [|b ys] x; simpl; try done.
  destruct (String.eqb a b); [|done]. intros Hx. right. by apply IH.
Qed.

Lemma join_keeps_head sep l :
  (∀ x, x ∈ l -> x ≠ "" ∧ String.prefix "/" x = false) ->
  String.prefix "/" (Js.join sep l) = false.
Proof.
  destruct l as [|x [|y l]]; intros Hl; [done|apply Hl; by left|].
  destruct (Hl x) as [Hne Hhead]; [by left|].
  destruct x as [|c x]; [done|].
  change (Js.join sep (String c x :: y :: l))
    with (String c (x +:+ sep +:+ Js.join sep (y :: l))).
  cbn [String.prefix] in Hhead |- *.
  destruct (ascii_dec "/" c); [|done]. by destruct x.
Qed.

(** [path.relative] never gives an absolute path. *)
Lemma posix_relative_is_relative process_cwd from to :
  Posix.isAbsolute (Posix.relative process_cwd from to) = false.
Proof.
  unfold Posix.relative, Posix.isAbsolute, Js.startsWith.
  destruct (String.eqb from to); [done|].
  destruct (String.eqb _ _); [done|].
  destruct (Posix.drop_common _ _) as [up down] eqn:Hdrop.
  apply join_keeps_head. intros x [Hx|Hx]%elem_of_app.
  - apply elem_of_replicate in Hx as [-> _]. done.
  - assert (x ∈ (Posix.drop_common
                   (filter (λ seg, Js.truthy seg = true)
                      (Posix.segments (Posix.resolve process_cwd from "")))
                   (filter (λ seg, Js.truthy seg = true)
                      (Posix.segments (Posix.resolve process_cwd to "")))).2) as Hin
      by by rewrite Hdrop.
    apply drop_common_down, list_elem_of_filter in Hin as [Htruthy Hseg].
    split; [by intros ->|]. by eapply split_segment_head.
Qed.

(** ** The command interpreter *)

Lemma prefix_app p r : String.prefix p (p +:+ r) = true.
Proof.
  induction p as [|c p IH]; [by destruct r|].
  change (String c p +:+ r) with (String c (p +:+ r)). cbn [String.prefix].
  by destruct (ascii_dec c c).
Qed.

Lemma split_cd t : is_cd t = true -> ∃ rest, Js.split Js.SPACE t = "cd" :: rest.
Proof.
  unfold is_cd, Js.startsWith. intros [H|H]%orb_true_iff.
  - apply prefix_split in H as [r ->]. exists (Js.split Js.SPACE r).
    change ("cd " +:+ r) with (String "c" (String "d" (String " " r))).
    by cbn.
  - apply String.eqb_eq in H as ->. by exists [].
Qed.

Lemma resolve_alias_cd t : is_cd t = true -> resolve_alias t = t.
Proof. intros H. unfold resolve_alias. by destruct (split_cd t H) as [rest ->]. Qed.

Lemma cd_is_not_npm_start t : is_cd t = true -> String.eqb t "npm start" = false.
Proof.
  unfold is_cd, Js.startsWith. intros [H|H]%orb_true_iff.
  - by apply prefix_split in H as [r ->].
  - by apply String.eqb_eq in H as ->.
Qed.

Lemma cd_is_not_empty t : is_cd t = true -> Js.truthy t = true.
Proof.
  unfold is_cd, Js.startsWith. intros [H|H]%orb_true_iff.
  - by apply prefix_split in H as [r ->].
  - by apply String.eqb_eq in H as ->.
Qed.

(** [set_accessing] with the calls the world already has is no change. *)
Lemma set_accessing_same w : set_accessing (accessing w) w = w.
Proof. by destruct w. Qed.

Section Interpreter.

Variable host : Host.

Lemma enters_registered o socketId socket w a session :
  sessions w !! socketId = Some a -> heap w !! a = Some session ->
  enters host o socketId socket w a session w.
Proof. intros H1 H2. split; [by apply createSession_registered|done]. Qed.

Lemma enters_again o socketId socket w a session w1 :
  enters host o socketId socket w a session w1 ->
  enters host o socketId socket w1 a session w1.
Proof.
  intros [Hcs Hs]. apply enters_registered; [|done].
  by eapply createSession_result.
Qed.

(** The built-in [cd]. *)
Lemma execute_cd o socketId socket command w a session w1 :
  enters host o socketId socket w a session w1 ->
  is_cd (Js.trim command) = true ->
  execute host o socketId command socket w
  = Some (cd host a session socket (Js.trim command) w1).
Proof.
  intros [Hcs Hs] Hcd. unfold execute. rewrite Hcs. simpl. rewrite Hs. simpl.
  rewrite (cd_is_not_empty _ Hcd). simpl. rewrite (resolve_alias_cd _ Hcd).
  unfold smart_interceptor. rewrite (cd_is_not_npm_start _ Hcd). by rewrite Hcd.
Qed.

(** Dispatch to a session without a process is [execute]. *)
Lemma handleInput_idle o socketId socket data w :
  session_of socketId w ≫= pty = None ->
  handleInput host o socketId data socket w = execute host o socketId data socket w.
Proof.
  intros Hidle. unfold handleInput.
  destruct (createSession host o socketId (Some socket) None w)
    as [[a w1]|] eqn:Hcs; [|unfold execute; by rewrite Hcs].
  simpl. destruct (heap w1 !! a) as [session|] eqn:Hs;
    [|unfold execute; rewrite Hcs; simpl; by rewrite Hs].
  simpl.
  assert (pty session = None) as ->.
  { destruct (sessions w !! socketId) as [a0|] eqn:Hreg.
    - rewrite (createSession_registered _ _ _ _ _ _ _ Hreg) in Hcs.
      injection Hcs as <- <-. unfold session_of in Hidle.
      rewrite Hreg in Hidle. simpl in Hidle. by rewrite Hs in Hidle.
    - destruct (createSession_fresh _ _ _ _ _ _ _ _ Hreg Hcs) as (-> & _ & E & _).
      rewrite E, lookup_app_r, Nat.sub_diag in Hs by done. by injection Hs as <-. }
  unfold execute at 2. rewrite Hcs. simpl. rewrite Hs. simpl.
  unfold execute.
  rewrite (createSession_registered _ _ _ _ _ _ _ (createSession_result _ _ _ _ _ _ _ _ Hcs)).
  simpl. by rewrite Hs.
Qed.

(** A [cd] out of the sandbox. *)
Lemma cd_denied o socketId socket command w a session w1 :
  enters host o socketId socket w a session w1 ->
  is_cd (Js.trim command) = true ->
  Js.startsWith
    (path_resolve host (cwd session) (cd_target host (Js.trim command)))
    (projectRoot session) = false ->
  execute host o socketId command socket w
  = Some (emit socket (Output access_denied) w1)
  ∧ (pty session = None ->
     handleInput host o socketId command socket w
     = Some (emit socket (Output access_denied) w1)).
Proof.
  intros Hent Hcd Hout.
  assert (execute host o socketId command socket w
          = Some (emit socket (Output access_denied) w1)) as Hex.
  { rewrite (execute_cd _ _ _ _ _ _ _ _ Hent Hcd). unfold cd. by rewrite Hout. }
  split; [done|]. intros Hidle.
  destruct Hent as [Hcs Hs].
  unfold handleInput. rewrite Hcs. simpl. rewrite Hs. simpl. rewrite Hidle.
  rewrite <-Hex. unfold execute.
  rewrite Hcs, (createSession_registered _ _ _ _ _ _ _ (createSession_result _ _ _ _ _ _ _ _ Hcs)).
  done.
Qed.

(** C1: in every world the service can reach, the working directory of every
    session object starts with the project root of that session; and a [cd]
    whose resolved target does not start with the project root emits the
    access-denied notice and changes nothing else: no working directory, and
    no call is left in flight that could change one later. *)
Theorem cwd_stays_under_projectRoot :
  (∀ w, reachable host w ->
     ∀ a session, heap w !! a = Some session ->
       Js.startsWith (cwd session) (projectRoot session) = true)
  ∧ (∀ o socketId socket command w a session w1,
       enters host o socketId socket w a session w1 ->
       is_cd (Js.trim command) = true ->
       Js.startsWith
         (path_resolve host (cwd session) (cd_target host (Js.trim command)))
         (projectRoot session) = false ->
       execute host o socketId command socket w
       = Some (emit socket (Output access_denied) w1)
       ∧ (pty session = None ->
          handleInput host o socketId command socket w
          = Some (emit socket (Output access_denied) w1))).
Proof.
  split.
  - intros w Hw a session Hs. by eapply wf_cwd; [apply (wf_reachable host)|].
  - intros o socketId socket command w a session w1 Hent Hcd Hout.
    by apply (cd_denied _ _ _ _ _ a session).
Qed.

(** C4: a [cd] whose resolved target passes the sandbox check emits nothing,
    spawns nothing and leaves the working directory as it is while the
    [fs.access] call is in flight. When the call reports an error, the
    no-such-directory notice for the target is emitted and no session
    changes; when it reports success, the working directory of the session
    becomes the resolved path and the client is sent [terminal:cwd] with
    [path.relative(projectRoot, newPath)], which on the POSIX host is never
    an absolute path. This holds when the callback runs next, and in any
    later world that still has the call in flight. *)
Theorem cd_checks_the_directory o socketId socket command w a session w1 :
  enters host o socketId socket w a session w1 ->
  is_cd (Js.trim command) = true ->
  let call := access_call host a session socket (Js.trim command) in
  Js.startsWith (acc_newPath call) (projectRoot session) = true ->
  let w2 := set_accessing (accessing w1 ++ [call]) w1 in
  execute host o socketId command socket w = Some w2
  ∧ access_done host (length (accessing w1)) true w2
    = emit socket (Output (no_such_directory (acc_targetDir call))) w1
  ∧ access_done host (length (accessing w1)) false w2
    = emit socket
        (TerminalCwd (path_relative host (projectRoot session) (acc_newPath call)))
        (assign a (set_cwd (acc_newPath call)) w1)
  ∧ (∀ w' i session',
       accessing w' !! i = Some call -> heap w' !! a = Some session' ->
       heap (access_done host i true w') = heap w'
       ∧ out (access_done host i true w')
         = out w' ++ [(socket, Output (no_such_directory (acc_targetDir call)))]
       ∧ heap (access_done host i false w')
         = <[a := set_cwd (acc_newPath call) session']> (heap w')
       ∧ out (access_done host i false w')
         = out w' ++ [(socket, TerminalCwd
                         (path_relative host (projectRoot session') (acc_newPath call)))]
       ∧ spawned (access_done host i false w') = spawned w'
       ∧ procs (access_done host i false w') = procs w')
  ∧ (∀ process_cwd from to,
       Posix.isAbsolute (Posix.relative process_cwd from to) = false).
Proof.
  intros Hent Hcd call Hin w2.
  assert (accessing w2 !! length (accessing w1) = Some call) as Hcall.
  { simpl. by rewrite lookup_app_r, Nat.sub_diag. }
  assert (delete (length (accessing w1)) (accessing w1 ++ [call]) = accessing w1) as Hdel.
  { rewrite delete_take_drop, take_app_length, drop_ge, app_nil_r; [done|].
    rewrite length_app. simpl. lia. }
  assert (set_accessing (delete (length (accessing w1)) (accessing w2)) w2 = w1)
    as Hback.
  { subst w2. simpl. rewrite Hdel. by destruct w1. }
  split_and!.
  - rewrite (execute_cd _ _ _ _ _ _ _ _ Hent Hcd). unfold cd.
    unfold call, access_call in Hin. simpl in Hin. by rewrite Hin.
  - unfold access_done. rewrite Hcall. cbv beta iota zeta. by rewrite Hback.
  - destruct Hent as [_ Hs].
    unfold access_done. rewrite Hcall. cbv beta iota zeta. rewrite Hback.
    change (acc_session call) with a. by rewrite Hs.
  - intros w' i session' Hi Hs'. unfold access_done. rewrite Hi. simpl.
    rewrite Hs'. simpl. split_and!; try done.
    apply list_eq. intros j. destruct (decide (a = j)) as [<-|Hne].
    + rewrite list_lookup_alter_eq, list_lookup_insert_eq, Hs'; [done|].
      by eapply lookup_lt_Some.
    + by rewrite list_lookup_alter_ne, list_lookup_insert_ne.
  - apply posix_relative_is_relative.
Qed.

(** C6: when the home directory, read as [cd] reads every target, does not
    resolve to a path that starts with the project root, every input that is
    [cd] after trimming is answered with the access-denied notice and
    changes nothing else. *)
Theorem bare_cd_is_denied o socketId socket command w a session w1 :
  enters host o socketId socket w a session w1 ->
  Js.trim command = "cd" ->
  Js.startsWith (path_resolve host (cwd session) (unquote (homedir host)))
                (projectRoot session) = false ->
  cd_target host (Js.trim command) = unquote (homedir host)
  ∧ execute host o socketId command socket w
    = Some (emit socket (Output access_denied) w1)
  ∧ (pty session = None ->
     handleInput host o socketId command socket w
     = Some (emit socket (Output access_denied) w1)).
Proof.
  intros Hent Hcmd Hout.
  assert (cd_target host (Js.trim command) = unquote (homedir host)) as Htarget
    by by rewrite Hcmd.
  split; [done|].
  apply (cd_denied _ _ _ _ _ a session); [done|by rewrite Hcmd|by rewrite Htarget].
Qed.

(** *** The smart interceptor *)

(** A script whose command is the empty string counts as not declared. *)
Remark empty_script_is_not_declared :
  declares "start"
    (JObject [("scripts", JObject [("start", JString ""); ("dev", JString "vite")])])
  = false.
Proof. reflexivity. Qed.

Lemma only_dev_declares pkg :
  only_dev pkg = Some true ↔ declares "dev" pkg = true ∧ declares "start" pkg = false.
Proof.
  unfold declares.
  destruct pkg as [|b|n|t|items|members]; try (simpl; intuition congruence).
  unfold only_dev. destruct (member "scripts" (JObject members)) as [v|]; simpl.
  - destruct v as [|b|n|t|items|fields].
    1-5: change (truthy (member "dev" _)) with false;
         rewrite andb_false_r; intuition congruence.
    change (Some (true && negb (truthy (member "start" (JObject fields)))
                  && truthy (member "dev" (JObject fields))) = Some true
            ↔ truthy (member "dev" (JObject fields)) = true
              ∧ truthy (member "start" (JObject fields)) = false).
    generalize (truthy (member "start" (JObject fields)))
               (truthy (member "dev" (JObject fields))).
    intros [] []; simpl; intuition congruence.
  - intuition congruence.
Qed.

Lemma failed_is_not_redirect message : failed_to_execute message ≠ redirect_notice.
Proof.
  intros H.
  apply (f_equal (λ t, match t with String c _ => c | EmptyString => Js.SPACE end)) in H.
  cbv in H. discriminate.
Qed.

(** [npm start] goes to the shell, as it is or as [npm run dev]. *)
Lemma execute_npm_start o socketId socket command w a session w1 :
  enters host o socketId socket w a session w1 ->
  resolve_alias (Js.trim command) = "npm start" ->
  execute host o socketId command socket w
  = Some match read_manifest host o (path_join host [cwd session; "package.json"])
                 ≫= only_dev with
         | Some true =>
             spawn host o a session socket "npm run dev"
                   (emit socket (Output redirect_notice) w1)
         | _ => spawn host o a session socket "npm start" w1
         end.
Proof.
  intros [Hcs Hs] Hcmd.
  assert (Js.truthy (Js.trim command) = true) as Ht.
  { destruct (Js.trim command); [discriminate Hcmd|done]. }
  unfold execute. rewrite Hcs. simpl. rewrite Hs. simpl. rewrite Ht, Hcmd. simpl.
  unfold smart_interceptor, read_manifest.
  change (String.eqb "npm start" "npm start") with true. cbv beta iota.
  destruct (existsSync o _); [|done].
  destruct (readFileSync o _) as [text|]; [|done]. simpl.
  destruct (JSON_parse host text) as [pkg|]; [|done]. simpl.
  by destruct (only_dev pkg) as [[|]|].
Qed.

(** C7: for an input that is [npm start] after trimming and alias resolution:
    when the manifest at the working directory parses and declares [dev] but
    not [start], the command spawned is [npm run dev] and the redirect notice
    is emitted once, before the event of the spawn; when the manifest
    declares [start] (with or without [dev]) or does not declare [dev], and
    when there is no manifest or it cannot be read or parsed, [npm start] is
    spawned and nothing else is emitted. *)
Theorem npm_start_runs_dev o socketId socket command w a session w1 :
  enters host o socketId socket w a session w1 ->
  resolve_alias (Js.trim command) = "npm start" ->
  let manifest := read_manifest host o (path_join host [cwd session; "package.json"]) in
  let unmodified := Some (spawn host o a session socket "npm start" w1) in
  (∀ pkg, manifest = Some pkg ->
     declares "dev" pkg = true -> declares "start" pkg = false ->
     let w2 := spawn host o a session socket "npm run dev"
                     (emit socket (Output redirect_notice) w1) in
     execute host o socketId command socket w = Some w2
     ∧ ∃ e, out w2 = out w1 ++ [(socket, Output redirect_notice); (socket, e)]
            ∧ e ≠ Output redirect_notice)
  ∧ (∀ pkg, manifest = Some pkg -> declares "start" pkg = true ->
       execute host o socketId command socket w = unmodified)
  ∧ (∀ pkg, manifest = Some pkg -> declares "dev" pkg = false ->
       execute host o socketId command socket w = unmodified)
  ∧ (manifest = None ->
       execute host o socketId command socket w = unmodified).
Proof.
  intros Hent Hcmd manifest unmodified.
  pose proof (execute_npm_start _ _ _ _ _ _ _ _ Hent Hcmd) as Hex.
  fold manifest in Hex.
  assert (∀ pkg, manifest = Some pkg -> only_dev pkg ≠ Some true ->
            execute host o socketId command socket w = unmodified) as Hkeep.
  { intros pkg Hm Hno. rewrite Hex, Hm. simpl.
    destruct (only_dev pkg) as [[|]|]; done. }
  split_and!.
  - intros pkg Hm Hdev Hstart w2. split.
    + rewrite Hex, Hm. simpl.
      by rewrite (proj2 (only_dev_declares pkg) (conj Hdev Hstart)).
    + subst w2. unfold spawn. destruct (pty_spawn _ _ _ _) as [|message]; simpl.
      * exists (TerminalStatus true). by rewrite <-app_assoc.
      * exists (Output (failed_to_execute message)). rewrite <-app_assoc.
        split; [done|]. intros H. apply (failed_is_not_redirect message). congruence.
  - intros pkg Hm Hstart. apply (Hkeep pkg Hm).
    intros [_ H]%only_dev_declares. congruence.
  - intros pkg Hm Hdev. apply (Hkeep pkg Hm).
    intros [H _]%only_dev_declares. congruence.
  - intros Hm. by rewrite Hex, Hm.
Qed.

End Interpreter.

(** ** Project roots are fixed at creation *)

Lemma roots_kept_refl h : roots_kept h h.
Proof. intros a s Hs. by exists s. Qed.

Lemma roots_kept_trans h1 h2 h3 :
  roots_kept h1 h2 -> roots_kept h2 h3 -> roots_kept h1 h3.
Proof.
  intros H12 H23 a s Hs.
  destruct (H12 _ _ Hs) as (s2 & Hs2 & E2).
  destruct (H23 _ _ Hs2) as (s3 & Hs3 & E3).
  exists s3. split; [done|congruence].
Qed.

Lemma roots_kept_alter f a h :
  (∀ s, projectRoot (f s) = projectRoot s) -> roots_kept h (alter f a h).
Proof.
  intros Hf a' s Hs. destruct (decide (a = a')) as [<-|Hne].
  - exists (f s). by rewrite list_lookup_alter_eq, Hs.
  - exists s. by rewrite list_lookup_alter_ne.
Qed.

Lemma roots_kept_app h l : roots_kept h (h ++ l).
Proof. intros a s Hs. exists s. split; [by apply lookup_app_l_Some|done]. Qed.

Create HintDb roots discriminated.
#[local] Hint Resolve roots_kept_refl roots_kept_app : roots.
#[local] Hint Extern 2 (roots_kept _ (alter _ _ _)) =>
  (eapply roots_kept_trans; [|by apply roots_kept_alter]) : roots.

Section Roots.

Variable host : Host.

Lemma roots_createSession o socketId socket userId w a w' :
  createSession host o socketId socket userId w = Some (a, w') ->
  roots_kept (heap w) (heap w').
Proof.
  destruct (sessions w !! socketId) as [a0|] eqn:Hs.
  - rewrite (createSession_registered _ _ _ _ _ _ _ Hs). intros [= <- <-].
    auto with roots.
  - intros H. destruct (createSession_fresh _ _ _ _ _ _ _ _ Hs H) as (_ & _ & -> & _).
    auto with roots.
Qed.

Lemma roots_execute o socketId command socket w w' :
  execute host o socketId command socket w = Some w' ->
  roots_kept (heap w) (heap w').
Proof.
  unfold execute. intros Hex.
  destruct (createSession host o socketId (Some socket) None w)
    as [[a w1]|] eqn:Hcs; [|done]. simpl in Hex.
  eapply roots_kept_trans; [by eapply roots_createSession|].
  destruct (heap w1 !! a) as [session|]; [|done]. simpl in Hex.
  destruct (negb _); [injection Hex as <-; auto with roots|].
  pose proof (smart_interceptor_heap host o session socket
                (resolve_alias (Js.trim command)) w1) as Hheap.
  destruct (smart_interceptor _ _ _ _ _ _) as [cmd w2]. simpl in Hheap.
  rewrite <-Hheap.
  destruct (is_cd cmd).
  { injection Hex as <-. unfold cd. destruct (negb _); simpl; auto with roots. }
  destruct (_ || _); injection Hex as <-; simpl; [auto with roots|].
  unfold spawn. destruct (pty_spawn _ _ _ _); simpl; auto with roots.
Qed.

Lemma roots_step w oe : roots_kept (heap w) (heap (step host w oe)).
Proof.
  destruct oe as [o [id sk uid|id data sk|id c r|id|i err|p data|p|i res]]; simpl.
  - destruct (createSession _ _ _ _ _ _) as [[a w']|] eqn:Hcs; simpl;
      [by eapply roots_createSession|auto with roots].
  - destruct (handleInput _ _ _ _ _ _) as [w'|] eqn:Hin; simpl; [|auto with roots].
    unfold handleInput in Hin.
    destruct (createSession host o id (Some sk) None w)
      as [[a w1]|] eqn:Hcs; [|done]. simpl in Hin.
    eapply roots_kept_trans; [by eapply roots_createSession|].
    destruct (heap w1 !! a) as [session|]; [|done]. simpl in Hin.
    destruct (pty session); [|by eapply roots_execute].
    injection Hin as <-. unfold write. destruct (_ ≫= _); simpl; auto with roots.
  - unfold resize. destruct (_ ≫= _); simpl; auto with roots.
  - unfold kill. destruct (session_of id w) as [s|]; [|auto with roots].
    destruct (pty s); simpl; auto with roots.
  - unfold access_done. destruct (accessing w !! i); [|auto with roots].
    destruct err; simpl; [auto with roots|].
    destruct (heap w !! _); simpl; auto with roots.
  - unfold pty_data. destruct (procs w !! p) as [[a sk]|]; [|auto with roots].
    destruct (heap w !! a); [|auto with roots].
    destruct (filterOutput _ _) as [cleaned flag].
    destruct (Js.truthy cleaned); simpl; auto with roots.
  - unfold pty_exit. destruct (procs w !! p) as [[a sk]|]; simpl; auto with roots.
  - unfold scan_done. destruct (scans w !! i); simpl; auto with roots.
Qed.

Lemma roots_run trace : ∀ w, roots_kept (heap w) (heap (run host trace w)).
Proof.
  induction trace as [|oe trace IH]; intros w; [apply roots_kept_refl|].
  eapply roots_kept_trans; [apply roots_step|apply IH].
Qed.

Lemma execute_enters o socketId socket command w a session w1 :
  enters host o socketId socket w a session w1 ->
  execute host o socketId command socket w
  = execute host o socketId command socket w1.
Proof.
  intros Hent. destruct (enters_again _ _ _ _ _ _ _ _ Hent) as [Hcs1 _].
  destruct Hent as [Hcs _]. unfold execute. by rewrite Hcs, Hcs1.
Qed.

(** [execute] for a registered session leaves the registry as it is. *)
Lemma execute_sessions o socketId socket command w a w' :
  sessions w !! socketId = Some a ->
  execute host o socketId command socket w = Some w' ->
  sessions w' = sessions w.
Proof.
  intros Hreg Hex. unfold execute in Hex.
  rewrite (createSession_registered _ _ _ _ _ _ _ Hreg) in Hex. simpl in Hex.
  destruct (heap w !! a) as [session|]; [|done]. simpl in Hex.
  destruct (negb _); [by injection Hex as <-|].
  destruct (smart_interceptor _ _ _ _ _ _) as [cmd w2] eqn:Hsi.
  assert (sessions w2 = sessions w) as <-.
  { unfold smart_interceptor in Hsi.
    destruct (String.eqb _ _); [|by injection Hsi as <- <-].
    destruct (existsSync _ _); [|by injection Hsi as <- <-].
    destruct (_ ≫= _) as [[|]|]; by injection Hsi as <- <-. }
  destruct (is_cd cmd).
  { injection Hex as <-. unfold cd. by destruct (negb _). }
  destruct (_ || _); injection Hex as <-; [done|].
  unfold spawn. by destruct (pty_spawn _ _ _ _).
Qed.

(** [execute] completes once the session is there. *)
Lemma execute_completes o socketId socket command w a session w1 :
  enters host o socketId socket w a session w1 ->
  is_Some (execute host o socketId command socket w).
Proof.
  intros [Hcs Hs]. unfold execute. rewrite Hcs. simpl. rewrite Hs. simpl.
  destruct (negb _); [by eexists|].
  destruct (smart_interceptor _ _ _ _ _ _) as [cmd w2].
  destruct (is_cd cmd); [by eexists|]. destruct (_ || _); by eexists.
Qed.

(** [handleInput] for an id the registry does not hold makes the session
    with the anonymous root. *)
Lemma handleInput_creates o socketId data socket w w' :
  sessions w !! socketId = None ->
  handleInput host o socketId data socket w = Some w' ->
  ∃ session, sessions w' !! socketId = Some (length (heap w))
             ∧ heap w' !! length (heap w) = Some session
             ∧ projectRoot session = anonymous_root host.
Proof.
  intros Hnone Hin.
  rewrite handleInput_idle in Hin by (by rewrite session_of_absent).
  destruct (createSession host o socketId (Some socket) None w)
    as [[a w1]|] eqn:Hcs; [|unfold execute in Hin; by rewrite Hcs in Hin].
  destruct (createSession_fresh _ _ _ _ _ _ _ _ Hnone Hcs) as (-> & E1 & E2 & _).
  assert (heap w1 !! length (heap w)
          = Some {| cwd := anonymous_root host; projectRoot := anonymous_root host;
                    pty := None; initialOutputReceived := false |}) as Hnew.
  { by rewrite E2, lookup_app_r, Nat.sub_diag. }
  rewrite (execute_enters _ _ _ _ _ _ _ _ (conj Hcs Hnew)) in Hin.
  destruct (roots_execute _ _ _ _ _ _ Hin _ _ Hnew) as (session & Hs & Hroot).
  exists session. split_and!; [|done..].
  rewrite (execute_sessions _ _ _ _ _ (length (heap w)) _ (createSession_result _ _ _ _ _ _ _ _ Hcs) Hin).
  by rewrite E1, lookup_insert_eq.
Qed.

(** C3: [handleInput] for an id without a session makes a session whose
    project root is [<tmpdir>/teachgrid-workspace/anonymous], whatever the id
    and the socket are, and does so whenever that directory is there or can
    be made; a session object keeps its project root in every later world;
    so two sessions made this way for two ids have the same project root. *)
Theorem lazy_sessions_share_anonymous_root :
  (∀ o socketId data socket w w',
     sessions w !! socketId = None ->
     handleInput host o socketId data socket w = Some w' ->
     ∃ session, session_of socketId w' = Some session
                ∧ projectRoot session = anonymous_root host)
  ∧ (∀ o socketId data socket w,
       sessions w !! socketId = None ->
       existsSync o (anonymous_root host) || mkdirSync o (anonymous_root host) = true ->
       is_Some (handleInput host o socketId data socket w))
  ∧ (∀ trace w a session,
       heap w !! a = Some session ->
       ∃ session', heap (run host trace w) !! a = Some session'
                   ∧ projectRoot session' = projectRoot session)
  ∧ (∀ o1 o2 id1 id2 data1 data2 socket1 socket2 trace w w1 w2,
       sessions w !! id1 = None ->
       handleInput host o1 id1 data1 socket1 w = Some w1 ->
       sessions (run host trace w1) !! id2 = None ->
       handleInput host o2 id2 data2 socket2 (run host trace w1) = Some w2 ->
       ∃ session1 session2,
         heap w2 !! length (heap w) = Some session1
         ∧ session_of id2 w2 = Some session2
         ∧ length (heap w) ≠ length (heap (run host trace w1))
         ∧ projectRoot session1 = anonymous_root host
         ∧ projectRoot session2 = anonymous_root host).
Proof.
  split_and!.
  - intros o socketId data socket w w' Hnone Hin.
    destruct (handleInput_creates _ _ _ _ _ _ Hnone Hin) as (session & Hreg & Hs & Hroot).
    exists session. split; [|done]. unfold session_of. by rewrite Hreg.
  - intros o socketId data socket w Hnone Hdir.
    rewrite handleInput_idle by (by rewrite session_of_absent).
    assert (∃ a w1, createSession host o socketId (Some socket) None w = Some (a, w1))
      as (a & w1 & Hcs).
    { unfold createSession. rewrite Hnone.
      change (workspace_root host None) with (anonymous_root host). rewrite Hdir. by eexists _, _. }
    destruct (createSession_fresh _ _ _ _ _ _ _ _ Hnone Hcs) as (-> & _ & E2 & _).
    eapply execute_completes. split; [done|].
    by rewrite E2, lookup_app_r, Nat.sub_diag.
  - intros trace w a session Hs. by apply (roots_run trace w).
  - intros o1 o2 id1 id2 data1 data2 socket1 socket2 trace w w1 w2 Hn1 Hin1 Hn2 Hin2.
    destruct (handleInput_creates _ _ _ _ _ _ Hn1 Hin1) as (s1 & _ & Hs1 & Hroot1).
    destruct (roots_run trace w1 _ _ Hs1) as (s1' & Hs1' & Hroot1').
    destruct (handleInput_creates _ _ _ _ _ _ Hn2 Hin2) as (s2 & Hreg2 & Hs2 & Hroot2).
    destruct (roots_step (run host trace w1) (o2, HandleInput id2 data2 socket2) _ _ Hs1')
      as (s1'' & Hs1'' & Hroot1'').
    simpl in Hs1''. rewrite Hin2 in Hs1''. simpl in Hs1''.
    exists s1'', s2. split_and!; try done.
    + unfold session_of. by rewrite Hreg2.
    + apply lookup_lt_Some in Hs1'. lia.
    + congruence.
Qed.

End Roots.

(** ** Busy and idle *)

Section Dispatch.

Variable host : Host.

(** C5: in every world the service can reach, a session object holds a pty
    exactly when it is busy, and the pty it holds is the running process
    spawned for it; input for a session that holds a pty is written to that
    pty as it is and nothing else happens (nothing is emitted, spawned or
    changed in a session); input for a session that holds none goes to
    [execute]. A spawn that succeeds attaches the new process and emits
    the busy status; the exit of the process detaches it and emits the idle
    status. *)
Theorem process_attached_iff_busy :
  (∀ w, reachable host w ->
     ∀ a session, heap w !! a = Some session ->
       (is_Some (pty session) ↔ busy w a)
       ∧ (∀ p, pty session = Some p ↔ ∃ socket, procs w !! p = Some (a, socket)))
  ∧ (∀ o socketId data socket w session p,
       session_of socketId w = Some session -> pty session = Some p ->
       handleInput host o socketId data socket w
       = Some (pty_call p (PtyWrite data) w))
  ∧ (∀ o socketId data socket w,
       session_of socketId w ≫= pty = None ->
       handleInput host o socketId data socket w
       = execute host o socketId data socket w)
  ∧ (∀ o a session socket trimmedCmd w,
       heap w !! a = Some session ->
       pty_spawn o (if win32 host then "cmd.exe" else "bash")
                 (if win32 host then ["/C"; trimmedCmd] else ["-c"; trimmedCmd])
                 (cwd session) = Spawned ->
       let w' := spawn host o a session socket trimmedCmd w in
       heap w' !! a
       = Some (set_initialOutputReceived false (set_pty (Some (spawned w)) session))
       ∧ procs w' = <[spawned w := (a, socket)]> (procs w)
       ∧ out w' = out w ++ [(socket, TerminalStatus true)])
  ∧ (∀ w p a socket,
       procs w !! p = Some (a, socket) ->
       heap (pty_exit p w) !! a = set_pty None <$> heap w !! a
       ∧ procs (pty_exit p w) = delete p (procs w)
       ∧ out (pty_exit p w) = out w ++ [(socket, TerminalStatus false)]).
Proof.
  split_and!.
  - intros w Hw a session Hs. apply (wf_reachable host) in Hw.
    assert (∀ p, pty session = Some p ↔ ∃ socket, procs w !! p = Some (a, socket))
      as Hiff.
    { intros p. split.
      - intros Hp. by eapply wf_attached.
      - intros [socket Hp]. destruct (wf_running _ Hw _ _ _ Hp) as (s & Hs' & Hps).
        congruence. }
    split; [|done]. unfold busy. split.
    + intros [p Hp]. exists p. by apply Hiff.
    + intros (p & socket & Hp). exists p. apply Hiff. by exists socket.
  - intros o socketId data socket w session p Hs Hp.
    unfold session_of in Hs.
    destruct (sessions w !! socketId) as [a|] eqn:Hreg; [|done]. simpl in Hs.
    unfold handleInput. rewrite (createSession_registered _ _ _ _ _ _ _ Hreg).
    simpl. rewrite Hs. simpl. rewrite Hp.
    unfold write, session_of. rewrite Hreg. simpl. rewrite Hs. simpl. by rewrite Hp.
  - intros. by apply handleInput_idle.
  - intros o a session socket trimmedCmd w Hs Hspawn w'. subst w'.
    unfold spawn. rewrite Hspawn. simpl. split_and!; [|done..].
    by rewrite !list_lookup_alter_eq, Hs.
  - intros w p a socket Hp. unfold pty_exit. rewrite Hp. simpl.
    split_and!; [|done..]. apply list_lookup_alter_eq.
Qed.

End Dispatch.

(** ** The sandbox check *)

(** C2: the sandbox check of [cd] accepts every resolved target that is the
    project root followed by any string: nothing is emitted and [fs.access]
    is called for the target. So on the POSIX host the session with project
    root [/tmp/teachgrid-workspace/user] accepts [cd ../user-evil], which
    resolves to the sibling [/tmp/teachgrid-workspace/user-evil], a directory
    that is not in the tree under the project root, and moves there once the
    directory is found. *)
Theorem sandbox_check_is_string_prefix :
  (∀ host o socketId socket command w a session w1 rest,
     enters host o socketId socket w a session w1 ->
     is_cd (Js.trim command) = true ->
     path_resolve host (cwd session) (cd_target host (Js.trim command))
     = projectRoot session +:+ rest ->
     execute host o socketId command socket w
     = Some (set_accessing
               (accessing w1 ++ [access_call host a session socket (Js.trim command)])
               w1))
  ∧ (let w := run posix_host
                  [(sandbox_oracle, HandleInput 1%positive "cd ../user-evil" 7%positive);
                   (sandbox_oracle, AccessDone 0 false)]
                  sandbox_world in
     session_of 1%positive sandbox_world
     = Some {| cwd := "/tmp/teachgrid-workspace/user";
               projectRoot := "/tmp/teachgrid-workspace/user";
               pty := None; initialOutputReceived := false |}
     ∧ session_of 1%positive w
       = Some {| cwd := "/tmp/teachgrid-workspace/user-evil";
                 projectRoot := "/tmp/teachgrid-workspace/user";
                 pty := None; initialOutputReceived := false |}
     ∧ out w = [(7%positive, TerminalCwd ""); (7%positive, TerminalCwd "../user-evil")]
     ∧ nested_under "/tmp/teachgrid-workspace/user"
                    "/tmp/teachgrid-workspace/user-evil" = false
     ∧ nested_under "/tmp/teachgrid-workspace/user"
                    "/tmp/teachgrid-workspace/user/src" = true).
Proof.
  split.
  - intros host o socketId socket command w a session w1 rest Hent Hcd Hpath.
    rewrite (execute_cd _ _ _ _ _ _ _ _ _ Hent Hcd).
    unfold cd, Js.startsWith, access_call. by rewrite Hpath, prefix_app.
  - by vm_compute.
Qed.

(** ** The properties at work on the POSIX host *)

Lemma cwd_stays_under_projectRoot_witness :
  let w := run posix_host
               [(sandbox_oracle, HandleInput 1%positive "cd src" 7%positive);
                (sandbox_oracle, AccessDone 0 false)]
               sandbox_world in
  session_of 1%positive w = Some (user_session "/tmp/teachgrid-workspace/user/src" None)
  ∧ (∀ a session, heap w !! a = Some session ->
       Js.startsWith (cwd session) (projectRoot session) = true)
  ∧ handleInput posix_host sandbox_oracle 1%positive "  cd ../../../etc " 7%positive w
    = Some (emit 7%positive (Output access_denied) w).
Proof.
  intros w. destruct (cwd_stays_under_projectRoot posix_host) as [Hinv Hdeny].
  split; [reflexivity|]. split.
  - apply Hinv.
    exists [(sandbox_oracle, CreateSession 1%positive (Some 7%positive) (Some "user"));
            (sandbox_oracle, HandleInput 1%positive "cd src" 7%positive);
            (sandbox_oracle, AccessDone 0 false)].
    reflexivity.
  - apply (Hdeny sandbox_oracle 1%positive 7%positive "  cd ../../../etc " w 0
                 (user_session "/tmp/teachgrid-workspace/user/src" None) w);
      [split; reflexivity|reflexivity..].
Defined.

Lemma sandbox_check_is_string_prefix_witness :
  execute posix_host sandbox_oracle 1%positive "cd ../user-evil" 7%positive sandbox_world
  = Some (set_accessing
            [{| acc_session := 0;
                acc_newPath := "/tmp/teachgrid-workspace/user-evil";
                acc_targetDir := "../user-evil";
                acc_socket := 7%positive |}]
            sandbox_world).
Proof.
  apply (proj1 sandbox_check_is_string_prefix posix_host sandbox_oracle 1%positive
               7%positive "cd ../user-evil" sandbox_world 0
               (user_session "/tmp/teachgrid-workspace/user" None) sandbox_world "-evil");
    [split; reflexivity|reflexivity..].
Defined.

Lemma lazy_sessions_share_anonymous_root_witness :
  ∃ w1 w2 session1 session2,
    handleInput posix_host sandbox_oracle 1%positive "ls" 7%positive empty_world = Some w1
    ∧ handleInput posix_host sandbox_oracle 2%positive "pwd" 8%positive w1 = Some w2
    ∧ heap w2 !! 0 = Some session1
    ∧ session_of 2%positive w2 = Some session2
    ∧ projectRoot session1 = "/tmp/teachgrid-workspace/anonymous"
    ∧ projectRoot session2 = "/tmp/teachgrid-workspace/anonymous".
Proof.
  destruct (lazy_sessions_share_anonymous_root posix_host) as (_ & Hmade & _ & Hshare).
  destruct (Hmade sandbox_oracle 1%positive "ls" 7%positive empty_world)
    as [w1 Hw1]; [reflexivity..|].
  assert (sessions w1 !! 2%positive = None) as Hfree.
  { vm_compute in Hw1. injection Hw1 as <-. reflexivity. }
  destruct (Hmade sandbox_oracle 2%positive "pwd" 8%positive w1)
    as [w2 Hw2]; [done|reflexivity|].
  destruct (Hshare sandbox_oracle sandbox_oracle 1%positive 2%positive "ls" "pwd"
                   7%positive 8%positive [] empty_world w1 w2)
    as (session1 & session2 & H1 & H2 & _ & R1 & R2); [reflexivity|done..|].
  exists w1, w2, session1, session2. split_and!; done.
Defined.

Lemma cd_checks_the_directory_witness :
  let call := {| acc_session := 0;
                 acc_newPath := "/tmp/teachgrid-workspace/user/src";
                 acc_targetDir := "src";
                 acc_socket := 7%positive |} in
  let w2 := set_accessing [call] sandbox_world in
  execute posix_host sandbox_oracle 1%positive "cd src" 7%positive sandbox_world = Some w2
  ∧ access_done posix_host 0 true w2
    = emit 7%positive (Output (no_such_directory "src")) sandbox_world
  ∧ access_done posix_host 0 false w2
    = emit 7%positive (TerminalCwd "src")
           (assign 0 (set_cwd "/tmp/teachgrid-workspace/user/src") sandbox_world).
Proof.
  intros call w2.
  destruct (cd_checks_the_directory posix_host sandbox_oracle 1%positive 7%positive
              "cd src" sandbox_world 0
              (user_session "/tmp/teachgrid-workspace/user" None) sandbox_world)
    as (H1 & H2 & H3 & _); [split; reflexivity|reflexivity..|].
  split_and!; [exact H1|exact H2|exact H3].
Defined.

Lemma process_attached_iff_busy_witness :
  session_of 1%positive serving_world
  = Some (user_session "/tmp/teachgrid-workspace/user" (Some 0))
  ∧ busy serving_world 0
  ∧ handleInput posix_host sandbox_oracle 1%positive "cd src" 7%positive serving_world
    = Some (pty_call 0 (PtyWrite "cd src") serving_world).
Proof.
  destruct (process_attached_iff_busy posix_host) as (Hinv & Hbusy & _).
  split; [reflexivity|]. split.
  - apply (Hinv serving_world) with (session := user_session "/tmp/teachgrid-workspace/user" (Some 0));
      [|reflexivity|by eexists].
    exists [(sandbox_oracle, CreateSession 1%positive (Some 7%positive) (Some "user"));
            (sandbox_oracle, HandleInput 1%positive "npm run dev" 7%positive)].
    reflexivity.
  - apply (Hbusy sandbox_oracle 1%positive "cd src" 7%positive serving_world
                 (user_session "/tmp/teachgrid-workspace/user" (Some 0)) 0);
      reflexivity.
Defined.

Lemma bare_cd_is_denied_witness :
  Js.trim "  cd  " = "cd"
  ∧ path_resolve posix_host "/tmp/teachgrid-workspace/user" (homedir posix_host)
    = "/home/user"
  ∧ handleInput posix_host sandbox_oracle 1%positive "  cd  " 7%positive sandbox_world
    = Some (emit 7%positive (Output access_denied) sandbox_world).
Proof.
  split; [reflexivity|]. split; [reflexivity|].
  apply (bare_cd_is_denied posix_host sandbox_oracle 1%positive 7%positive "  cd  "
           sandbox_world 0 (user_session "/tmp/teachgrid-workspace/user" None)
           sandbox_world);
    [split; reflexivity|reflexivity..].
Defined.

Lemma npm_start_runs_dev_witness :
  read_manifest posix_host sandbox_oracle "/tmp/teachgrid-workspace/user/package.json"
  = Some (JObject [("scripts", JObject [("dev", JString "vite")])])
  ∧ execute posix_host sandbox_oracle 1%positive " npm start" 7%positive sandbox_world
    = Some (spawn posix_host sandbox_oracle 0
              (user_session "/tmp/teachgrid-workspace/user" None) 7%positive
              "npm run dev"
              (emit 7%positive (Output redirect_notice) sandbox_world)).
Proof.
  split; [reflexivity|].
  apply (proj1 (npm_start_runs_dev posix_host sandbox_oracle 1%positive 7%positive
                  " npm start" sandbox_world 0
                  (user_session "/tmp/teachgrid-workspace/user" None) sandbox_world
                  (conj eq_refl eq_refl) eq_refl)
               (JObject [("scripts", JObject [("dev", JString "vite")])]));
    reflexivity.
Defined.

Lemma kill_removes_once_witness :
  session_of 1%positive serving_world
  = Some (user_session "/tmp/teachgrid-workspace/user" (Some 0))
  ∧ sessions (kill 1%positive serving_world) !! 1%positive = None
  ∧ pty_ops (kill 1%positive serving_world) = [(0, PtyKill)]
  ∧ out (kill 1%positive serving_world) = out serving_world
  ∧ kill 1%positive (kill 1%positive serving_world) = kill 1%positive serving_world.
Proof.
  destruct (kill_removes_once 1%positive serving_world) as (Hfirst & Hsecond & _).
  destruct (Hfirst (user_session "/tmp/teachgrid-workspace/user" (Some 0)))
    as (_ & Hgone & Hops & Hout & _); [reflexivity|].
  split_and!; [reflexivity|exact Hgone|exact Hops|exact Hout|exact Hsecond].
Defined.

(** * Further properties *)

(** ** The output filter removes and never adds *)

Lemma replace_from_sublist m s : ∀ skip,
  list_ascii_of_string (Js.replace_from m skip s) `sublist_of` list_ascii_of_string s.
Proof.
  induction s as [|c s IH]; intros skip; [done|].
  destruct skip as [|skip]; simpl; [|by apply sublist_cons].
  destruct (m (String c s)) as [[|n]|]; simpl;
    (by apply sublist_skip) || (by apply sublist_cons).
Qed.

Lemma trimStart_sublist s :
  list_ascii_of_string (Js.trimStart s) `sublist_of` list_ascii_of_string s.
Proof.
  induction s as [|c s IH]; [done|]. simpl.
  destruct (Js.is_space c); [by apply sublist_cons|done].
Qed.

Lemma length_list_ascii s : length (list_ascii_of_string s) = String.length s.
Proof. induction s as [|c s IH]; simpl; [done|by rewrite IH]. Qed.

(** X1: whatever the chunk and whether it is the first one or not, the
    cleaned chunk is a subsequence of the chunk: the filter drops code units
    and never adds or reorders any; so the cleaned chunk is not longer than
    the chunk. Afterwards the session is marked as having received output. *)
Theorem filterOutput_only_removes (data : string) (initialOutputReceived : bool) :
  list_ascii_of_string (filterOutput data initialOutputReceived).1
    `sublist_of` list_ascii_of_string data
  ∧ (String.length (filterOutput data initialOutputReceived).1 ≤ String.length data)%nat
  ∧ (filterOutput data initialOutputReceived).2 = true.
Proof.
  assert (list_ascii_of_string (filterOutput data initialOutputReceived).1
            `sublist_of` list_ascii_of_string data) as Hsub.
  { unfold filterOutput, strip_title, Js.replace_all. simpl.
    etrans; [apply replace_from_sublist|].
    destruct initialOutputReceived; [done|].
    etrans; [apply trimStart_sublist|].
    etrans; [apply replace_from_sublist|].
    etrans; [apply replace_from_sublist|].
    etrans; [apply replace_from_sublist|].
    apply replace_from_sublist. }
  split_and!; [done| |done].
  rewrite <-!length_list_ascii. by apply sublist_length.
Qed.

(** ** Chunks that pass unchanged *)

Lemma replace_all_nowhere m s : matches_nowhere m s -> Js.replace_all m s = s.
Proof.
  unfold Js.replace_all. induction s as [|c s IH]; [done|].
  intros [Hhere Hrest]. simpl. rewrite Hhere. f_equal. by apply IH.
Qed.

Lemma delimited_nowhere p c least s :
  occurs p s = false -> matches_nowhere (Js.delimited p c least) s.
Proof.
  induction s as [|d s IH]; intros Hs.
  - split; [|done]. unfold Js.delimited. by rewrite (lit_needs_prefix _ _ (occurs_head _ _ Hs)).
  - split; [|apply IH; by eapply occurs_tail].
    unfold Js.delimited. by rewrite (lit_needs_prefix _ _ (occurs_head _ _ Hs)).
Qed.

Lemma copyright_nowhere s :
  occurs copyright_text s = false -> matches_nowhere copyright_re s.
Proof.
  induction s as [|d s IH]; intros Hs.
  - split; [|done]. unfold copyright_re. by rewrite (lit_needs_prefix _ _ (occurs_head _ _ Hs)).
  - split; [|apply IH; by eapply occurs_tail].
    unfold copyright_re. by rewrite (lit_needs_prefix _ _ (occurs_head _ _ Hs)).
Qed.

Lemma prompt_nowhere s : occurs ":\" s = false -> matches_nowhere prompt_re s.
Proof.
  induction s as [|d s IH]; intros Hs; [done|].
  pose proof (occurs_tail _ _ _ Hs) as Hs'.
  split; [|by apply IH]. unfold prompt_re.
  destruct (Js.is_upper d); [|done].
  unfold Js.delimited. by rewrite (lit_needs_prefix _ _ (occurs_head _ _ Hs')).
Qed.

Lemma occurs_trimStart p s : occurs p s = false -> occurs p (Js.trimStart s) = false.
Proof.
  induction s as [|c s IH]; intros Hs; [done|]. simpl.
  destruct (Js.is_space c); [|done]. apply IH. by eapply occurs_tail.
Qed.

Lemma strip_title_without_intro s : occurs title_intro s = false -> strip_title s = s.
Proof. intros Hs. by apply replace_all_nowhere, delimited_nowhere. Qed.

(** X2: a chunk after the first one is passed on unchanged when it holds no
    title introducer [ESC ] 0 ;] or holds no BEL. *)
Theorem filterOutput_passes_later_chunks (data : string) :
  occurs title_intro data = false ∨ Js.index_of Js.BEL data = None ->
  filterOutput data true = (data, true).
Proof.
  intros [H|H]; unfold filterOutput; f_equal.
  - by apply strip_title_without_intro.
  - by apply strip_title_without_bel.
Qed.

Lemma filterOutput_passes_later_chunks_witness :
  occurs title_intro coloured_chunk = false
  ∧ filterOutput coloured_chunk true = (coloured_chunk, true).
Proof.
  split; [reflexivity|].
  apply (filterOutput_passes_later_chunks coloured_chunk). left. reflexivity.
Defined.

(** X3: of a first chunk in which neither the version banner, nor the
    copyright line, nor a title introducer, nor the text [:\] of a drive
    prompt occurs, the filter removes the leading white space and nothing
    else. *)
Theorem filterOutput_trims_plain_first_chunk (data : string) :
  plain_chunk data = true ->
  filterOutput data false = (Js.trimStart data, true).
Proof.
  unfold plain_chunk.
  intros [[[H1%negb_true_iff H2%negb_true_iff]%andb_true_iff
            H3%negb_true_iff]%andb_true_iff H4%negb_true_iff]%andb_true_iff.
  unfold filterOutput, banner_re, title_re.
  rewrite (replace_all_nowhere _ _ (delimited_nowhere _ _ _ _ H1)).
  rewrite (replace_all_nowhere _ _ (copyright_nowhere _ H2)).
  rewrite (replace_all_nowhere _ _ (delimited_nowhere _ _ _ _ H3)).
  rewrite (replace_all_nowhere _ _ (prompt_nowhere _ H4)).
  f_equal. by apply strip_title_without_intro, occurs_trimStart.
Qed.

Lemma filterOutput_trims_plain_first_chunk_witness :
  let data := CRLF +:+ "  " +:+ coloured_chunk in
  plain_chunk data = true
  ∧ filterOutput data false = (coloured_chunk, true).
Proof.
  intros data. split; [reflexivity|].
  apply (filterOutput_trims_plain_first_chunk data). reflexivity.
Defined.

(** ** Splitting and joining *)

Lemma split_not_nil sep s : Js.split sep s ≠ [].
Proof.
  destruct s as [|c s]; simpl; [done|].
  destruct (Ascii.eqb c sep); [done|]. by destruct (Js.split sep s).
Qed.

Lemma split_without_sep sep s : Js.index_of sep s = None -> Js.split sep s = [s].
Proof.
  induction s as [|c s IH]; [done|]. simpl.
  destruct (Ascii.eqb c sep); [done|]. intros Hs.
  rewrite IH; [done|]. by destruct (Js.index_of sep s).
Qed.

Lemma split_app sep a b :
  Js.index_of sep a = None ->
  Js.split sep (a +:+ String sep b) = a :: Js.split sep b.
Proof.
  induction a as [|c a IH]; intros Ha.
  - change ("" +:+ String sep b) with (String sep b). simpl.
    by rewrite Ascii.eqb_refl.
  - change (String c a +:+ String sep b) with (String c (a +:+ String sep b)).
    simpl in Ha |- *. destruct (Ascii.eqb c sep); [done|].
    rewrite IH; [done|]. by destruct (Js.index_of sep a).
Qed.

(** [join] undoes [split]. *)
Lemma join_split sep s : Js.join (String sep "") (Js.split sep s) = s.
Proof.
  induction s as [|c s IH]; [done|]. simpl.
  destruct (Ascii.eqb_spec c sep) as [->|Hne].
  - pose proof (split_not_nil sep s) as Hnil.
    destruct (Js.split sep s) as [|w ws]; [done|].
    change (Js.join (String sep "") ("" :: w :: ws))
      with (String sep (Js.join (String sep "") (w :: ws))).
    by rewrite IH.
  - pose proof (split_not_nil sep s) as Hnil.
    destruct (Js.split sep s) as [|w [|w' ws]]; [done|..].
    + simpl in IH |- *. by rewrite IH.
    + change (Js.join (String sep "") (String c w :: w' :: ws))
        with (String c (Js.join (String sep "") (w :: w' :: ws))).
      by rewrite IH.
Qed.

(** A joined list is its head, or its head, the separator and the rest. *)
Lemma join_cons sep h rest :
  Js.join sep (h :: rest) = h ∨ ∃ r, Js.join sep (h :: rest) = h +:+ sep +:+ r.
Proof. destruct rest as [|x l]; [by left|right]. by eexists. Qed.

(** ** Alias resolution *)

Lemma aliases_answer first v : aliases first = Some v -> (first, v) ∈ alias_answers.
Proof.
  unfold aliases.
  repeat match goal with
         | |- context [String.eqb first ?k] =>
             destruct (String.eqb_spec first k) as [->|?];
             [intros [= <-]; compute_done|]
         end.
  case_bool_decide as Hin; [|done]. intros [= <-].
  repeat (apply elem_of_cons in Hin as [->|Hin]; [compute_done|]).
  by apply elem_of_nil in Hin.
Qed.

Lemma resolve_alias_answer t :
  resolve_alias t = t
  ∨ ∃ first v rest,
      (first, v) ∈ alias_answers
      ∧ t = Js.join " " (first :: rest)
      ∧ resolve_alias t = Js.join " " (v :: rest).
Proof.
  unfold resolve_alias.
  pose proof (join_split Js.SPACE t) as Hjoin.
  destruct (Js.split Js.SPACE t) as [|first rest]; [by left|].
  destruct (aliases first) as [v|] eqn:Hv; [|by left].
  right. exists first, v, rest. split_and!; [by apply aliases_answer|done..].
Qed.

(** The cases of [alias_answers], each with its strings evaluated. *)
Ltac alias_cases H :=
  unfold alias_answers, alias_table in H; simpl in H;
  repeat (apply elem_of_cons in H as [[= -> ->]|H]);
  [..|by apply elem_of_nil in H].

Ltac join_cases rest :=
  let x := fresh "x" in
  let l := fresh "l" in
  destruct rest as [|x l]; cbn [Js.join].

Lemma resolve_alias_is_cd t : is_cd (resolve_alias t) = is_cd t.
Proof.
  destruct (resolve_alias_answer t) as [->|(first & v & rest & Hin & -> & ->)]; [done|].
  alias_cases Hin; join_cases rest; reflexivity.
Qed.

Lemma resolve_alias_npm_start t : resolve_alias t = "npm start" ↔ t = "npm start".
Proof.
  destruct (resolve_alias_answer t) as [->|(first & v & rest & Hin & -> & ->)]; [done|].
  alias_cases Hin; join_cases rest; split; intros H; cbv in H; discriminate H.
Qed.

Lemma resolve_alias_never_clear t : resolve_alias t ≠ "clear".
Proof.
  destruct (resolve_alias_answer t) as [Heq|(first & v & rest & Hin & -> & ->)].
  - intros H. rewrite H in Heq. rewrite <-Heq in H. discriminate H.
  - alias_cases Hin; join_cases rest; intros H; cbv in H; discriminate H.
Qed.

Lemma resolve_alias_cls t : resolve_alias t = "cls" ↔ t = "cls" ∨ t = "clear".
Proof.
  split; [|by intros [->| ->]].
  destruct (resolve_alias_answer t) as [->|(first & v & rest & Hin & -> & ->)];
    [by left|].
  alias_cases Hin; join_cases rest; intros H;
    first [by right | cbv in H; discriminate H].
Qed.

(** X4: alias resolution gives each of the seven table names its command,
    and it rewrites the first word only: for a first word without a space,
    resolving the word followed by arguments is resolving the word alone and
    appending the same arguments. *)
Theorem resolve_alias_first_token :
  (∀ key value, (key, value) ∈ alias_table -> resolve_alias key = value)
  ∧ (∀ first rest,
       Js.index_of Js.SPACE first = None ->
       resolve_alias (first +:+ " " +:+ rest) = resolve_alias first +:+ " " +:+ rest).
Proof.
  split.
  - intros key value Hin. unfold alias_table in Hin.
    repeat (apply elem_of_cons in Hin as [[= -> ->]|Hin]; [reflexivity|]).
    by apply elem_of_nil in Hin.
  - intros first rest Hfirst. unfold resolve_alias.
    change (first +:+ " " +:+ rest) with (first +:+ String Js.SPACE rest).
    rewrite (split_app _ _ _ Hfirst), (split_without_sep _ _ Hfirst).
    destruct (aliases first) as [v|]; [|done].
    pose proof (split_not_nil Js.SPACE rest) as Hnil.
    pose proof (join_split Js.SPACE rest) as Hjoin.
    destruct (Js.split Js.SPACE rest) as [|x l]; [done|].
    change (Js.join " " (v :: x :: l)) with (v +:+ " " +:+ Js.join " " (x :: l)).
    change (String Js.SPACE "") with " " in Hjoin. by rewrite Hjoin.
Qed.

Lemma resolve_alias_first_token_witness :
  resolve_alias "ls" = "dir /b"
  ∧ resolve_alias "ls -la src" = "dir /b -la src"
  ∧ resolve_alias "git status" = "git status".
Proof.
  destruct resolve_alias_first_token as [Htable Hfirst].
  split; [|split].
  - apply Htable. compute_done.
  - apply (Hfirst "ls" "-la src"). reflexivity.
  - apply (Hfirst "git" "status"). reflexivity.
Defined.

(** X5: alias resolution neither makes nor hides a built-in: the result is
    a [cd] command exactly when the command was one, it is [npm start]
    exactly when the command was, it is [cls] exactly when the command was
    [cls] or [clear], and it is never [clear], so the comparison with
    [clear] at line 174 never holds. *)
Theorem resolve_alias_keeps_builtins (trimmedCmd : string) :
  is_cd (resolve_alias trimmedCmd) = is_cd trimmedCmd
  ∧ (resolve_alias trimmedCmd = "npm start" ↔ trimmedCmd = "npm start")
  ∧ (resolve_alias trimmedCmd = "cls" ↔ trimmedCmd = "cls" ∨ trimmedCmd = "clear")
  ∧ resolve_alias trimmedCmd ≠ "clear".
Proof.
  split_and!.
  - apply resolve_alias_is_cd.
  - apply resolve_alias_npm_start.
  - apply resolve_alias_cls.
  - apply resolve_alias_never_clear.
Qed.

(** ** Commands that spawn nothing, and spawns that fail *)

Lemma trimStart_blank s : blank s -> Js.trimStart s = "".
Proof.
  unfold blank. induction s as [|c s IH]; [done|]. simpl.
  intros [Hc Hs]%Forall_cons. rewrite Hc. by apply IH.
Qed.

Lemma trim_blank s : blank s -> Js.trim s = "".
Proof. intros H. unfold Js.trim. by rewrite trimStart_blank. Qed.

Section Builtins.

Variable host : Host.

(** X6: an input of white space only (or empty) is dropped by [execute]:
    besides making the session when there is none, nothing is emitted,
    spawned or changed. *)
Theorem blank_input_is_dropped o socketId socket command w a session w1 :
  enters host o socketId socket w a session w1 ->
  blank command ->
  execute host o socketId command socket w = Some w1.
Proof.
  intros [Hcs Hs] Hblank. unfold execute. rewrite Hcs. simpl. rewrite Hs. simpl.
  by rewrite (trim_blank _ Hblank).
Qed.

(** X7: [cls] and [clear] are answered by the interpreter itself: the ANSI
    clear sequence is emitted and nothing is spawned or changed. *)
Theorem clear_is_builtin o socketId socket command w a session w1 :
  enters host o socketId socket w a session w1 ->
  Js.trim command = "cls" ∨ Js.trim command = "clear" ->
  execute host o socketId command socket w
  = Some (emit socket (Output ansi_clear) w1).
Proof.
  intros [Hcs Hs] Hcmd. unfold execute. rewrite Hcs. simpl. rewrite Hs. simpl.
  by destruct Hcmd as [-> | ->].
Qed.

(** X8: a command that is no built-in goes to [pty.spawn]; when that throws,
    the failure line with the message is emitted and nothing else happens:
    no session object gets a process and no callback is left behind. *)
Theorem spawn_failure_is_reported o socketId socket command w a session w1 message :
  enters host o socketId socket w a session w1 ->
  let trimmedCmd := resolve_alias (Js.trim command) in
  Js.truthy (Js.trim command) = true ->
  trimmedCmd ≠ "npm start" -> is_cd trimmedCmd = false -> trimmedCmd ≠ "cls" ->
  pty_spawn o (if win32 host then "cmd.exe" else "bash")
            (if win32 host then ["/C"; trimmedCmd] else ["-c"; trimmedCmd])
            (cwd session) = SpawnThrows message ->
  execute host o socketId command socket w
  = Some (emit socket (Output (failed_to_execute message)) w1).
Proof.
  intros [Hcs Hs] trimmedCmd Htruthy Hnpm Hcd Hcls Hspawn.
  pose proof (resolve_alias_never_clear (Js.trim command)) as Hclear.
  fold trimmedCmd in Hclear.
  unfold execute. rewrite Hcs. simpl. rewrite Hs. simpl. rewrite Htruthy. simpl.
  fold trimmedCmd. unfold smart_interceptor.
  destruct (String.eqb_spec trimmedCmd "npm start"); [done|].
  rewrite Hcd.
  destruct (String.eqb_spec trimmedCmd "cls"); [done|].
  destruct (String.eqb_spec trimmedCmd "clear"); [done|]. simpl.
  unfold spawn. by rewrite Hspawn.
Qed.

End Builtins.

Lemma blank_input_is_dropped_witness :
  blank (" " +:+ CRLF)
  ∧ execute posix_host sandbox_oracle 1%positive (" " +:+ CRLF) 7%positive sandbox_world
    = Some sandbox_world.
Proof.
  assert (blank (" " +:+ CRLF)) as Hblank.
  { unfold blank. repeat constructor. }
  split; [exact Hblank|].
  apply (blank_input_is_dropped posix_host sandbox_oracle 1%positive 7%positive
           (" " +:+ CRLF) sandbox_world 0
           (user_session "/tmp/teachgrid-workspace/user" None) sandbox_world);
    [split; reflexivity|exact Hblank].
Defined.

Lemma clear_is_builtin_witness :
  execute posix_host sandbox_oracle 1%positive " clear " 7%positive sandbox_world
  = Some (emit 7%positive (Output ansi_clear) sandbox_world).
Proof.
  apply (clear_is_builtin posix_host sandbox_oracle 1%positive 7%positive " clear "
           sandbox_world 0 (user_session "/tmp/teachgrid-workspace/user" None)
           sandbox_world);
    [split; reflexivity|by right].
Defined.

Lemma spawn_failure_is_reported_witness :
  execute posix_host failing_oracle 1%positive "ls -la" 7%positive sandbox_world
  = Some (emit 7%positive (Output (failed_to_execute "spawn bash ENOENT")) sandbox_world).
Proof.
  apply (spawn_failure_is_reported posix_host failing_oracle 1%positive 7%positive
           "ls -la" sandbox_world 0 (user_session "/tmp/teachgrid-workspace/user" None)
           sandbox_world "spawn bash ENOENT");
    [split; reflexivity|reflexivity|discriminate|reflexivity|discriminate|reflexivity].
Defined.

(** ** Sessions and their identity *)

Section Identity.

Variable host : Host.

(** X9: [createSession] for an id that has a session gives that session
    back and changes nothing, whatever socket and user id it is called with.
    So a session made by [handleInput], which passes no user id, keeps the
    anonymous root when it is initialised with a user id afterwards. *)
Theorem createSession_keeps_first_session :
  (∀ o o' socketId socket socket' userId userId' w a w1,
     createSession host o socketId socket userId w = Some (a, w1) ->
     createSession host o' socketId socket' userId' w1 = Some (a, w1))
  ∧ (∀ o o' socketId data socket socket' userId w w1,
       sessions w !! socketId = None ->
       handleInput host o socketId data socket w = Some w1 ->
       ∃ a session,
         createSession host o' socketId socket' (Some userId) w1 = Some (a, w1)
         ∧ heap w1 !! a = Some session
         ∧ projectRoot session = anonymous_root host).
Proof.
  split.
  - intros o o' socketId socket socket' userId userId' w a w1 Hcs.
    apply createSession_registered. by eapply createSession_result.
  - intros o o' socketId data socket socket' userId w w1 Hnone Hin.
    destruct (handleInput_creates _ _ _ _ _ _ _ Hnone Hin) as (session & Hreg & Hs & Hroot).
    exists (length (heap w)), session. split_and!; [|done..].
    by apply createSession_registered.
Qed.

(** X10: in every world the service can reach, a session object has at most
    one running process: two running processes whose hooks belong to one
    session object are the same process. *)
Theorem one_process_per_session (w : World) :
  reachable host w ->
  ∀ p1 p2 a socket1 socket2,
    procs w !! p1 = Some (a, socket1) -> procs w !! p2 = Some (a, socket2) ->
    p1 = p2.
Proof.
  intros Hw%wf_reachable p1 p2 a socket1 socket2 H1 H2.
  destruct (wf_running _ Hw _ _ _ H1) as (s1 & Hs1 & Hp1).
  destruct (wf_running _ Hw _ _ _ H2) as (s2 & Hs2 & Hp2).
  congruence.
Qed.

End Identity.

(** ** After [kill] *)

Lemma pty_data_hook (w : World) p a socket session chunk :
  procs w !! p = Some (a, socket) -> heap w !! a = Some session ->
  out (pty_data p chunk w)
  = out w ++ chunk_events socket (filterOutput chunk (initialOutputReceived session)).1
  ∧ heap (pty_data p chunk w) !! a = Some (set_initialOutputReceived true session)
  ∧ procs (pty_data p chunk w) = procs w.
Proof.
  intros Hp Hs. unfold pty_data, chunk_events, filterOutput. rewrite Hp, Hs.
  cbv beta iota zeta. cbn [fst]. set (cleaned := strip_title _).
  destruct (Js.truthy cleaned); simpl; rewrite ?app_nil_r, list_lookup_alter_eq, Hs;
    done.
Qed.

(** X11: [kill] takes the session out of the registry but leaves the hooks
    of its process in place. So after [kill], [write] and [resize] for the id
    do nothing, output of the process is still filtered and emitted as
    before, and the exit of the process still emits the idle status and
    starts a port scan; the id stays without a session. *)
Theorem kill_leaves_the_hooks (socketId : SocketId) (w : World) a session p socket :
  sessions w !! socketId = Some a -> heap w !! a = Some session ->
  pty session = Some p -> procs w !! p = Some (a, socket) ->
  let w' := kill socketId w in
  (∀ data cols rows, write socketId data w' = w' ∧ resize socketId cols rows w' = w')
  ∧ procs w' = procs w
  ∧ (∀ data, out (pty_data p data w')
             = out w ++ chunk_events socket
                          (filterOutput data (initialOutputReceived session)).1)
  ∧ out (pty_exit p w') = out w ++ [(socket, TerminalStatus false)]
  ∧ scans (pty_exit p w') = scans w ++ [Some socket]
  ∧ sessions (pty_exit p w') !! socketId = None.
Proof.
  intros Hreg Hs Hp Hproc w'.
  assert (w' = set_sessions (delete socketId (sessions w)) (pty_call p PtyKill w)) as ->.
  { unfold w', kill, session_of. rewrite Hreg. simpl. by rewrite Hs, Hp. }
  split_and!.
  - intros data cols rows. unfold write, resize, session_of. simpl.
    by rewrite lookup_delete_eq.
  - done.
  - intros data.
    by destruct (pty_data_hook
                   (set_sessions (delete socketId (sessions w)) (pty_call p PtyKill w))
                   p a socket session data Hproc Hs) as [-> _].
  - unfold pty_exit. simpl. by rewrite Hproc.
  - unfold pty_exit. simpl. by rewrite Hproc.
  - unfold pty_exit. simpl. rewrite Hproc. simpl. apply lookup_delete_eq.
Qed.

Lemma kill_leaves_the_hooks_witness :
  out (pty_exit 0 (kill 1%positive serving_world))
  = out serving_world ++ [(7%positive, TerminalStatus false)]
  ∧ sessions (pty_exit 0 (kill 1%positive serving_world)) !! 1%positive = None.
Proof.
  destruct (kill_leaves_the_hooks 1%positive serving_world 0
              (user_session "/tmp/teachgrid-workspace/user" (Some 0)) 0 7%positive)
    as (_ & _ & _ & Hout & _ & Hgone); [reflexivity..|].
  split; [exact Hout|exact Hgone].
Defined.

(** ** Output of a process *)

(** X12: the chunks of a process are emitted in the order they arrive, on
    the socket the process was spawned for, and only the first chunk after
    the spawn gets the banner filter: the second chunk is only stripped of
    title sequences. A chunk that is empty after filtering emits nothing. *)
Theorem banner_filter_runs_once (w : World) p a socket session chunk1 chunk2 :
  procs w !! p = Some (a, socket) -> heap w !! a = Some session ->
  initialOutputReceived session = false ->
  let w2 := pty_data p chunk2 (pty_data p chunk1 w) in
  out w2 = out w ++ chunk_events socket (filterOutput chunk1 false).1
                 ++ chunk_events socket (strip_title chunk2)
  ∧ heap w2 !! a = Some (set_initialOutputReceived true session).
Proof.
  intros Hproc Hs Hfirst w2.
  destruct (pty_data_hook w p a socket session chunk1 Hproc Hs) as (Hout1 & Hheap1 & Hprocs1).
  rewrite <-Hprocs1 in Hproc.
  destruct (pty_data_hook _ p a socket _ chunk2 Hproc Hheap1) as (Hout2 & Hheap2 & _).
  subst w2. rewrite Hout2, Hout1, Hheap2, Hfirst. simpl.
  split; [by rewrite <-app_assoc|done].
Qed.

Lemma banner_filter_runs_once_witness :
  out (pty_data 0 "done" (pty_data 0 "Microsoft Windows [Version 10.0.19045]" serving_world))
  = out serving_world ++ [] ++ [(7%positive, Output "done")].
Proof.
  apply (banner_filter_runs_once serving_world 0 0 7%positive
           (user_session "/tmp/teachgrid-workspace/user" (Some 0))
           "Microsoft Windows [Version 10.0.19045]" "done");
    reflexivity.
Defined.

Lemma serving_world_reachable : reachable posix_host serving_world.
Proof.
  exists [(sandbox_oracle, CreateSession 1%positive (Some 7%positive) (Some "user"));
          (sandbox_oracle, HandleInput 1%positive "npm run dev" 7%positive)].
  reflexivity.
Qed.

Lemma createSession_keeps_first_session_witness :
  createSession posix_host sandbox_oracle 1%positive (Some 7%positive) (Some "user") empty_world
  = Some (0, sandbox_world)
  ∧ createSession posix_host failing_oracle 1%positive (Some 9%positive) (Some "other")
      sandbox_world
    = Some (0, sandbox_world).
Proof.
  assert (createSession posix_host sandbox_oracle 1%positive (Some 7%positive) (Some "user")
            empty_world = Some (0, sandbox_world)) as Hfirst by reflexivity.
  split; [exact Hfirst|].
  exact (proj1 (createSession_keeps_first_session posix_host) sandbox_oracle failing_oracle
           1%positive (Some 7%positive) (Some 9%positive) (Some "user") (Some "other")
           empty_world 0 sandbox_world Hfirst).
Defined.

Lemma one_process_per_session_witness :
  procs serving_world !! 0 = Some (0, 7%positive)
  ∧ (∀ p socket, procs serving_world !! p = Some (0, socket) -> p = 0).
Proof.
  assert (procs serving_world !! 0 = Some (0, 7%positive)) as Hproc by reflexivity.
  split; [exact Hproc|].
  intros p socket Hp.
  exact (one_process_per_session posix_host serving_world serving_world_reachable
           p 0 0 socket 7%positive Hp Hproc).
Defined.

(** ** Sessions side by side *)

Section Isolation.

Variable host : Host.

(** [execute] for a registered session changes no other session object. *)
Lemma execute_heap_frame o socketId socket command w a w' :
  sessions w !! socketId = Some a ->
  execute host o socketId command socket w = Some w' ->
  ∀ a', a' ≠ a -> heap w' !! a' = heap w !! a'.
Proof.
  intros Hreg Hex a' Hne. unfold execute in Hex.
  rewrite (createSession_registered _ _ _ _ _ _ _ Hreg) in Hex. simpl in Hex.
  destruct (heap w !! a) as [session|]; [|done]. simpl in Hex.
  destruct (negb _); [by injection Hex as <-|].
  pose proof (smart_interceptor_heap host o session socket
                (resolve_alias (Js.trim command)) w) as Hheap.
  destruct (smart_interceptor _ _ _ _ _ _) as [cmd w2]. simpl in Hheap.
  rewrite <-Hheap.
  destruct (is_cd cmd).
  { injection Hex as <-. unfold cd. by destruct (negb _). }
  destruct (_ || _); injection Hex as <-; [done|].
  unfold spawn. destruct (pty_spawn _ _ _ _); [|done]. simpl.
  by rewrite !list_lookup_alter_ne.
Qed.

(** What a handler does to the registry: nothing, one new entry for a new
    session object, or one entry less. *)
Lemma step_sessions w o e :
  sessions (step host w (o, e)) = sessions w
  ∨ (∃ socketId, caller e = Some socketId ∧ sessions w !! socketId = None
                 ∧ sessions (step host w (o, e))
                   = <[socketId := length (heap w)]> (sessions w))
  ∨ (∃ socketId, caller e = Some socketId
                 ∧ sessions (step host w (o, e)) = delete socketId (sessions w)).
Proof.
  destruct e as [id sk uid|id data sk|id c r|id|i err|p data|p|i res]; simpl.
  - destruct (createSession _ _ _ _ _ _) as [[a w']|] eqn:Hcs; [|by left]. simpl.
    destruct (sessions w !! id) as [a0|] eqn:Hreg.
    + rewrite (createSession_registered _ _ _ _ _ _ _ Hreg) in Hcs.
      injection Hcs as <- <-. by left.
    + destruct (createSession_fresh _ _ _ _ _ _ _ _ Hreg Hcs) as (-> & -> & _).
      right; left. by exists id.
  - destruct (handleInput _ _ _ _ _ _) as [w'|] eqn:Hin; [|by left]. simpl.
    unfold handleInput in Hin.
    destruct (createSession host o id (Some sk) None w) as [[a w1]|] eqn:Hcs; [|done].
    simpl in Hin.
    pose proof (createSession_result _ _ _ _ _ _ _ _ Hcs) as Hreg1.
    assert (sessions w' = sessions w1) as ->.
    { destruct (heap w1 !! a) as [session|]; [|done]. simpl in Hin.
      destruct (pty session).
      - injection Hin as <-. unfold write. by destruct (_ ≫= _).
      - by eapply execute_sessions. }
    destruct (sessions w !! id) as [a0|] eqn:Hreg.
    + rewrite (createSession_registered _ _ _ _ _ _ _ Hreg) in Hcs.
      injection Hcs as <- <-. by left.
    + destruct (createSession_fresh _ _ _ _ _ _ _ _ Hreg Hcs) as (-> & -> & _).
      right; left. by exists id.
  - left. unfold resize. by destruct (_ ≫= _).
  - unfold kill. destruct (session_of id w) as [s|]; [|by left].
    right; right. exists id. by destruct (pty s).
  - left. unfold access_done. destruct (accessing w !! i) as [cb|]; [|done].
    destruct err; [done|]. simpl. by destruct (heap w !! acc_session cb).
  - left. unfold pty_data. destruct (procs w !! p) as [[a sk]|]; [|done].
    destruct (heap w !! a) as [s|]; [|done].
    destruct (filterOutput _ _) as [cleaned flag]. by destruct (Js.truthy cleaned).
  - left. unfold pty_exit. by destruct (procs w !! p) as [[a sk]|].
  - left. unfold scan_done. by destruct (scans w !! i).
Qed.

Lemma registry_injective_step w oe :
  wf w -> registry_injective w -> registry_injective (step host w oe).
Proof.
  intros Hwf Hinj.
  destruct oe as [o e].
  destruct (step_sessions w o e) as [E|[(id & _ & Hnone & E)|(id & _ & E)]];
    unfold registry_injective; rewrite E.
  - done.
  - assert (∀ id', sessions w !! id' ≠ Some (length (heap w))) as Hnew.
    { intros id' Hid'. destruct (wf_registry _ Hwf _ _ Hid') as [s Hs].
      apply lookup_lt_Some in Hs. lia. }
    intros id1 id2 a.
    destruct (decide (id1 = id)) as [->|H1], (decide (id2 = id)) as [->|H2];
      rewrite ?lookup_insert_eq, ?lookup_insert_ne by done; try done.
    + intros [= <-] H. by destruct (Hnew id2).
    + intros H [= <-]. by destruct (Hnew id1).
    + apply Hinj.
  - intros id1 id2 a [_ H1]%lookup_delete_Some [_ H2]%lookup_delete_Some.
    by eapply Hinj.
Qed.

Lemma registry_injective_run trace :
  ∀ w, wf w -> registry_injective w -> registry_injective (run host trace w).
Proof.
  induction trace as [|oe trace IH]; intros w Hwf Hinj; [done|].
  apply IH; [by apply wf_step|by apply registry_injective_step].
Qed.

(** A call of the transport for [socketId] changes no session object but
    the one of [socketId]. *)
Lemma step_heap_frame w o e socketId a' :
  caller e = Some socketId ->
  is_Some (heap w !! a') -> sessions w !! socketId ≠ Some a' ->
  heap (step host w (o, e)) !! a' = heap w !! a'.
Proof.
  intros Hcaller Hin Hother.
  assert (∀ w1 sk uid a,
            createSession host o socketId sk uid w = Some (a, w1) ->
            heap w1 !! a' = heap w !! a' ∧ a' ≠ a) as Hcreate.
  { intros w1 sk uid a Hcs. destruct (sessions w !! socketId) as [a0|] eqn:Hreg.
    - rewrite (createSession_registered _ _ _ _ _ _ _ Hreg) in Hcs.
      injection Hcs as <- <-. split; [done|]. by intros ->.
    - destruct (createSession_fresh _ _ _ _ _ _ _ _ Hreg Hcs) as (-> & _ & -> & _).
      destruct Hin as [s Hs]. pose proof (lookup_lt_Some _ _ _ Hs).
      split; [by apply lookup_app_l|lia]. }
  destruct e as [id sk uid|id data sk|id c r|id|i err|p data|p|i res];
    simplify_eq/=.
  - destruct (createSession _ _ _ _ _ _) as [[a w1]|] eqn:Hcs; [|done].
    by destruct (Hcreate _ _ _ _ Hcs).
  - destruct (handleInput _ _ _ _ _ _) as [w'|] eqn:Hhi; [|done]. simpl.
    unfold handleInput in Hhi.
    destruct (createSession host o socketId (Some sk) None w) as [[a w1]|] eqn:Hcs;
      [|done].
    simpl in Hhi. destruct (Hcreate _ _ _ _ Hcs) as [<- Hne].
    pose proof (createSession_result _ _ _ _ _ _ _ _ Hcs) as Hreg1.
    destruct (heap w1 !! a) as [session|]; [|done]. simpl in Hhi.
    destruct (pty session).
    + injection Hhi as <-. unfold write. by destruct (_ ≫= _).
    + by eapply execute_heap_frame.
  - unfold resize. by destruct (_ ≫= _).
  - unfold kill. destruct (session_of socketId w) as [s|]; [|done].
    by destruct (pty s).
Qed.

(** X13: what one client does reaches no other client's session. In every
    world the service can reach, different socket ids hold different session
    objects, and a call of [createSession], [handleInput], [resize] or [kill]
    for one socket id leaves [this.sessions[other]], the session and all its
    fields, as it was for every other socket id. *)
Theorem sessions_are_isolated (w : World) :
  reachable host w ->
  registry_injective w
  ∧ ∀ o e socketId other,
      caller e = Some socketId -> socketId ≠ other ->
      session_of other (step host w (o, e)) = session_of other w.
Proof.
  intros Hreach. pose proof (wf_reachable _ _ Hreach) as Hwf.
  assert (registry_injective w) as Hinj.
  { destruct Hreach as [trace ->].
    apply registry_injective_run; [apply wf_empty|]. intros id1 id2 a. simpl.
    by rewrite lookup_empty. }
  split; [done|]. intros o e socketId other Hcaller Hne.
  assert (sessions (step host w (o, e)) !! other = sessions w !! other) as Hreg.
  { destruct (step_sessions w o e) as [E|[(id & Hid & _ & E)|(id & Hid & E)]];
      rewrite E; [done|..]; simplify_eq.
    - by rewrite lookup_insert_ne.
    - by rewrite lookup_delete_ne. }
  unfold session_of. rewrite Hreg.
  destruct (sessions w !! other) as [a'|] eqn:Hother; [|done]. simpl.
  apply (step_heap_frame w o e socketId a' Hcaller); [by eapply wf_registry|].
  intros Hsame. by destruct (Hne (Hinj _ _ _ Hsame Hother)).
Qed.

End Isolation.

Lemma sessions_are_isolated_witness :
  session_of 1%positive
    (step posix_host serving_world (sandbox_oracle, HandleInput 2%positive "ls" 8%positive))
  = Some (user_session "/tmp/teachgrid-workspace/user" (Some 0)).
Proof.
  destruct (sessions_are_isolated posix_host serving_world serving_world_reachable)
    as [_ Hother].
  rewrite (Hother sandbox_oracle (HandleInput 2%positive "ls" 8%positive)
             2%positive 1%positive eq_refl); [reflexivity|discriminate].
Defined.

(** ** The argument of [cd] *)

Lemma append_assoc (a b c : string) : (a +:+ b) +:+ c = a +:+ (b +:+ c).
Proof.
  induction a as [|d a IH]; [done|].
  change (String d a +:+ b) with (String d (a +:+ b)).
  change (String d (a +:+ b) +:+ c) with (String d ((a +:+ b) +:+ c)).
  by rewrite IH.
Qed.

Lemma rev_snoc s c : Js.rev (s +:+ String c "") = String c (Js.rev s).
Proof.
  induction s as [|d s IH]; [done|].
  change (String d s +:+ String c "") with (String d (s +:+ String c "")).
  simpl. by rewrite IH.
Qed.

Lemma length_snoc s c : String.length (s +:+ String c "") = S (String.length s).
Proof.
  induction s as [|d s IH]; [done|].
  change (String d s +:+ String c "") with (String d (s +:+ String c "")).
  simpl. by rewrite IH.
Qed.

Lemma substring_app s r : String.substring 0 (String.length s) (s +:+ r) = s.
Proof.
  induction s as [|d s IH]; [by destruct r|].
  change (String d s +:+ r) with (String d (s +:+ r)). simpl. by rewrite IH.
Qed.

Lemma prefix_empty s : String.prefix "" s = true.
Proof. by destruct s. Qed.

Lemma unquote_quoted x : unquote (quoted x) = x.
Proof.
  unfold unquote, quoted, Js.startsWith, Js.endsWith, Js.slice_1_m1.
  change (String Js.DQUOTE x +:+ String Js.DQUOTE "")
    with (String Js.DQUOTE (x +:+ String Js.DQUOTE "")).
  rewrite prefix_cons, prefix_empty.
  change (Js.rev (String Js.DQUOTE (x +:+ String Js.DQUOTE "")))
    with (Js.rev (x +:+ String Js.DQUOTE "") +:+ String Js.DQUOTE "").
  rewrite rev_snoc.
  change (Js.rev (String Js.DQUOTE ""))  with (String Js.DQUOTE "").
  change (String Js.DQUOTE (Js.rev x) +:+ String Js.DQUOTE "")
    with (String Js.DQUOTE (Js.rev x +:+ String Js.DQUOTE "")).
  rewrite prefix_cons, prefix_empty.
  cbn [andb String.length]. rewrite length_snoc.
  replace (S (S (String.length x)) - 2) with (String.length x) by lia.
  cbn [String.substring]. apply substring_app.
Qed.

(** A name that does not end in a double quote keeps the one it starts with. *)
Lemma rev_not_quote x r :
  Js.index_of Js.DQUOTE x = None -> x ≠ "" ->
  String.prefix (String Js.DQUOTE "") (Js.rev x +:+ r) = false.
Proof.
  revert r; induction x as [|c x IH]; intros r Hq Hne; [done|].
  simpl in Hq. destruct (Ascii.eqb_spec c Js.DQUOTE) as [->|Hc]; [done|].
  cbn [Js.rev]. rewrite append_assoc.
  destruct x as [|d x].
  - change (Js.rev "" +:+ String c "" +:+ r) with (String c r).
    cbn [String.prefix]. by destruct (ascii_dec Js.DQUOTE c) as [<-|].
  - apply IH; [by destruct (Js.index_of Js.DQUOTE (String d x))|done].
Qed.

Section CdArguments.

Variable host : Host.

(** X14: [cd] goes to its first argument only. The target is the text
    between the first and the second space behind [cd], a surrounding pair of
    double quotes removed, whatever follows; with two spaces behind [cd] the
    first argument is empty and the target is the home directory. So the
    quotes do not keep a name with a space together: it is cut at the space
    and keeps the quote it starts with. *)
Theorem cd_reads_first_argument :
  (∀ x, Js.index_of Js.SPACE x = None -> x ≠ "" ->
        cd_target host ("cd " +:+ x) = unquote x
        ∧ ∀ rest, cd_target host ("cd " +:+ x +:+ " " +:+ rest) = unquote x)
  ∧ (∀ rest, cd_target host ("cd  " +:+ rest) = unquote (homedir host))
  ∧ (∀ x, Js.index_of Js.SPACE x = None ->
          cd_target host ("cd " +:+ quoted x) = x)
  ∧ (∀ x y, Js.index_of Js.SPACE x = None -> Js.index_of Js.DQUOTE x = None ->
            x ≠ "" ->
            cd_target host ("cd " +:+ quoted (x +:+ " " +:+ y)) = String Js.DQUOTE x).
Proof.
  assert (∀ x, x ≠ "" -> Js.truthy x = true) as Htruthy.
  { intros x Hx. unfold Js.truthy. by destruct (String.eqb_spec x ""). }
  assert (∀ x, Js.index_of Js.SPACE x = None -> x ≠ "" ->
               cd_target host ("cd " +:+ x) = unquote x) as Hone.
  { intros x Hsp Hx. unfold cd_target.
    change ("cd " +:+ x) with ("cd" +:+ String Js.SPACE x).
    rewrite split_app by done. rewrite (split_without_sep _ _ Hsp). simpl.
    by rewrite (Htruthy _ Hx). }
  assert (∀ x rest, Js.index_of Js.SPACE x = None -> x ≠ "" ->
               cd_target host ("cd " +:+ x +:+ " " +:+ rest) = unquote x) as Hmore.
  { intros x rest Hsp Hx. unfold cd_target.
    change ("cd " +:+ x +:+ " " +:+ rest)
      with ("cd" +:+ String Js.SPACE (x +:+ String Js.SPACE rest)).
    rewrite split_app by done. rewrite (split_app _ _ _ Hsp). simpl.
    by rewrite (Htruthy _ Hx). }
  split_and!.
  - intros x Hsp Hx. split; [by apply Hone|]. intros rest. by apply Hmore.
  - intros rest. unfold cd_target.
    change ("cd  " +:+ rest) with ("cd" +:+ String Js.SPACE (String Js.SPACE rest)).
    rewrite split_app by done. done.
  - intros x Hsp. rewrite Hone.
    + apply unquote_quoted.
    + unfold quoted.
      change (String Js.DQUOTE x +:+ String Js.DQUOTE "")
        with (String Js.DQUOTE (x +:+ String Js.DQUOTE "")).
      simpl. clear -Hsp. induction x as [|c x IH]; [done|].
      change (String c x +:+ String Js.DQUOTE "")
        with (String c (x +:+ String Js.DQUOTE "")).
      simpl in Hsp |- *. destruct (Ascii.eqb c Js.SPACE); [done|].
      rewrite IH; [done|]. by destruct (Js.index_of Js.SPACE x).
    + done.
  - intros x y Hsp Hq Hx. unfold quoted.
    change ("cd " +:+ String Js.DQUOTE (x +:+ " " +:+ y) +:+ String Js.DQUOTE "")
      with ("cd " +:+ String Js.DQUOTE ((x +:+ " " +:+ y) +:+ String Js.DQUOTE "")).
    rewrite append_assoc.
    change ("cd " +:+ String Js.DQUOTE (x +:+ (" " +:+ y) +:+ String Js.DQUOTE ""))
      with ("cd " +:+ String Js.DQUOTE x +:+ " " +:+ (y +:+ String Js.DQUOTE "")).
    rewrite Hmore.
    + unfold unquote, Js.endsWith.
      change (Js.rev (String Js.DQUOTE x)) with (Js.rev x +:+ String Js.DQUOTE "").
      by rewrite rev_not_quote, andb_false_r.
    + simpl. by rewrite Hsp.
    + done.
Qed.

End CdArguments.

Lemma cd_reads_first_argument_witness :
  cd_target posix_host "cd src" = "src"
  ∧ cd_target posix_host "cd src and more" = "src".
Proof.
  destruct (cd_reads_first_argument posix_host) as (Hfirst & _).
  destruct (Hfirst "src") as [Hone Hmore]; [reflexivity|discriminate|].
  split; [exact Hone|exact (Hmore "and more")].
Defined.

(** ** The word the scanner looks for *)

Lemma prefix_nil_r p : String.prefix p "" = true -> p = "".
Proof. by destruct p. Qed.

Lemma prefix_weaken p a r : String.prefix p a = true -> String.prefix p (a +:+ r) = true.
Proof.
  intros [r0 ->]%prefix_split. rewrite append_assoc. apply prefix_app.
Qed.

Lemma occurs_here p s : String.prefix p s = true -> occurs p s = true.
Proof. intros H. destruct s; [done|]. cbn [occurs]. by rewrite H. Qed.

Lemma occurs_later p c s : occurs p s = true -> occurs p (String c s) = true.
Proof. intros H. cbn [occurs]. by rewrite H, orb_true_r. Qed.

Lemma first_segment sep s w ws : Js.split sep s = w :: ws -> ∃ r, s = w +:+ r.
Proof.
  revert w ws; induction s as [|c s IH]; intros w ws; simpl.
  - intros [= <- <-]. by exists "".
  - destruct (Ascii.eqb c sep).
    + intros [= <- <-]. by exists (String c s).
    + destruct (Js.split sep s) as [|w' ws'] eqn:Hs.
      * by destruct (split_not_nil sep s).
      * intros [= <- <-]. destruct (IH _ _ eq_refl) as [r ->]. by exists r.
Qed.

(** Text that occurs in a line of [s] occurs in [s]. *)
Lemma occurs_in_line p sep s line :
  line ∈ Js.split sep s -> occurs p line = true -> occurs p s = true.
Proof.
  revert line; induction s as [|c s IH]; intros line; cbn [Js.split].
  - by intros ->%list_elem_of_singleton.
  - destruct (Ascii.eqb c sep).
    + intros [->|Hin]%elem_of_cons Hocc.
      * cbn [occurs] in Hocc. apply prefix_nil_r in Hocc as ->.
        apply occurs_here, prefix_empty.
      * by apply occurs_later, (IH line).
    + destruct (Js.split sep s) as [|w ws] eqn:Hs; [by destruct (split_not_nil sep s)|].
      intros [->|Hin]%elem_of_cons Hocc.
      * cbn [occurs] in Hocc. apply orb_true_iff in Hocc as [Hpre|Hocc].
        -- destruct (first_segment _ _ _ _ Hs) as [r ->].
           change (String c (w +:+ r)) with (String c w +:+ r).
           by apply occurs_here, prefix_weaken.
        -- apply occurs_later, (IH w); [by left|done].
      * apply occurs_later, (IH line); [by right|done].
Qed.

Lemma listening_occurs s : listening_on_line s = true -> occurs "LISTENING" s = true.
Proof.
  induction s as [|c s IH]; [done|].
  cbn [listening_on_line].
  destruct (String.prefix "LISTENING" (String c s)) eqn:Hpre;
    [intros _; by apply occurs_here|].
  destruct (Js.is_line_terminator c); [done|].
  intros H. by apply occurs_later, IH.
Qed.

Lemma span_occurs f p s : occurs p (span f s).2 = true -> occurs p s = true.
Proof.
  induction s as [|c s IH]; [done|]. cbn [span].
  destruct (f c); [|done]. destruct (span f s) as [a b]. simpl in IH |- *.
  intros H. by rewrite (IH H), orb_true_r.
Qed.

Lemma port_behind_colon_occurs s digits :
  port_behind_colon s = Some digits -> occurs "LISTENING" s = true.
Proof.
  unfold port_behind_colon.
  pose proof (span_occurs Js.is_digit "LISTENING" s) as H1.
  destruct (span Js.is_digit s) as [ds r]. simpl in H1.
  destruct (Js.truthy ds); [|done].
  pose proof (span_occurs Js.is_space "LISTENING" r) as H2.
  destruct (span Js.is_space r) as [blank r']. simpl in H2.
  destruct (Js.truthy blank); [|done]. simpl.
  destruct (listening_on_line r') eqn:Hl; [|done]. intros _.
  by apply H1, H2, listening_occurs.
Qed.

Lemma match_port_occurs line digits :
  match_port line = Some digits -> occurs "LISTENING" line = true.
Proof.
  induction line as [|c r IH]; [done|]. cbn [match_port].
  destruct (Ascii.eqb c ":").
  - destruct (port_behind_colon r) as [ds|] eqn:Hp.
    + intros _. by apply occurs_later, (port_behind_colon_occurs _ ds).
    + intros H. by apply occurs_later, IH.
  - intros H. by apply occurs_later, IH.
Qed.

(** X15: the scanner reads ports only from output that carries the word
    LISTENING. Output in which the word does not occur gives the empty port
    list, and that empty list is what is emitted on the socket; this is the
    case for the lines of [ss -tlnp], which carry LISTEN. *)
Theorem scan_needs_LISTENING (stdout : string) (socket : Socket) :
  occurs "LISTENING" stdout = false ->
  scan_stdout stdout = []
  ∧ scanPorts (Some socket) (Some stdout) = ([(socket, TerminalPorts [])], []).
Proof.
  intros Hnone.
  assert (scan_stdout stdout = []) as Hscan.
  { unfold scan_stdout.
    assert (∀ line, line ∈ Js.split Js.LF stdout -> match_port line = None) as Hlines.
    { intros line Hin. destruct (match_port line) as [ds|] eqn:Hm; [|done].
      apply match_port_occurs in Hm.
      by rewrite (occurs_in_line _ _ _ _ Hin Hm) in Hnone. }
    revert Hlines. generalize (Js.split Js.LF stdout). generalize (@nil N).
    intros ports lines; revert ports.
    induction lines as [|line lines IH]; intros ports Hlines; [done|].
    cbn [fold_left]. unfold scan_line at 2. rewrite (Hlines line) by by left.
    apply IH. intros l Hl. apply Hlines. by right. }
  split; [done|]. unfold scanPorts. by rewrite Hscan.
Qed.

Lemma scan_needs_LISTENING_witness :
  scan_stdout ss_sample = []
  ∧ scanPorts (Some 7%positive) (Some ss_sample) = ([(7%positive, TerminalPorts [])], []).
Proof.
  apply (scan_needs_LISTENING ss_sample 7%positive). reflexivity.
Defined.

(** ** The tree of the workspace index *)

Lemma extend_nil n : extend [] n = n.
Proof.
  destruct n as [i nm d c ch o]. unfold extend. simpl. f_equal.
  destruct ch as [l|]; simpl; [by rewrite app_nil_r|done].
Qed.

Lemma push_extend child l n : Storage.push child (extend l n) = extend (l ++ [child]) n.
Proof.
  unfold Storage.push, extend. simpl. f_equal.
  destruct (Storage.children n) as [c|]; simpl; [by rewrite app_assoc|done].
Qed.

(** [slot] reads whether a node has a [children] array, not what is in it. *)
Lemma slot_extend nodes0 nodes k :
  (∀ k, ∃ l, nodes !! k = extend l <$> nodes0 !! k) ->
  Storage.slot nodes k = Storage.slot nodes0 k.
Proof.
  intros Hext. unfold Storage.slot.
  destruct (Hext k) as [l ->]. destruct (Hext "__proto__") as [lp ->].
  destruct (nodes0 !! k) as [n|]; simpl.
  - by destruct (Storage.children n).
  - destruct (String.eqb k "__proto__"); [done|].
    destruct (nodes0 !! "__proto__") as [p|]; simpl; [|done].
    unfold Storage.lent. simpl.
    by destruct (Storage.children p).
Qed.

Lemma second_pass_snoc nodes rows row :
  Storage.second_pass nodes (rows ++ [row])
  = Storage.second_pass nodes rows ≫= fun st => Storage.connect st row.
Proof. unfold Storage.second_pass. by rewrite fold_left_app. Qed.

Lemma child_of_parent row parent :
  Storage.parentPath (Storage.path row) = Some parent ->
  ∀ k, child_of k row = bool_decide (k = parent).
Proof.
  intros Hp k. unfold child_of. rewrite Hp.
  apply bool_decide_ext. split; [by intros [= ->]|by intros ->].
Qed.

Lemma filter_snoc {A} (f : A -> bool) l x :
  List.filter f (l ++ [x]) = List.filter f l ++ (if f x then [x] else []).
Proof. rewrite List.filter_app. simpl. by destruct (f x). Qed.

(** The second pass, row by row: it throws when a row is blocked, and
    otherwise the top level and the [children] arrays hold the rows in the
    order of the rows. *)
Lemma second_pass_places nodes0 rows :
  match Storage.second_pass nodes0 rows with
  | None => ∃ row, row ∈ rows ∧ blocked nodes0 row
  | Some (nodes, tree) =>
      (∀ row, row ∈ rows -> ¬ blocked nodes0 row)
      ∧ tree = Storage.path <$> List.filter (top_level nodes0) rows
      ∧ ∀ k, nodes !! k
             = extend (Storage.path <$> List.filter (child_of k) rows) <$> nodes0 !! k
  end.
Proof.
  induction rows as [|row rows IH] using rev_ind.
  - simpl. split_and!; [by intros row ?%elem_of_nil|done|].
    intros k. destruct (nodes0 !! k) as [n|]; simpl; [by rewrite extend_nil|done].
  - rewrite second_pass_snoc.
    destruct (Storage.second_pass nodes0 rows) as [[nodes tree]|]; simpl.
    2:{ destruct IH as (r & Hin & Hb). exists r. split; [|done].
        apply elem_of_app. by left. }
    destruct IH as (Hfree & -> & Hnodes).
    assert (∀ k, Storage.slot nodes k = Storage.slot nodes0 k) as Hslot.
    { intros k. apply slot_extend. intros k'. eexists. apply Hnodes. }
    assert (∀ r, (r ∈ rows -> ¬ blocked nodes0 r) -> ¬ blocked nodes0 row ->
                 r ∈ rows ++ [row] -> ¬ blocked nodes0 r) as Hall.
    { intros r Hr Hrow [Hin| ->%list_elem_of_singleton]%elem_of_app; auto. }
    destruct (Storage.parentPath (Storage.path row)) as [parent|] eqn:Hp.
    + rewrite Hslot.
      pose proof (child_of_parent _ _ Hp) as Hchild.
      destruct (Storage.slot nodes0 parent) eqn:Hs.
      * assert (top_level nodes0 row = false) as Htop
          by (unfold top_level; by rewrite Hp, Hs).
        split_and!.
        -- intros r. apply Hall; [apply Hfree|].
           intros (parent' & Hp' & Hs'). congruence.
        -- by rewrite filter_snoc, Htop, app_nil_r.
        -- intros k. rewrite filter_snoc, Hchild.
           case_bool_decide as Hk.
           ++ subst k. rewrite lookup_alter_eq, Hnodes, fmap_app.
              destruct (nodes0 !! parent) as [n|]; simpl; [|done].
              by rewrite push_extend.
           ++ rewrite lookup_alter_ne by done. by rewrite Hnodes, app_nil_r.
      * exists row. split; [apply elem_of_app; right; by left|]. by exists parent.
      * assert (top_level nodes0 row = true) as Htop
          by (unfold top_level; by rewrite Hp, Hs).
        split_and!.
        -- intros r. apply Hall; [apply Hfree|].
           intros (parent' & Hp' & Hs'). congruence.
        -- by rewrite filter_snoc, Htop, fmap_app.
        -- intros k. rewrite filter_snoc, Hchild.
           case_bool_decide as Hk; [|by rewrite Hnodes, app_nil_r].
           subst k. rewrite Hnodes.
           unfold Storage.slot in Hs. destruct (nodes0 !! parent) as [n|]; [|done].
           by destruct (Storage.children n).
    + assert (top_level nodes0 row = true) as Htop
        by (unfold top_level; by rewrite Hp).
      split_and!.
      * intros r. apply Hall; [apply Hfree|].
        intros (parent' & Hp' & Hs'). congruence.
      * by rewrite filter_snoc, Htop, fmap_app.
      * intros k. rewrite filter_snoc. unfold child_of at 2. rewrite Hp.
        rewrite bool_decide_eq_false_2 by done. by rewrite Hnodes, app_nil_r.
Qed.

Lemma first_pass_snoc rows row :
  Storage.first_pass (rows ++ [row])
  = <[Storage.path row := Storage.node_of row]> (Storage.first_pass rows).
Proof. unfold Storage.first_pass. by rewrite fold_left_app. Qed.

(** [nodes] after the first pass: for each path the node of the last row
    with that path. *)
Lemma first_pass_lookup rows k :
  Storage.first_pass rows !! k
  = Storage.node_of <$> last (List.filter (has_path k) rows).
Proof.
  induction rows as [|row rows IH] using rev_ind; [done|].
  rewrite first_pass_snoc, filter_snoc. unfold has_path at 2.
  destruct (String.eqb_spec (Storage.path row) k) as [<-|Hne].
  - by rewrite lookup_insert_eq, last_snoc.
  - by rewrite lookup_insert_ne, app_nil_r.
Qed.

(** X16: what [buildTree] returns. After the first pass [nodes] has, for
    each path, the node of the last row with that path. The second pass
    throws exactly when what [nodes] has for the parent path of some row is
    truthy without a [children] array. Otherwise the top level lists, in the
    order of the rows, the rows whose path has one part or whose parent path
    has nothing in [nodes], and the [children] of the node of a path list, in
    the order of the rows, the rows with that parent path; the other members
    of the nodes are as the first pass made them. *)
Theorem buildTree_places_every_row (rows : list Storage.Row) :
  let nodes0 := Storage.first_pass rows in
  (∀ k, nodes0 !! k = Storage.node_of <$> last (List.filter (has_path k) rows))
  ∧ (Storage.buildTree (Some rows) = None ↔ ∃ row, row ∈ rows ∧ blocked nodes0 row)
  ∧ ∀ nodes tree,
      Storage.buildTree (Some rows) = Some (nodes, tree) ->
      tree = Storage.path <$> List.filter (top_level nodes0) rows
      ∧ ∀ k, nodes !! k
             = extend (Storage.path <$> List.filter (child_of k) rows) <$> nodes0 !! k.
Proof.
  intros nodes0. split; [apply first_pass_lookup|].
  pose proof (second_pass_places nodes0 rows) as Hplaces.
  unfold Storage.buildTree. fold nodes0.
  destruct (Storage.second_pass nodes0 rows) as [[nodes tree]|].
  - destruct Hplaces as (Hfree & Htree & Hnodes). split.
    + split; [done|]. intros (row & Hin & Hb). by destruct (Hfree row Hin).
    + by intros nodes' tree' [= <- <-].
  - split; [|done]. by split.
Qed.

Lemma inherited_name_unusable nodes k :
  k ∈ "__proto__" :: Storage.object_prototype_names -> nodes !! k = None ->
  Storage.slot nodes k = Storage.Unusable.
Proof.
  intros Hk Hnone. unfold Storage.slot. rewrite Hnone.
  apply elem_of_cons in Hk as [->|Hk]; [done|].
  assert (Storage.inherited k = Storage.Unusable) as Hinh.
  { unfold Storage.inherited. by rewrite bool_decide_eq_true_2. }
  unfold Storage.object_prototype_names in Hk.
  repeat (apply elem_of_cons in Hk as [->|Hk];
          [by destruct (nodes !! "__proto__")|]).
  by apply elem_of_nil in Hk.
Qed.

(** X17: two ways to make [buildTree] throw. A row whose parent path is the
    path of a file (the last row with that path is no directory) makes it
    throw, wherever the rows stand. So does a row whose parent path is
    [__proto__] or the name of a member of [Object.prototype], when no row
    has that path. *)
Theorem buildTree_throws (rows : list Storage.Row) (row : Storage.Row) (parent : string) :
  row ∈ rows -> Storage.parentPath (Storage.path row) = Some parent ->
  (∃ file, last (List.filter (has_path parent) rows) = Some file
           ∧ Storage.is_dir file = false)
  ∨ (parent ∈ "__proto__" :: Storage.object_prototype_names
     ∧ ∀ r, r ∈ rows -> Storage.path r ≠ parent) ->
  Storage.buildTree (Some rows) = None.
Proof.
  intros Hin Hp Hcase.
  pose proof (second_pass_places (Storage.first_pass rows) rows) as Hplaces.
  unfold Storage.buildTree.
  destruct (Storage.second_pass (Storage.first_pass rows) rows) as [[nodes tree]|];
    [|done].
  destruct Hplaces as (Hfree' & _). destruct (Hfree' row Hin).
  exists parent. split; [done|].
  destruct Hcase as [(file & Hlast & Hfile)|[Hname Hfree]].
  - unfold Storage.slot. rewrite first_pass_lookup, Hlast. simpl. by rewrite Hfile.
  - apply inherited_name_unusable; [done|].
    rewrite first_pass_lookup.
    assert (List.filter (has_path parent) rows = []) as ->; [|done].
    clear -Hfree. induction rows as [|r rows IH]; [done|]. simpl.
    unfold has_path at 1.
    destruct (String.eqb_spec (Storage.path r) parent) as [Heq|_].
    + destruct (Hfree r); [by left|done].
    + apply IH. intros r' Hr'. apply Hfree. by right.
Qed.

Lemma buildTree_throws_witness :
  Storage.buildTree (Some file_in_file_rows) = None.
Proof.
  apply (buildTree_throws file_in_file_rows
           {| Storage.path := "notes/today"; Storage.name := "today";
              Storage.content := Some "y"; Storage.is_dir := false |} "notes").
  - right; left.
  - reflexivity.
  - left. eexists. split; reflexivity.
Defined.

Lemma buildTree_places_every_row_witness :
  ∃ nodes, Storage.buildTree (Some src_rows) = Some (nodes, ["src"; "lib/util.js"])
           ∧ Storage.children <$> nodes !! "src" = Some (Some ["src/App.jsx"])
           ∧ nodes !! "lib" = None.
Proof.
  destruct (Storage.buildTree (Some src_rows)) as [[nodes tree]|] eqn:Hb;
    [|vm_compute in Hb; discriminate].
  destruct (buildTree_places_every_row src_rows) as (_ & _ & Hsome).
  destruct (Hsome nodes tree Hb) as [-> Hnodes].
  exists nodes. split_and!; [reflexivity|by rewrite Hnodes..].
Defined.

(** ** The directories above a saved file *)

Lemma split_segments sep s :
  Forall (fun seg => Js.index_of sep seg = None) (Js.split sep s).
Proof.
  induction s as [|c s IH]; cbn [Js.split]; [by repeat constructor|].
  destruct (Ascii.eqb c sep) eqn:Hc; [by constructor|].
  pose proof (split_not_nil sep s) as Hnil.
  destruct (Js.split sep s) as [|w ws]; [done|].
  apply Forall_cons in IH as [Hw Hws]. constructor; [|done].
  cbn [Js.index_of]. by rewrite Hc, Hw.
Qed.

(** [split] undoes [join] on parts without the separator. *)
Lemma split_join sep l :
  l ≠ [] -> Forall (fun seg => Js.index_of sep seg = None) l ->
  Js.split sep (Js.join (String sep "") l) = l.
Proof.
  induction l as [|w l IH]; [done|]. intros _ [Hw Hl]%Forall_cons.
  destruct l as [|x l]; [by apply split_without_sep|].
  change (Js.join (String sep "") (w :: x :: l))
    with (w +:+ String sep (Js.join (String sep "") (x :: l))).
  rewrite split_app by done. by rewrite IH.
Qed.

Lemma last_take {A} (l : list A) i x : l !! i = Some x -> last (take (S i) l) = Some x.
Proof. intros H. by rewrite (take_S_r _ _ _ H), last_snoc. Qed.

Lemma removelast_take {A} (l : list A) i :
  i < length l -> removelast (take (S i) l) = take i l.
Proof.
  intros Hi. destruct (lookup_lt_is_Some_2 l i Hi) as [x Hx].
  by rewrite (take_S_r _ _ _ Hx), removelast_last.
Qed.

Lemma parent_rows_seq filePath :
  Storage.parent_rows filePath
  = (fun i => (Js.join "/" (take i (Js.split "/" filePath)),
               default "" (Js.split "/" filePath !! (i - 1))))
      <$> seq 1 (length (Js.split "/" filePath) - 1).
Proof.
  unfold Storage.parent_rows, Js.includes. case_bool_decide as Hin; [done|].
  rewrite split_without_sep; [done|].
  destruct (Js.index_of "/" filePath); [|done]. destruct Hin. by eexists.
Qed.

(** X18: the directory rows [saveFile] upserts before the row of the file
    are the chain of parent paths [buildTree] follows. There is one for each
    part of the path but the last, the shortest first; the name of each is
    the last part of its path; the parent path of each, as [buildTree]
    computes it, is the path of the one before it, and the first has none;
    the parent path of the file is the path of the last one. *)
Theorem saveFile_registers_the_parents (filePath : string) :
  let parents := Storage.parent_rows filePath in
  length parents = length (Js.split "/" filePath) - 1
  ∧ Storage.parentPath filePath = fst <$> last parents
  ∧ ∀ i p n,
      parents !! i = Some (p, n) ->
      last (Js.split "/" p) = Some n
      ∧ Storage.parentPath p = fst <$> (match i with 0 => None | S j => parents !! j end).
Proof.
  intros parents. unfold parents. rewrite parent_rows_seq.
  set (parts := Js.split "/" filePath).
  pose proof (split_segments "/" filePath) as Hseg. fold parts in Hseg.
  pose proof (split_not_nil "/" filePath) as Hnil. fold parts in Hnil.
  assert (0 < length parts) as Hlen by (destruct parts; [done|simpl; lia]).
  assert (∀ i, i < length parts ->
               Js.split "/" (Js.join "/" (take (S i) parts)) = take (S i) parts) as Hsplit.
  { intros i Hi. apply (split_join "/").
    - destruct parts; [done|]. done.
    - by apply Forall_take. }
  split_and!.
  - by rewrite length_fmap, length_seq.
  - unfold Storage.parentPath. fold parts.
    destruct (length parts - 1) as [|m] eqn:Hm.
    + replace (length parts) with 1 by lia. done.
    + replace (length parts =? 1)%nat with false by (symmetry; apply Nat.eqb_neq; lia).
      rewrite seq_S, fmap_app. cbn [fmap list_fmap]. rewrite last_snoc. simpl.
      rewrite removelast_firstn_len. do 3 f_equal. lia.
  - intros i p n Hi.
    apply list_lookup_fmap_Some in Hi as (k & [= -> ->] & Hk).
    apply lookup_seq in Hk as [-> Hi]. simpl.
    rewrite Nat.sub_0_r.
    assert (i < length parts) as Hi' by lia.
    destruct (lookup_lt_is_Some_2 parts i Hi') as [x Hx].
    split.
    + rewrite Hsplit by done. rewrite Hx. simpl. by apply last_take.
    + unfold Storage.parentPath. rewrite Hsplit by done.
      rewrite length_take, Nat.min_l by lia.
      destruct i as [|j]; [done|].
      replace (S (S j) =? 1)%nat with false by done.
      rewrite removelast_take by lia.
      rewrite list_lookup_fmap, lookup_seq_lt by lia. done.
Qed.

Lemma saveFile_registers_the_parents_witness :
  Storage.parent_rows "src/components/App.jsx"
  = [("src", "src"); ("src/components", "components")]
  ∧ Storage.parentPath "src/components/App.jsx" = Some "src/components".
Proof.
  split; [reflexivity|].
  destruct (saveFile_registers_the_parents "src/components/App.jsx") as (_ & -> & _).
  reflexivity.
Defined.

(** ** The watcher *)

Section WatcherFacts.

Variable host : Host.

(** X19: the watcher reads the user and the file from the path below the
    workspace directory. A path with one part (the workspace itself, a user
    folder) makes no call, whatever the event. When a call is made, the user
    id is the first part and has no slash, the file path is the rest, so
    that the two joined by a slash give the relative path back, and the name
    is the last part of the file path. [addDir] saves a directory without
    content, [add] and [change] save the file with the text on disk, and
    [unlink] and [unlinkDir] delete; no other event makes a call. *)
Theorem watcher_splits_user_and_path (o : Oracle) (event absPath : string) :
  let relativeToRoot :=
    Js.replace_char "\" "/"
      (path_relative host (path_join host [tmpdir host; "teachgrid-workspace"]) absPath) in
  (Js.index_of "/" relativeToRoot = None ->
   Storage.handleFsEvent host o event absPath = None)
  ∧ ∀ call,
      Storage.handleFsEvent host o event absPath = Some call ->
      ∃ userId filePath,
        relativeToRoot = userId +:+ "/" +:+ filePath
        ∧ Js.index_of "/" userId = None
        ∧ ((call = Storage.DeleteFile userId filePath
            ∧ (event = "unlink" ∨ event = "unlinkDir"))
           ∨ ∃ name,
               last (Js.split "/" filePath) = Some name
               ∧ ((call = Storage.SaveFile userId filePath name None true
                   ∧ event = "addDir")
                  ∨ ∃ text, readFileSync o absPath = Some text
                            ∧ call = Storage.SaveFile userId filePath name (Some text) false
                            ∧ (event = "add" ∨ event = "change"))).
Proof.
  intros relativeToRoot. unfold Storage.handleFsEvent. fold relativeToRoot.
  pose proof (split_segments "/" relativeToRoot) as Hseg.
  pose proof (join_split "/" relativeToRoot) as Hjoin.
  split.
  { intros Hnone. by rewrite (split_without_sep _ _ Hnone). }
  intros call.
  destruct (Js.split "/" relativeToRoot) as [|userId [|x rest]]; [done..|].
  change (length (userId :: x :: rest) <? 2)%nat with false. cbv iota.
  change (default "" (head (userId :: x :: rest))) with userId.
  change (tail (userId :: x :: rest)) with (x :: rest).
  change (default "" (last (userId :: x :: rest))) with (default "" (last (x :: rest))).
  apply Forall_cons in Hseg as [Huser Hrest].
  assert (Js.split "/" (Js.join "/" (x :: rest)) = x :: rest) as Hsplit
    by (by apply (split_join "/")).
  assert (∃ name, last (x :: rest) = Some name) as [name Hname].
  { destruct (last (x :: rest)) as [name|] eqn:Hl; [by eexists|].
    by apply last_None in Hl. }
  rewrite Hname. simpl default.
  intros Hcall. exists userId, (Js.join "/" (x :: rest)).
  split; [by rewrite <-Hjoin|]. split; [done|].
  rewrite Hsplit.
  destruct (String.eqb_spec event "add") as [->|Hadd]; simpl in Hcall.
  { destruct (readFileSync o absPath) as [text|]; [|done]. injection Hcall as <-.
    right. exists name. split; [done|]. right. exists text. auto. }
  destruct (String.eqb_spec event "change") as [->|Hchange]; simpl in Hcall.
  { destruct (readFileSync o absPath) as [text|]; [|done]. injection Hcall as <-.
    right. exists name. split; [done|]. right. exists text. auto. }
  destruct (String.eqb_spec event "addDir") as [->|HaddDir]; simpl in Hcall.
  { injection Hcall as <-. right. exists name. auto. }
  destruct (String.eqb_spec event "unlink") as [->|Hunlink]; simpl in Hcall.
  { injection Hcall as <-. left. auto. }
  destruct (String.eqb_spec event "unlinkDir") as [->|HunlinkDir]; simpl in Hcall.
  { injection Hcall as <-. left. auto. }
  done.
Qed.

End WatcherFacts.

Lemma watcher_splits_user_and_path_witness :
  Storage.handleFsEvent posix_host app_oracle "change"
    "/tmp/teachgrid-workspace/user/src/App.jsx"
  = Some (Storage.SaveFile "user" "src/App.jsx" "App.jsx" (Some "export default 1") false)
  ∧ Storage.handleFsEvent posix_host app_oracle "addDir" "/tmp/teachgrid-workspace/user"
    = None.
Proof.
  split; [reflexivity|].
  by apply (proj1 (watcher_splits_user_and_path posix_host app_oracle "addDir"
                     "/tmp/teachgrid-workspace/user")).
Defined.

(** ** A line on the screen *)

Lemma index_of_app c a b : is_Some (Js.index_of c (a +:+ String c b)).
Proof.
  induction a as [|d a IH].
  - change ("" +:+ String c b) with (String c b). simpl.
    rewrite Ascii.eqb_refl. by eexists.
  - change (String d a +:+ String c b) with (String d (a +:+ String c b)).
    cbn [Js.index_of]. destruct (Ascii.eqb d c); [by eexists|].
    destruct IH as [i ->]. by eexists.
Qed.

Lemma prefix_app_r p a b : String.prefix a b = true -> String.prefix (p +:+ a) (p +:+ b) = true.
Proof.
  intros H. induction p as [|c p IH]; [done|].
  change (String c p +:+ a) with (String c (p +:+ a)).
  change (String c p +:+ b) with (String c (p +:+ b)).
  by rewrite prefix_cons.
Qed.

Lemma split_includes sep s :
  is_Some (Js.index_of sep s) -> ∃ a b rest, Js.split sep s = a :: b :: rest.
Proof.
  induction s as [|c s IH]; [by intros [? ?]|]. cbn [Js.index_of Js.split].
  pose proof (split_not_nil sep s) as Hnil.
  destruct (Ascii.eqb c sep).
  - intros _. destruct (Js.split sep s) as [|w ws]; [done|]. by eexists _, _, _.
  - intros Hs. destruct IH as (a & b & rest & ->); [|by eexists _, _, _].
    destruct (Js.index_of sep s); [by eexists|]. by destruct Hs.
Qed.

(** X20: what the terminal pane shows of a line of output. A line without
    [>] is shown as it is, and so is a line with one [>], as a prompt up to
    the [>] and a command behind it. Of a line with more the pane shows the
    text before the second [>] and drops the rest. What is shown is always a
    beginning of the line. *)
Theorem render_line_cuts_at_second_gt :
  (∀ line, Js.index_of ">" line = None ->
           Terminal.render_line line = Terminal.Plain line)
  ∧ (∀ a b, Js.index_of ">" a = None -> Js.index_of ">" b = None ->
            Terminal.render_line (a +:+ ">" +:+ b) = Terminal.Prompted (a +:+ ">") b
            ∧ ∀ c, Terminal.render_line (a +:+ ">" +:+ b +:+ ">" +:+ c)
                   = Terminal.Prompted (a +:+ ">") b)
  ∧ (∀ line, String.prefix (Terminal.shown (Terminal.render_line line)) line = true).
Proof.
  split_and!.
  - intros line Hnone. unfold Terminal.render_line, Js.includes. rewrite Hnone.
    rewrite bool_decide_eq_false_2; [done|]. by intros [? ?].
  - intros a b Ha Hb. split; [|intros c]; unfold Terminal.render_line, Js.includes.
    + change (a +:+ ">" +:+ b) with (a +:+ String ">" b).
      rewrite bool_decide_eq_true_2 by apply index_of_app.
      by rewrite (split_app _ _ _ Ha), (split_without_sep _ _ Hb).
    + change (a +:+ ">" +:+ b +:+ ">" +:+ c) with (a +:+ String ">" (b +:+ String ">" c)).
      rewrite bool_decide_eq_true_2 by apply index_of_app.
      by rewrite (split_app _ _ _ Ha), (split_app _ _ _ Hb).
  - intros line. unfold Terminal.render_line, Js.includes.
    case_bool_decide as Hin; [|apply prefix_refl].
    pose proof (join_split ">" line) as Hjoin.
    destruct (split_includes _ _ Hin) as (a & b & rest & Hsplit).
    rewrite Hsplit in Hjoin |- *. rewrite <-Hjoin.
    change (Js.join ">" (a :: b :: rest)) with (a +:+ ">" +:+ Js.join ">" (b :: rest)).
    cbn [Terminal.shown lookup list_lookup default from_option].
    rewrite append_assoc. do 2 apply prefix_app_r.
    destruct rest as [|c rest]; [apply prefix_refl|apply prefix_app].
Qed.

Lemma render_line_cuts_at_second_gt_witness :
  Terminal.render_line "Teachgrid>echo a > out.txt"
  = Terminal.Prompted "Teachgrid>" "echo a ".
Proof.
  destruct render_line_cuts_at_second_gt as (_ & Hcut & _).
  destruct (Hcut "Teachgrid" "echo a ") as [_ Hmore]; [reflexivity..|].
  exact (Hmore " out.txt").
Defined.

(** ** Module paths *)

Lemma visit_kept stack parts :
  Forall (fun part => kept_part part = true) parts ->
  fold_left Bundler.visit parts stack = stack ++ parts.
Proof.
  revert stack; induction parts as [|part parts IH]; intros stack Hkept; simpl.
  - by rewrite app_nil_r.
  - apply Forall_cons in Hkept as [Hpart Hparts].
    rewrite IH by done. unfold Bundler.visit, kept_part in *.
    destruct (String.eqb part "."), (String.eqb part ""), (String.eqb part "..");
      simpl in *; try done.
    by rewrite <-app_assoc.
Qed.

Lemma Forall_removelast {A} (P : A -> Prop) l : Forall P l -> Forall P (removelast l).
Proof.
  induction 1 as [|x l Hx Hl IH]; [done|]. simpl.
  destruct l; [done|]. by constructor.
Qed.

Lemma visit_keeps (P : string -> Prop) parts :
  Forall P parts ->
  ∀ stack, Forall (fun part => kept_part part = true ∧ P part) stack ->
           Forall (fun part => kept_part part = true ∧ P part)
                  (fold_left Bundler.visit parts stack).
Proof.
  induction 1 as [|part parts Hpart Hparts IH]; intros stack Hstack; [done|].
  simpl. apply IH. unfold Bundler.visit.
  destruct (String.eqb part "." || String.eqb part "") eqn:H1; [done|].
  destruct (String.eqb part "..") eqn:H2; [by apply Forall_removelast|].
  apply Forall_app. split; [done|]. repeat constructor; [|done].
  unfold kept_part. apply orb_false_iff in H1 as [-> ->]. by rewrite H2.
Qed.

(** X21: [normalizePath] is idempotent, and its result is the empty path or
    has parts that are all kept: none of them is empty, [.] or [..]. So the
    result never starts or ends with a slash, and [..] never survives: above
    the top it is dropped. *)
Theorem normalizePath_idempotent (path : string) :
  Bundler.normalizePath (Bundler.normalizePath path) = Bundler.normalizePath path
  ∧ (Bundler.normalizePath path = ""
     ∨ Forall (fun part => kept_part part = true)
              (Js.split "/" (Bundler.normalizePath path))).
Proof.
  unfold Bundler.normalizePath.
  pose proof (visit_keeps _ _ (split_segments "/" path) [] (Forall_nil_2 _)) as Hstack.
  destruct (fold_left Bundler.visit (Js.split "/" path) []) as [|part stack] eqn:Hfold.
  - split; [done|by left].
  - assert (Js.split "/" (Js.join "/" (part :: stack)) = part :: stack) as Hsplit.
    { apply (split_join "/"); [done|]. eapply Forall_impl; [done|]. by intros ? [_ ?]. }
    assert (Forall (fun part => kept_part part = true) (part :: stack)) as Hkept.
    { eapply Forall_impl; [done|]. by intros ? [? _]. }
    rewrite Hsplit. split; [|by right].
    by rewrite visit_kept.
Qed.

(** ** Two [cd] commands in flight *)

Section CdInFlight.

Variable host : Host.


End CdInFlight.


(** ** A saved file in the tree *)

(** The one element of a list that satisfies [f]. *)
Lemma filter_unique {A} (f : A -> bool) (l : list A) i x :
  l !! i = Some x -> f x = true ->
  (∀ j y, l !! j = Some y -> f y = true -> j = i) ->
  List.filter f l = [x].
Proof.
  revert i; induction l as [|y l IH]; intros i Hi Hx Huniq; [done|].
  destruct i as [|i]; simpl in Hi.
  - injection Hi as ->. simpl. rewrite Hx. f_equal.
    clear IH Hx. assert (∀ j z, l !! j = Some z -> f z = false) as Hrest.
    { intros j z Hj. destruct (f z) eqn:Hz; [|done].
      by specialize (Huniq (S j) z Hj Hz). }
    clear Huniq. induction l as [|z l IH]; [done|]. simpl.
    rewrite (Hrest 0 z eq_refl). apply IH. intros j. apply (Hrest (S j)).
  - simpl. destruct (f y) eqn:Hy; [by specialize (Huniq 0 y eq_refl Hy)|].
    apply (IH i Hi Hx). intros j z Hj Hz. specialize (Huniq (S j) z Hj Hz). lia.
Qed.

Section SavedRows.

Variables (filePath name : string) (content : option string) (isDir : bool).

Local Abbreviation parts := (Js.split "/" filePath).
Local Abbreviation rows := (saved_rows filePath name content isDir).
Local Abbreviation P := (path_upto filePath).

Lemma parts_not_nil : 0 < length parts.
Proof.
  pose proof (split_not_nil "/" filePath) as Hnil.
  destruct parts; [done|simpl; lia].
Qed.

Lemma split_P i : i < length parts -> Js.split "/" (P i) = take (S i) parts.
Proof.
  intros Hi. apply (split_join "/").
  - pose proof parts_not_nil. destruct parts; [simpl in *; lia|done].
  - apply Forall_take, split_segments.
Qed.

Lemma P_inj i j : i < length parts -> j < length parts -> P i = P j -> i = j.
Proof.
  intros Hi Hj Heq. apply (f_equal (fun p => length (Js.split "/" p))) in Heq.
  rewrite !split_P, !length_take in Heq by done. lia.
Qed.

Lemma parentPath_P i :
  i < length parts ->
  Storage.parentPath (P i) = match i with 0 => None | S j => Some (P j) end.
Proof.
  intros Hi. unfold Storage.parentPath. rewrite split_P by done.
  rewrite length_take, Nat.min_l by lia.
  destruct i as [|j]; [done|].
  replace (S (S j) =? 1)%nat with false by done.
  by rewrite removelast_take by lia.
Qed.

Lemma saved_rows_lookup i :
  i < length parts ->
  ∃ row, rows !! i = Some row ∧ Storage.path row = P i
         ∧ (i < length parts - 1 -> Storage.is_dir row = true).
Proof.
  intros Hi. unfold saved_rows. rewrite parent_rows_seq.
  destruct (decide (i < length parts - 1)) as [Hlt|Hge].
  - rewrite lookup_app_l by (by rewrite !length_fmap, length_seq).
    rewrite !list_lookup_fmap, lookup_seq_lt by done. simpl.
    eexists. split; [done|]. done.
  - rewrite lookup_app_r by (rewrite !length_fmap, length_seq; lia).
    rewrite !length_fmap, length_seq.
    replace (i - (length parts - 1)) with 0 by lia. simpl.
    eexists. split; [done|]. simpl. split; [|lia].
    unfold path_upto. rewrite take_ge by lia.
    by rewrite (join_split "/").
Qed.

Lemma saved_rows_length : length rows = length parts.
Proof.
  unfold saved_rows. rewrite parent_rows_seq.
  rewrite length_app, !length_fmap, length_seq. simpl. pose proof parts_not_nil. lia.
Qed.

Lemma saved_rows_path i row : rows !! i = Some row -> i < length parts ∧ Storage.path row = P i.
Proof.
  intros Hrow. pose proof (lookup_lt_Some _ _ _ Hrow) as Hi.
  rewrite saved_rows_length in Hi. split; [done|].
  destruct (saved_rows_lookup i Hi) as (row' & Hrow' & Hpath & _). congruence.
Qed.

(** The node the first pass makes for a directory above the file. *)
Lemma saved_rows_directory i :
  i < length parts - 1 ->
  ∃ n, Storage.first_pass rows !! P i = Some n ∧ Storage.children n = Some [].
Proof.
  intros Hi. assert (i < length parts) as Hi' by lia.
  destruct (saved_rows_lookup i Hi') as (row & Hrow & Hpath & Hdir).
  rewrite first_pass_lookup.
  rewrite (filter_unique (has_path (P i)) rows i row Hrow).
  - simpl. eexists. split; [done|]. simpl. by rewrite Hdir.
  - unfold has_path. rewrite Hpath. apply String.eqb_refl.
  - intros j y Hj Hy. apply saved_rows_path in Hj as [Hj Hpj].
    unfold has_path in Hy. apply String.eqb_eq in Hy. rewrite Hpj in Hy.
    by apply P_inj.
Qed.

(** X23: the rows [saveFile] writes for one file make a tree that
    [buildTree] can build, whatever the path: it does not throw, the top level
    holds one node, the first part of the path, and every directory above the
    file has one child, the next path down, the last of which is the file. *)
Theorem saved_file_is_listed :
  ∃ nodes,
    Storage.buildTree (Some rows) = Some (nodes, [P 0])
    ∧ (∀ i, S i < length parts ->
            Storage.children <$> nodes !! P i = Some (Some [P (S i)]))
    ∧ P (length parts - 1) = filePath.
Proof.
  pose proof (second_pass_places (Storage.first_pass rows) rows) as Hplaces.
  pose proof parts_not_nil as Hlen.
  assert (∀ j row parent,
            rows !! j = Some row ->
            Storage.parentPath (Storage.path row) = Some parent ->
            ∃ j', j = S j' ∧ parent = P j'
                  ∧ Storage.slot (Storage.first_pass rows) parent = Storage.Directory)
    as Hparent.
  { intros j row parent Hj Hp. apply saved_rows_path in Hj as [Hj Hpath].
    rewrite Hpath, parentPath_P in Hp by done.
    destruct j as [|j']; [done|]. injection Hp as <-.
    exists j'. split; [done|]. split; [done|].
    destruct (saved_rows_directory j') as (n & Hn & Hc); [lia|].
    unfold Storage.slot. by rewrite Hn, Hc. }
  unfold Storage.buildTree.
  destruct (Storage.second_pass (Storage.first_pass rows) rows) as [[nodes tree]|].
  2:{ destruct Hplaces as (row & [j Hj]%list_elem_of_lookup_1 & parent & Hp & Hs).
      destruct (Hparent j row parent Hj Hp) as (j' & _ & _ & Hdir). congruence. }
  destruct Hplaces as (_ & -> & Hnodes).
  exists nodes. split_and!.
  - destruct (saved_rows_lookup 0 Hlen) as (row0 & Hrow0 & Hpath0 & _).
    rewrite (filter_unique _ rows 0 row0 Hrow0).
    + simpl. by rewrite Hpath0.
    + unfold top_level. by rewrite Hpath0, parentPath_P.
    + intros j y Hj Hy. unfold top_level in Hy.
      destruct (Storage.parentPath (Storage.path y)) as [parent|] eqn:Hp.
      * destruct (Hparent j y parent Hj Hp) as (j' & _ & _ & Hdir).
        by rewrite Hdir in Hy.
      * apply saved_rows_path in Hj as [Hj Hpath].
        rewrite Hpath, parentPath_P in Hp by done. by destruct j.
  - intros i Hi.
    destruct (saved_rows_directory i) as (n & Hn & Hc); [lia|].
    destruct (saved_rows_lookup (S i) Hi) as (row & Hrow & Hpath & _).
    rewrite Hnodes, Hn. simpl. rewrite Hc. simpl. do 2 f_equal.
    rewrite (filter_unique _ rows (S i) row Hrow).
    + simpl. by rewrite Hpath.
    + unfold child_of. rewrite Hpath, parentPath_P by done.
      by rewrite bool_decide_eq_true_2.
    + intros j y Hj Hy. unfold child_of in Hy. apply bool_decide_eq_true_1 in Hy.
      destruct (Hparent j y _ Hj Hy) as (j' & -> & Heq & _).
      apply saved_rows_path in Hj as [Hj _].
      f_equal. symmetry. apply P_inj; [lia..|done].
  - unfold path_upto. rewrite take_ge by lia. apply (join_split "/").
Qed.

End SavedRows.

Lemma saved_file_is_listed_witness :
  ∃ nodes,
    Storage.buildTree (Some (saved_rows "src/components/App.jsx" "App.jsx" (Some "x") false))
    = Some (nodes, ["src"])
    ∧ Storage.children <$> nodes !! "src" = Some (Some ["src/components"])
    ∧ Storage.children <$> nodes !! "src/components"
      = Some (Some ["src/components/App.jsx"]).
Proof.
  destruct (saved_file_is_listed "src/components/App.jsx" "App.jsx" (Some "x") false)
    as (nodes & Htree & Hchildren & _).
  exists nodes. split; [exact Htree|]. split.
  - apply (Hchildren 0). vm_compute. lia.
  - apply (Hchildren 1). vm_compute. lia.
Defined.

(** ** Hooks of a process that has lost its session *)

(** X24: the hooks of a process act on the session object the process was
    spawned for, not on the session its socket id has now. When the two
    differ (the session was killed and the id got a new one), output and
    exit of the old process leave the session of the id as it is, with its
    own process attached, and the exit still emits the idle status on the
    old socket and starts a scan. *)
Theorem stale_hooks_spare_the_successor (w : World) socketId a p a' socket :
  sessions w !! socketId = Some a -> procs w !! p = Some (a', socket) -> a' ≠ a ->
  (∀ data, session_of socketId (pty_data p data w) = session_of socketId w)
  ∧ session_of socketId (pty_exit p w) = session_of socketId w
  ∧ out (pty_exit p w) = out w ++ [(socket, TerminalStatus false)]
  ∧ scans (pty_exit p w) = scans w ++ [Some socket].
Proof.
  intros Hreg Hproc Hne. split_and!.
  - intros data. unfold pty_data. rewrite Hproc.
    destruct (heap w !! a') as [session|]; [|done].
    destruct (filterOutput data (initialOutputReceived session)) as [cleaned flag].
    unfold session_of.
    destruct (Js.truthy cleaned); simpl; rewrite Hreg; simpl;
      by rewrite list_lookup_alter_ne.
  - unfold pty_exit. rewrite Hproc. unfold session_of. simpl. rewrite Hreg. simpl.
    by rewrite list_lookup_alter_ne.
  - unfold pty_exit. by rewrite Hproc.
  - unfold pty_exit. by rewrite Hproc.
Qed.

Lemma stale_hooks_spare_the_successor_witness :
  pty <$> session_of 1%positive (pty_exit 0 restarted_world) = Some (Some 1)
  ∧ out (pty_exit 0 restarted_world)
    = out restarted_world ++ [(7%positive, TerminalStatus false)].
Proof.
  destruct (stale_hooks_spare_the_successor restarted_world 1%positive 1 0 0 7%positive)
    as (_ & Hexit & Hout & _); [reflexivity|reflexivity|discriminate|].
  split; [rewrite Hexit; reflexivity|exact Hout].
Defined.
